(** * janis-runner: the task orchestration core

    A shallow embedding of
    - [shepherd/management/taskmanager.py] (the [TaskManager] orchestrator
      and its output staging),
    - [janis_assistant/engines/shell/main.py] (the [ShellLogger] log watcher
      and the [Shell] engine), and
    - [janis_assistant/data/container/registries.py] (the container
      registries and the digest lookup),
    together with the properties of the progress state machine, of output
    routing, of the local-process supervisor and of the registry lookup.

    Conventions.  Python methods become functions in a small state and
    exception monad; collaborators that live outside these modules (the
    engine behind [environment.engine], the translator, the file scheme, the
    registry of environments, the local file system, the network) are
    section variables, and every call to one of them is recorded, with what
    it gave back, in a history of events, newest first.  Text is held as the
    bytes of its UTF-8 encoding.  Logging ([Logger.log], [print],
    [call('clear')]) is not modelled. *)

From stdpp Require Import gmap strings list pretty.
From Stdlib Require Import ZArith Lia Ascii.

#[local] Set Warnings "-register-all,-clear-no-such-hyp".

Open Scope string_scope.
Open Scope list_scope.

(** ** Python string helpers *)

Module PyStr.

(** [s.split(sep)] for a one-character separator. *)
Fixpoint split (sep : Ascii.ascii) (s : string) : list string :=
  match s with
  | EmptyString => [EmptyString]
  | String c r =>
      if Ascii.eqb c sep then EmptyString :: split sep r
      else match split sep r with
           | h :: t => String c h :: t
           | [] => [String c EmptyString]
           end
  end.

(** [l[-1]] on a list of strings that is never empty here. *)
Definition last_item (l : list string) : string := List.last l EmptyString.

(** [s.startswith(p)]. *)
Definition startswith (s p : string) : bool := String.prefix p s.

(** Text is held as the bytes of its UTF-8 encoding, one [ascii] per byte.

    [c.lower()] on the ASCII letters; other bytes are left alone.  Of the
    characters outside ASCII, [str.lower] turns only U+0130 and U+212A into
    text with an ASCII letter in it ([i] followed by U+0307, and [k]), which
    neither completes nor breaks an occurrence of an ASCII word without [k]
    and with a letter after each of its [i]s. *)
Definition lower_ascii (c : Ascii.ascii) : Ascii.ascii :=
  let n := Ascii.nat_of_ascii c in
  if (65 <=? n)%nat && (n <=? 90)%nat then Ascii.ascii_of_nat (n + 32) else c.

Fixpoint lower (s : string) : string :=
  match s with
  | EmptyString => EmptyString
  | String c r => String (lower_ascii c) (lower r)
  end.

(** [sub in s]. *)
Fixpoint contains (sub s : string) : bool :=
  String.prefix sub s ||
  match s with
  | EmptyString => false
  | String _ r => contains sub r
  end.

(** The characters for which [str.isspace] holds: in ASCII, U+0009 to
    U+000D and U+001C to U+0020, *)
Definition is_space (c : Ascii.ascii) : bool :=
  let n := Ascii.nat_of_ascii c in
  ((9 <=? n)%nat && (n <=? 13)%nat) || ((28 <=? n)%nat && (n <=? 32)%nat).

(** in two bytes, U+0085 and U+00A0 ([C2 85], [C2 A0]), *)
Definition is_space2 (b0 b1 : Ascii.ascii) : bool :=
  let x := Ascii.nat_of_ascii b0 in
  let y := Ascii.nat_of_ascii b1 in
  (x =? 194)%nat && ((y =? 133)%nat || (y =? 160)%nat).

(** and in three bytes, U+1680 ([E1 9A 80]), U+2000 to U+200A, U+2028,
    U+2029 and U+202F ([E2 80 80] to [E2 80 8A], [E2 80 A8], [E2 80 A9],
    [E2 80 AF]), U+205F ([E2 81 9F]) and U+3000 ([E3 80 80]). *)
Definition is_space3 (b0 b1 b2 : Ascii.ascii) : bool :=
  let x := Ascii.nat_of_ascii b0 in
  let y := Ascii.nat_of_ascii b1 in
  let z := Ascii.nat_of_ascii b2 in
  ((x =? 225)%nat && (y =? 154)%nat && (z =? 128)%nat)
  || ((x =? 226)%nat && (y =? 128)%nat
      && (((128 <=? z)%nat && (z <=? 138)%nat)
          || (z =? 168)%nat || (z =? 169)%nat || (z =? 175)%nat))
  || ((x =? 226)%nat && (y =? 129)%nat && (z =? 159)%nat)
  || ((x =? 227)%nat && (y =? 128)%nat && (z =? 128)%nat).

(** Drop the white-space characters a text starts with, the text being
    given last byte first, so that a character of several bytes shows its
    last byte first; [fuel] bounds the number of characters dropped.  In
    UTF-8 the bytes of one character are never the tail of the bytes of
    another, so the tests below see whole characters. *)
Fixpoint drop_spaces (fuel : nat) (r : string) : string :=
  match fuel with
  | O => r
  | S fuel' =>
      match r with
      | String c rest =>
          if is_space c then drop_spaces fuel' rest
          else
            match rest with
            | String b rest2 =>
                if is_space2 b c then drop_spaces fuel' rest2
                else
                  match rest2 with
                  | String a rest3 =>
                      if is_space3 a b c then drop_spaces fuel' rest3 else r
                  | EmptyString => r
                  end
            | EmptyString => r
            end
      | EmptyString => r
      end
  end.

(** [s.rstrip()]: the text without the white space it ends with. *)
Definition rstrip (s : string) : string :=
  String.rev (drop_spaces (String.length s) (String.rev s)).

(** [s.endswith(suf)]. *)
Definition endswith (s suf : string) : bool :=
  String.prefix (String.rev suf) (String.rev s).

(** The line feed. *)
Definition newline : string := String (Ascii.ascii_of_nat 10) EmptyString.

(** Truth value of a string: [bool(s)]. *)
Definition truthy (s : string) : bool :=
  match s with EmptyString => false | _ => true end.

End PyStr.

(** ** Enumerations

    [shepherd.management.enums] and [shepherd.data.schema] are imported by
    the orchestrator; the members below are the ones the two modules name. *)

Module ProgressKeys.

Inductive t :=
| saveWorkflow
| submitWorkflow
| workflowMovedToFinalState
| savedMetadata
| copiedOutputs
| savedLogs.

#[global] Instance eq_dec : EqDecision t.
Proof. solve_decision. Defined.

Definition code (k : t) : nat :=
  match k with
  | saveWorkflow => 0 | submitWorkflow => 1 | workflowMovedToFinalState => 2
  | savedMetadata => 3 | copiedOutputs => 4 | savedLogs => 5
  end.

Definition of_code (n : nat) : option t :=
  match n with
  | 0 => Some saveWorkflow | 1 => Some submitWorkflow
  | 2 => Some workflowMovedToFinalState | 3 => Some savedMetadata
  | 4 => Some copiedOutputs | 5 => Some savedLogs | _ => None
  end.

#[global] Instance countable : Countable t.
Proof. apply (inj_countable code of_code). by intros []. Defined.

End ProgressKeys.

Module InfoKeys.

Inductive t :=
| taskId
| status
| validating
| engineId
| environment
| engine_tid.

#[global] Instance eq_dec : EqDecision t.
Proof. solve_decision. Defined.

Definition code (k : t) : nat :=
  match k with
  | taskId => 0 | status => 1 | validating => 2
  | engineId => 3 | environment => 4 | engine_tid => 5
  end.

Definition of_code (n : nat) : option t :=
  match n with
  | 0 => Some taskId | 1 => Some status | 2 => Some validating
  | 3 => Some engineId | 4 => Some environment | 5 => Some engine_tid
  | _ => None
  end.

#[global] Instance countable : Countable t.
Proof. apply (inj_countable code of_code). by intros []. Defined.

End InfoKeys.

Module TaskStatus.

Inductive t := QUEUED | PROCESSING | COMPLETED | FAILED | ABORTED.

#[global] Instance eq_dec : EqDecision t.
Proof. solve_decision. Defined.

(** Modelled from the spec: [TaskStatus.FINAL_STATES()] of the schema
    module, which the orchestrator imports.  The terminal statuses are
    completed, failed and aborted. *)
Definition FINAL_STATES : list t := [COMPLETED; FAILED; ABORTED].

(** [status in TaskStatus.FINAL_STATES()] *)
Definition is_final (s : t) : bool := bool_decide (s ∈ FINAL_STATES).

End TaskStatus.

(** ** Output values

    What an engine binds to an output name.  [OStr] is a [str] location,
    [OList] a Python [list], [OFile] a [CromwellFile]; [OOther ty] stands for
    a value of any other Python type, [ty] being its type name. *)

Inductive CromwellFile :=
| CFile (location : string) (secondary_files : list CromwellFile).

Definition location (f : CromwellFile) : string :=
  match f with CFile l _ => l end.

Definition secondary_files (f : CromwellFile) : list CromwellFile :=
  match f with CFile _ s => s end.

Inductive Value :=
| OStr (s : string)
| OList (l : list Value)
| OFile (f : CromwellFile)
| OOther (ty : string).

(** ** Output staging

    [TaskManager.copy_output], [copy_sharded_outputs] and
    [copy_cromwell_output] are static and touch nothing but the file scheme:
    each computes destinations and calls [filescheme.cp_from(source, dest,
    None)].  They are embedded as the ordered list of [cp_from] calls they
    make; the orchestrator then performs the calls one after the other. *)

Record CopyOp := mkCopy { cp_source : string; cp_dest : string }.

#[global] Instance CopyOp_eq_dec : EqDecision CopyOp.
Proof. solve_decision. Defined.

Section Staging.

(** [shepherd.utils.get_extension], imported by the orchestrator: the
    extension of a path, or [None]. *)
Variable get_extension : string -> option string.

(** [('.' + ext) if ext else ''] *)
Definition extwdot (source : string) : string :=
  match get_extension source with
  | Some ext => if PyStr.truthy ext then "." +:+ ext else ""
  | None => ""
  end.

(** The [str] branch of [copy_output]. *)
Definition copy_str (output_dir filename source : string) : list CopyOp :=
  [mkCopy source (output_dir +:+ filename +:+ extwdot source)].

(** [copy_output], with the loop of [copy_sharded_outputs] as its inner
    fixpoint; a value that is neither a list, a [CromwellFile] nor a [str]
    falls through the [if]/[elif] chain. *)
Fixpoint copy_output (output_dir filename : string) (source : Value)
  : list CopyOp :=
  match source with
  | OList outputs =>
      (fix shards (counter : nat) (outs : list Value) : list CopyOp :=
         match outs with
         | [] => []
         | o :: rest =>
             copy_output output_dir
               (filename +:+ "-shard-" +:+ pretty counter) o
             ++ shards (S counter) rest
         end) 0%nat outputs
  | OFile out =>
      copy_str output_dir filename (location out)
      ++ flat_map (fun sec => copy_str output_dir filename (location sec))
           (secondary_files out)
  | OStr s => copy_str output_dir filename s
  | OOther _ => []
  end.

(** The loop of [copy_sharded_outputs] from index [counter] on. *)
Fixpoint copy_shards_from (output_dir filename : string) (counter : nat)
    (outputs : list Value) : list CopyOp :=
  match outputs with
  | [] => []
  | o :: rest =>
      copy_output output_dir (filename +:+ "-shard-" +:+ pretty counter) o
      ++ copy_shards_from output_dir filename (S counter) rest
  end.

Definition copy_sharded_outputs (output_dir filename : string)
    (outputs : list Value) : list CopyOp :=
  copy_shards_from output_dir filename 0 outputs.

Definition copy_cromwell_output (output_dir filename : string)
    (out : CromwellFile) : list CopyOp :=
  copy_output output_dir filename (OStr (location out))
  ++ flat_map (fun sec => copy_output output_dir filename (OStr (location sec)))
       (secondary_files out).

Lemma copy_output_list output_dir filename outputs :
  copy_output output_dir filename (OList outputs)
  = copy_sharded_outputs output_dir filename outputs.
Proof.
  unfold copy_sharded_outputs. simpl. generalize 0%nat.
  induction outputs as [|o rest IH]; intros n; simpl; [done|].
  by rewrite IH.
Qed.

Lemma copy_output_file output_dir filename out :
  copy_output output_dir filename (OFile out)
  = copy_cromwell_output output_dir filename out.
Proof. reflexivity. Qed.

End Staging.

(** ** Results of calls *)

(** A call to a collaborator either returns a value or raises. *)
Inductive result (A : Type) :=
| Ok (a : A)
| Raise (msg : string).

Arguments Ok {A} a.
Arguments Raise {A} msg.

(** ** The local-process engine: [janis_assistant/engines/shell/main.py] *)

Module Shell.

(** The log file object [logfp]: what has been written but not yet flushed,
    and what has been flushed and fsynced, newest line first. *)
Record LogFile := mkLogFile {
  closed : bool;
  buffered : list string;
  durable : list string
}.

Definition write (data : string) (fp : LogFile) : LogFile :=
  mkLogFile (closed fp) (data :: buffered fp) (durable fp).

(** [logfp.flush(); os.fsync(logfp.fileno())] *)
Definition flush_fsync (fp : LogFile) : LogFile :=
  mkLogFile (closed fp) [] (buffered fp ++ durable fp).

(** One iteration of a [for c in iter(stream.readline, "b")] loop as the
    watcher sees it: whether [should_terminate] has been raised by then, the
    line read, decoded ([None] when the bytes are not UTF-8, so that
    [decode] raises), what [process.poll()] answers, and the clock, in
    microseconds. *)
Record Read := mkRead {
  r_stop : bool;
  r_line : option string;
  r_poll : option Z;
  r_now : Z
}.

(** A process transcript: the reads of both streams while data or waiting
    goes on; once a list is used up the stream is at end of file
    ([readline] gives [b""]) and the process has exited with [t_rc]. *)
Record Transcript := mkTranscript {
  t_stdout : list Read;
  t_stderr : list Read;
  t_rc : Z
}.

Definition error_keywords : list string := ["error"; "fail"; "exception"].

(** [for keyword in self.error_keywords: if keyword in line.lower(): ...] *)
Definition has_keyword (line : string) : bool :=
  existsb (fun keyword => PyStr.contains keyword (PyStr.lower line)) error_keywords.

(** [(now - last_write).total_seconds() > 5] *)
Definition flush_due (now last_write : Z) : bool := (5000000 <? now - last_write)%Z.

Inductive LoopExit :=
| Broke
| Stopped
| Faulted (msg : string).

Inductive RunEnd :=
| Exited (st : TaskStatus.t)
| Quiet
| Fault (msg : string).

Section Logger.

(** [json.loads] and the parsed payloads. *)
Variable Json : Type.
Variable json_loads : string -> option Json.
Variable empty_dict : Json.

Record ShellLogger := mkLogger {
  sid : string;
  should_terminate : bool;
  rc : option Z;
  outputs : option Json;
  last_write : Z;
  logfp : option LogFile;
  exit_function : bool
}.

Definition set_stop (lg : ShellLogger) : ShellLogger :=
  mkLogger (sid lg) true (rc lg) (outputs lg) (last_write lg) (logfp lg)
    (exit_function lg).

Definition set_rc (v : option Z) (lg : ShellLogger) : ShellLogger :=
  mkLogger (sid lg) (should_terminate lg) v (outputs lg) (last_write lg)
    (logfp lg) (exit_function lg).

Definition set_outputs (v : option Json) (lg : ShellLogger) : ShellLogger :=
  mkLogger (sid lg) (should_terminate lg) (rc lg) v (last_write lg) (logfp lg)
    (exit_function lg).

Definition set_log (t : Z) (fp : option LogFile) (lg : ShellLogger) : ShellLogger :=
  mkLogger (sid lg) (should_terminate lg) (rc lg) (outputs lg) t fp
    (exit_function lg).

(** Lines 64-71: append the line, and flush when more than five seconds
    have gone by since the last flush. *)
Definition log_line (now : Z) (line : string) (lg : ShellLogger) : ShellLogger :=
  let should_write := flush_due now (last_write lg) in
  match logfp lg with
  | Some fp =>
      if closed fp then lg
      else
        let fp1 := write (line +:+ PyStr.newline) fp in
        if should_write then set_log now (Some (flush_fsync fp1)) lg
        else set_log (last_write lg) (Some fp1) lg
  | None => lg
  end.

(** The standard-output loop. *)
Fixpoint stdout_loop (final_rc : Z) (reads : list Read) (lg : ShellLogger)
  : ShellLogger * LoopExit :=
  match reads with
  | [] =>
      if should_terminate lg then (lg, Stopped)
      else
        let lg1 := match json_loads "" with
                   | Some j => set_outputs (Some j) lg
                   | None => lg
                   end in
        (set_rc (Some final_rc) lg1, Broke)
  | r :: rest =>
      if should_terminate lg || r_stop r then (set_stop lg, Stopped)
      else
        match r_line r with
        | None => (lg, Faulted "UnicodeDecodeError")
        | Some c =>
            let line := PyStr.rstrip c in
            let lg1 := match json_loads line with
                       | Some j => set_outputs (Some j) lg
                       | None => lg
                       end in
            match (if PyStr.truthy line then None else r_poll r) with
            | Some code => (set_rc (Some code) lg1, Broke)
            | None => stdout_loop final_rc rest (log_line (r_now r) line lg1)
            end
        end
  end.

(** The standard-error loop, carrying [has_error]. *)
Fixpoint stderr_loop (final_rc : Z) (reads : list Read) (has_error : bool)
    (lg : ShellLogger) : ShellLogger * bool * LoopExit :=
  match reads with
  | [] =>
      if should_terminate lg then (lg, has_error, Stopped)
      else (set_rc (Some final_rc) lg, has_error, Broke)
  | r :: rest =>
      if should_terminate lg || r_stop r then (set_stop lg, has_error, Stopped)
      else
        match r_line r with
        | None => (lg, has_error, Faulted "UnicodeDecodeError")
        | Some c =>
            let line := PyStr.rstrip c in
            if PyStr.truthy line then
              stderr_loop final_rc rest (has_error || has_keyword line) lg
            else
              match r_poll r with
              | Some code => (set_rc (Some code) lg, has_error, Broke)
              | None => stderr_loop final_rc rest has_error lg
              end
        end
  end.

(** [ProcessLogger.terminate], which [ShellLogger] inherits from its base
    class in [janis_assistant.utils]. *)
Variable terminate : ShellLogger -> ShellLogger.

(** Modelled from the spec: [ProcessLogger.terminate], the one call that
    [run] makes between computing the status and invoking the exit callback.
    The spec has the supervisor, once both streams are drained, compute the
    final status, flush/fsync the log, and fire the exit callback, and gives
    it a cooperative cancellation flag that is checked at each line-read
    boundary.  Terminating flushes and fsyncs the log file, when there is
    one and it is open, and raises the flag. *)
Definition terminate_flush (lg : ShellLogger) : ShellLogger :=
  set_stop
    match logfp lg with
    | Some fp =>
        if closed fp then lg
        else set_log (last_write lg) (Some (flush_fsync fp)) lg
    | None => lg
    end.

(** A stand-in for [terminate] that does the least it can do, raising the
    flag and nothing more; it serves where what is shown does not depend on
    what [terminate] does. *)
Definition terminate_flag (lg : ShellLogger) : ShellLogger := set_stop lg.

(** Lines 98-103: the flush of the error path. *)
Definition flush_on_error (lg : ShellLogger) : result ShellLogger :=
  match logfp lg with
  | None => Raise "'NoneType' object has no attribute 'flush'"
  | Some fp =>
      if closed fp then Raise "I/O operation on closed file."
      else Ok (set_log (last_write lg) (Some (flush_fsync fp)) lg)
  end.

(** [ShellLogger.run]: the logger as it is when the method ends (when the
    exit callback is invoked, if it is), and how it ends. *)
Definition run (t : Transcript) (lg0 : ShellLogger) : ShellLogger * RunEnd :=
  let lg := set_outputs (Some empty_dict) lg0 in
  match stdout_loop (t_rc t) (t_stdout t) lg with
  | (lg1, Stopped) => (lg1, Quiet)
  | (lg1, Faulted msg) => (lg1, Fault msg)
  | (lg1, Broke) =>
      match stderr_loop (t_rc t) (t_stderr t) false lg1 with
      | (lg2, _, Stopped) => (lg2, Quiet)
      | (lg2, _, Faulted msg) => (lg2, Fault msg)
      | (lg2, has_error, Broke) =>
          match (if has_error then flush_on_error lg2 else Ok lg2) with
          | Raise msg => (lg2, Fault msg)
          | Ok lg3 =>
              let lg4 := terminate lg3 in
              if exit_function lg4 then
                (lg4, Exited (if has_error then TaskStatus.FAILED
                              else TaskStatus.COMPLETED))
              else (lg4, Quiet)
          end
      end
  end.

(** The stderr lines the watcher looks at: those read before the loop
    leaves, which it does at the first empty line for which [poll] reports
    that the process has exited. *)
Fixpoint examined (reads : list Read) : list string :=
  match reads with
  | [] => []
  | r :: rest =>
      match r_line r with
      | None => []
      | Some c =>
          let line := PyStr.rstrip c in
          if PyStr.truthy line then line :: examined rest
          else match r_poll r with
               | Some _ => []
               | None => examined rest
               end
      end
  end.

(** *** [Shell]: the engine's task record *)

Inductive MetaVal :=
| MStatus (st : TaskStatus.t)
| MTime (t : Z)
| MOutputs (o : option Json)
| MJobs (ids : list string).

(** [self.taskmeta], a dictionary keyed by strings. *)
Record ShellState := mkShell {
  taskmeta : gmap string MetaVal
}.

Definition stop_engine (self : ShellState) : ShellState := self.

(** [self.taskmeta.get("status", TaskStatus.PROCESSING)]; the entry only
    ever holds a status. *)
Definition poll_task (self : ShellState) (identifier : string) : TaskStatus.t :=
  match taskmeta self !! "status" with
  | Some (MStatus st) => st
  | _ => TaskStatus.PROCESSING
  end.

Definition terminate_task (self : ShellState) (identifier : string)
  : ShellState * TaskStatus.t :=
  let self1 := stop_engine self in
  (mkShell (<["status" := MStatus TaskStatus.ABORTED]> (taskmeta self1)),
   TaskStatus.ABORTED).

(** [task_did_exit], up to the progress callbacks; [now] is
    [DateUtil.now()]. *)
Definition task_did_exit (now : Z) (self : ShellState) (logger : ShellLogger)
    (st : TaskStatus.t) : ShellState :=
  mkShell (<["outputs" := MOutputs (outputs logger)]>
             (<["finish" := MTime now]>
                (<["status" := MStatus st]> (taskmeta self)))).

(** *** Facts about the watcher *)

Lemma stderr_loop_has_error final_rc reads has_error lg lg' has_error' :
  stderr_loop final_rc reads has_error lg = (lg', has_error', Broke) ->
  has_error' = has_error || existsb has_keyword (examined reads).
Proof.
  revert has_error lg.
  induction reads as [|r rest IH]; intros has_error lg; simpl.
  - destruct (should_terminate lg); intros [= <- <-]. by rewrite orb_false_r.
  - destruct (should_terminate lg || r_stop r); [done|].
    destruct (r_line r) as [c|]; [|done].
    destruct (PyStr.truthy (PyStr.rstrip c)); simpl.
    + intros H. apply IH in H. by rewrite H, orb_assoc.
    + destruct (r_poll r) as [code|].
      * intros [= <- <-]. by rewrite orb_false_r.
      * apply IH.
Qed.

(** The status handed to the exit callback is decided by the stderr lines
    the loop examined, whatever standard output held. *)
Lemma run_exit_status t lg lg' st :
  run t lg = (lg', Exited st) ->
  st = if existsb has_keyword (examined (t_stderr t))
       then TaskStatus.FAILED else TaskStatus.COMPLETED.
Proof.
  unfold run.
  destruct (stdout_loop _ _ _) as [lg1 []]; try done.
  destruct (stderr_loop _ _ _ _) as [[lg2 he] []] eqn:Herr; try done.
  apply stderr_loop_has_error in Herr. simpl in Herr. subst he.
  destruct (existsb has_keyword (examined (t_stderr t))).
  - destruct (flush_on_error lg2) as [lg3|]; [|done].
    destruct (exit_function (terminate lg3)); [|done]. by intros [= _ <-].
  - destruct (exit_function (terminate lg2)); [|done]. by intros [= _ <-].
Qed.

(** On the failed outcome everything written has been flushed by the time
    [terminate] and the exit callback are called. *)
Lemma run_failed_flushed t lg lg' :
  run t lg = (lg', Exited TaskStatus.FAILED) ->
  exists lg3 fp,
    lg' = terminate lg3 /\ logfp lg3 = Some fp /\ buffered fp = [].
Proof.
  unfold run.
  destruct (stdout_loop _ _ _) as [lg1 []]; try done.
  destruct (stderr_loop _ _ _ _) as [[lg2 he] []]; try done.
  destruct he.
  - unfold flush_on_error. destruct (logfp lg2) as [fp|]; [|done].
    destruct (closed fp); [done|].
    destruct (exit_function _); [|done].
    intros [= <-]. eexists _, _. split; [done|]. simpl. eauto.
  - by destruct (exit_function _).
Qed.

(** On the completed outcome [run] itself does not touch the log file
    after the two loops: the logger handed to the exit callback is what
    [terminate] makes of the logger the stderr loop left. *)
Lemma run_completed_log t lg lg' :
  run t lg = (lg', Exited TaskStatus.COMPLETED) ->
  exists lg1 lg2,
    stdout_loop (t_rc t) (t_stdout t) (set_outputs (Some empty_dict) lg)
      = (lg1, Broke)
    /\ stderr_loop (t_rc t) (t_stderr t) false lg1 = (lg2, false, Broke)
    /\ lg' = terminate lg2.
Proof.
  unfold run.
  destruct (stdout_loop _ _ _) as [lg1 []] eqn:Hout; try done.
  destruct (stderr_loop _ _ _ _) as [[lg2 he] []] eqn:Herr; try done.
  destruct he.
  - destruct (flush_on_error lg2); [|done]. by destruct (exit_function _).
  - destruct (exit_function _); [|done].
    intros [= <-]. by exists lg1, lg2.
Qed.

Lemma stderr_loop_log final_rc reads has_error lg lg' has_error' ex :
  stderr_loop final_rc reads has_error lg = (lg', has_error', ex) ->
  logfp lg' = logfp lg.
Proof.
  revert has_error lg.
  induction reads as [|r rest IH]; intros has_error lg; simpl.
  - destruct (should_terminate lg); by intros [= <- _ _].
  - destruct (should_terminate lg || r_stop r); [by intros [= <- _ _]|].
    destruct (r_line r) as [c|]; [|by intros [= <- _ _]].
    destruct (PyStr.truthy (PyStr.rstrip c)); [apply IH|].
    destruct (r_poll r); [by intros [= <- _ _]|apply IH].
Qed.

(** If the inherited [terminate] leaves the log file alone, the log file
    that the exit callback finds on the completed outcome is the one the
    standard-output loop left: no flush follows the last timed one. *)
Lemma run_completed_no_final_flush t lg lg' :
  (forall l, logfp (terminate l) = logfp l) ->
  run t lg = (lg', Exited TaskStatus.COMPLETED) ->
  exists lg1,
    stdout_loop (t_rc t) (t_stdout t) (set_outputs (Some empty_dict) lg)
      = (lg1, Broke)
    /\ logfp lg' = logfp lg1.
Proof.
  intros Hterm Hrun.
  destruct (run_completed_log t lg lg' Hrun) as (lg1 & lg2 & Hout & Herr & ->).
  exists lg1. split; [done|].
  rewrite Hterm. by apply stderr_loop_log in Herr.
Qed.

(** C5, as the engine has it: [terminate_task] settles the task on
    aborted whatever its status was.  It returns aborted, the stored status
    is aborted afterwards, and terminating a second time changes nothing
    more. *)
Theorem terminate_task_forces_aborted (self : ShellState) (identifier : string) :
  (terminate_task self identifier).2 = TaskStatus.ABORTED
  /\ poll_task (terminate_task self identifier).1 identifier = TaskStatus.ABORTED
  /\ terminate_task (terminate_task self identifier).1 identifier
     = terminate_task self identifier.
Proof.
  unfold terminate_task, poll_task, stop_engine. simpl.
  split; [done|]. split.
  - by rewrite lookup_insert_eq.
  - by rewrite insert_insert_eq.
Qed.

(** *** What the standard-output loop logs *)

(** The lines the standard-output loop appends to the log file, each with
    the clock at that moment: every line read until the loop leaves, the
    empty lines read while the process is alive included. *)
Fixpoint logged (reads : list Read) : list (Z * string) :=
  match reads with
  | [] => []
  | r :: rest =>
      if r_stop r then []
      else
        match r_line r with
        | None => []
        | Some c =>
            let line := PyStr.rstrip c in
            match (if PyStr.truthy line then None else r_poll r) with
            | Some _ => []
            | None => (r_now r, line) :: logged rest
            end
        end
  end.

(** A loop over these reads leaves by [break]: no stop request is seen and
    every line decodes, up to the first empty line at which the process
    has exited or to the end of the stream. *)
Fixpoint drains (reads : list Read) : bool :=
  match reads with
  | [] => true
  | r :: rest =>
      negb (r_stop r)
      && match r_line r with
         | None => false
         | Some c =>
             match (if PyStr.truthy (PyStr.rstrip c) then None else r_poll r) with
             | Some _ => true
             | None => drains rest
             end
         end
  end.

(** The log file is there and open. *)
Definition log_open (lg : ShellLogger) : bool :=
  match logfp lg with
  | Some fp => negb (closed fp)
  | None => false
  end.

Lemma log_line_frame now line lg :
  should_terminate (log_line now line lg) = should_terminate lg
  /\ exit_function (log_line now line lg) = exit_function lg
  /\ outputs (log_line now line lg) = outputs lg
  /\ log_open (log_line now line lg) = log_open lg.
Proof.
  unfold log_line, log_open.
  destruct (logfp lg) as [fp|] eqn:Hfp; [|by rewrite Hfp].
  destruct (closed fp) eqn:Hc; [by rewrite Hfp, Hc|].
  destruct (flush_due now (last_write lg)); simpl; by rewrite Hc.
Qed.

Lemma log_line_open now line lg fp :
  logfp lg = Some fp -> closed fp = false ->
  exists fp',
    logfp (log_line now line lg) = Some fp'
    /\ closed fp' = false
    /\ buffered fp' ++ durable fp'
       = (line +:+ PyStr.newline) :: buffered fp ++ durable fp
    /\ (exists more, durable fp' = more ++ durable fp)
    /\ (buffered fp' = []
        \/ (now - last_write (log_line now line lg) <= 5000000)%Z).
Proof.
  intros Hfp Hc. unfold log_line. rewrite Hfp, Hc.
  destruct (flush_due now (last_write lg)) eqn:Hdue; simpl.
  - eexists. split; [done|]. split; [done|]. split; [done|].
    split; [by eexists (_ :: _)|by left].
  - eexists. split; [done|]. split; [done|]. split; [done|].
    split; [by exists []|]. right.
    unfold flush_due in Hdue. apply Z.ltb_ge in Hdue. lia.
Qed.

(** The loop's exit and what it leaves alone. *)
Lemma stdout_loop_exit final_rc reads lg :
  should_terminate lg = false ->
  ((stdout_loop final_rc reads lg).2 = Broke <-> drains reads = true)
  /\ ((stdout_loop final_rc reads lg).2 = Broke ->
      should_terminate (stdout_loop final_rc reads lg).1 = false)
  /\ exit_function (stdout_loop final_rc reads lg).1 = exit_function lg
  /\ log_open (stdout_loop final_rc reads lg).1 = log_open lg.
Proof.
  revert lg. induction reads as [|r rest IH]; intros lg Hst; simpl.
  - rewrite Hst. simpl. by destruct (json_loads "").
  - rewrite Hst. simpl. destruct (r_stop r); simpl; [done|].
    destruct (r_line r) as [c|]; simpl; [|done].
    set (lg1 := match json_loads (PyStr.rstrip c) with
                | Some j => set_outputs (Some j) lg
                | None => lg
                end).
    assert (should_terminate lg1 = false /\ exit_function lg1 = exit_function lg
            /\ log_open lg1 = log_open lg) as (H1 & H2 & H3).
    { subst lg1. by destruct (json_loads _). }
    destruct (if PyStr.truthy (PyStr.rstrip c) then None else r_poll r) as [code|];
      [done|].
    destruct (log_line_frame (r_now r) (PyStr.rstrip c) lg1) as (F1 & F2 & F3 & F4).
    destruct (IH (log_line (r_now r) (PyStr.rstrip c) lg1)) as (I1 & I3 & I4 & I5);
      [congruence|].
    split; [done|]. split; [done|]. split; congruence.
Qed.

Lemma stderr_loop_exit final_rc reads he lg :
  should_terminate lg = false ->
  ((stderr_loop final_rc reads he lg).2 = Broke <-> drains reads = true)
  /\ exit_function (stderr_loop final_rc reads he lg).1.1 = exit_function lg
  /\ logfp (stderr_loop final_rc reads he lg).1.1 = logfp lg
  /\ last_write (stderr_loop final_rc reads he lg).1.1 = last_write lg
  /\ outputs (stderr_loop final_rc reads he lg).1.1 = outputs lg.
Proof.
  revert he lg. induction reads as [|r rest IH]; intros he lg Hst; simpl.
  - by rewrite Hst.
  - rewrite Hst. simpl. destruct (r_stop r); simpl; [done|].
    destruct (r_line r) as [c|]; simpl; [|done].
    destruct (PyStr.truthy (PyStr.rstrip c)); [by apply IH|].
    destruct (r_poll r) as [code|]; [done|by apply IH].
Qed.

Lemma stdout_loop_stopped final_rc reads lg :
  should_terminate lg = true -> (stdout_loop final_rc reads lg).2 = Stopped.
Proof. intros Hst. destruct reads; simpl; by rewrite Hst. Qed.

Lemma stdout_loop_nothing_logged final_rc reads lg :
  should_terminate lg = false ->
  logged reads = [] ->
  logfp (stdout_loop final_rc reads lg).1 = logfp lg
  /\ last_write (stdout_loop final_rc reads lg).1 = last_write lg.
Proof.
  intros Hst. destruct reads as [|r rest]; simpl.
  - rewrite Hst. by destruct (json_loads "").
  - rewrite Hst. simpl. destruct (r_stop r); simpl; [done|].
    destruct (r_line r) as [c|]; simpl; [|done].
    destruct (if PyStr.truthy (PyStr.rstrip c) then None else r_poll r);
      [|done].
    intros _. by destruct (json_loads _).
Qed.

(** What the standard-output loop leaves in an open log file. *)
Lemma stdout_loop_log final_rc reads lg fp :
  should_terminate lg = false ->
  logfp lg = Some fp ->
  closed fp = false ->
  exists fp',
    logfp (stdout_loop final_rc reads lg).1 = Some fp'
    /\ closed fp' = false
    /\ buffered fp' ++ durable fp'
       = reverse (map (fun tl => tl.2 +:+ PyStr.newline) (logged reads))
         ++ buffered fp ++ durable fp
    /\ exists more, durable fp' = more ++ durable fp.
Proof.
  revert lg fp. induction reads as [|r rest IH]; intros lg fp Hst Hfp Hc; simpl.
  - rewrite Hst. exists fp. split; [by destruct (json_loads "")|].
    split; [done|]. split; [done|]. by exists [].
  - rewrite Hst. simpl. destruct (r_stop r); simpl.
    { exists fp. split; [done|]. split; [done|]. split; [done|]. by exists []. }
    destruct (r_line r) as [c|]; simpl.
    2: { exists fp. split; [done|]. split; [done|]. split; [done|]. by exists []. }
    set (lg1 := match json_loads (PyStr.rstrip c) with
                | Some j => set_outputs (Some j) lg
                | None => lg
                end).
    assert (should_terminate lg1 = false /\ logfp lg1 = Some fp) as [H1 H2].
    { subst lg1. by destruct (json_loads _). }
    destruct (if PyStr.truthy (PyStr.rstrip c) then None else r_poll r) as [code|].
    { simpl. exists fp. split; [done|]. split; [done|]. split; [done|]. by exists []. }
    destruct (log_line_open (r_now r) (PyStr.rstrip c) lg1 fp H2 Hc)
      as (fp2 & L1 & L2 & L3 & [more2 L4] & _).
    destruct (log_line_frame (r_now r) (PyStr.rstrip c) lg1) as (F1 & _).
    destruct (IH (log_line (r_now r) (PyStr.rstrip c) lg1) fp2)
      as (fp' & I1 & I2 & I3 & [more I4]); [congruence|done..|].
    exists fp'. split; [done|]. split; [done|]. split.
    + rewrite I3, L3. simpl. by rewrite reverse_cons, <- app_assoc.
    + exists (more ++ more2). by rewrite I4, L4, app_assoc.
Qed.

(** X1: the log file keeps every line.  With the log file open, whatever
    way the standard-output loop leaves, the file (write buffer and disk
    together) holds the lines it held before and, after them, one entry
    per line the loop took in, in the order read; what was on disk before
    is still on disk. *)
Theorem log_keeps_every_line final_rc reads lg fp :
  should_terminate lg = false ->
  logfp lg = Some fp ->
  closed fp = false ->
  exists fp',
    logfp (stdout_loop final_rc reads lg).1 = Some fp'
    /\ closed fp' = false
    /\ buffered fp' ++ durable fp'
       = reverse (map (fun tl => tl.2 +:+ PyStr.newline) (logged reads))
         ++ buffered fp ++ durable fp
    /\ exists more, durable fp' = more ++ durable fp.
Proof. apply stdout_loop_log. Qed.


(** X2: the timed flush bounds what is unflushed.  With the log file open,
    when the standard-output loop leaves, either the write buffer is empty
    or the last line was appended no more than five seconds after the last
    flush. *)
Theorem unflushed_lines_are_recent final_rc reads lg fp t line :
  should_terminate lg = false ->
  logfp lg = Some fp ->
  closed fp = false ->
  last (logged reads) = Some (t, line) ->
  exists fp',
    logfp (stdout_loop final_rc reads lg).1 = Some fp'
    /\ (buffered fp' = []
        \/ (t - last_write (stdout_loop final_rc reads lg).1 <= 5000000)%Z).
Proof.
  revert lg fp. induction reads as [|r rest IH]; intros lg fp Hst Hfp Hc; simpl;
    [done|].
  rewrite Hst. simpl. destruct (r_stop r); simpl; [done|].
  destruct (r_line r) as [c|]; simpl; [|done].
  set (lg1 := match json_loads (PyStr.rstrip c) with
              | Some j => set_outputs (Some j) lg
              | None => lg
              end).
  assert (should_terminate lg1 = false /\ logfp lg1 = Some fp) as [H1 H2].
  { subst lg1. by destruct (json_loads _). }
  destruct (if PyStr.truthy (PyStr.rstrip c) then None else r_poll r) as [code|];
    [done|].
  destruct (log_line_open (r_now r) (PyStr.rstrip c) lg1 fp H2 Hc)
    as (fp2 & L1 & L2 & _ & _ & L5).
  destruct (log_line_frame (r_now r) (PyStr.rstrip c) lg1) as (F1 & _).
  destruct (logged rest) as [|tl more] eqn:Hrest.
  - intros [= <- <-].
    destruct (stdout_loop_nothing_logged final_rc rest
                (log_line (r_now r) (PyStr.rstrip c) lg1)) as [N1 N2];
      [congruence|done|].
    exists fp2. rewrite N1, N2. done.
  - rewrite last_cons_cons. intros Hlast.
    apply (IH (log_line (r_now r) (PyStr.rstrip c) lg1) fp2); [congruence|done..].
Qed.

(** The parsed payload the loop ends with. *)
Lemma stdout_loop_outputs final_rc reads lg :
  json_loads "" = None ->
  should_terminate lg = false ->
  outputs (stdout_loop final_rc reads lg).1
  = match last (omap (fun tl => json_loads tl.2) (logged reads)) with
    | Some j => Some j
    | None => outputs lg
    end.
Proof.
  intros Hempty. revert lg. induction reads as [|r rest IH]; intros lg Hst; simpl.
  - by rewrite Hst, Hempty.
  - rewrite Hst. simpl. destruct (r_stop r); simpl; [done|].
    destruct (r_line r) as [c|]; simpl; [|done].
    set (lg1 := match json_loads (PyStr.rstrip c) with
                | Some j => set_outputs (Some j) lg
                | None => lg
                end).
    assert (should_terminate lg1 = false) as H1
      by (subst lg1; destruct (json_loads (PyStr.rstrip c)); exact Hst).
    destruct (log_line_frame (r_now r) (PyStr.rstrip c) lg1) as (F1 & _ & F3 & _).
    destruct (PyStr.truthy (PyStr.rstrip c)) eqn:Htr.
    + rewrite IH by congruence. rewrite F3. subst lg1. simpl. unfold omap.
      destruct (json_loads (PyStr.rstrip c)) as [j|]; simpl; [|reflexivity].
      destruct (list_omap _ _ _ (logged rest)) as [|x l] eqn:Hl; [reflexivity|].
      rewrite last_cons_cons.
      destruct (last (x :: l)) eqn:Hlast; [reflexivity|].
      by apply last_None in Hlast.
    + assert (PyStr.rstrip c = "") as Hblank by (by destruct (PyStr.rstrip c)).
      destruct (r_poll r) as [code|]; simpl.
      * subst lg1. by rewrite Hblank, Hempty.
      * rewrite IH by congruence. rewrite F3. subst lg1. simpl. unfold omap.
        by rewrite Hblank, Hempty.
Qed.

(** X3: the last successful parse wins.  When a run ends with the exit
    callback, the payload it hands over is the last line of standard
    output that parsed as JSON, and the empty dictionary when none did:
    nothing is merged, and standard error plays no part. *)
Theorem last_parse_wins t lg lg' st :
  json_loads "" = None ->
  (forall l, outputs (terminate l) = outputs l) ->
  run t lg = (lg', Exited st) ->
  outputs lg'
  = Some (default empty_dict
            (last (omap (fun tl => json_loads tl.2) (logged (t_stdout t))))).
Proof.
  intros Hempty Hterm. unfold run.
  destruct (should_terminate lg) eqn:Hst.
  { rewrite (surjective_pairing (stdout_loop _ _ _)).
    by rewrite stdout_loop_stopped. }
  pose proof (stdout_loop_outputs (t_rc t) (t_stdout t)
                (set_outputs (Some empty_dict) lg) Hempty Hst) as Hout.
  destruct (stdout_loop_exit (t_rc t) (t_stdout t)
              (set_outputs (Some empty_dict) lg) Hst) as (_ & Hlive & _).
  destruct (stdout_loop _ _ _) as [lg1 []]; try done. simpl in *.
  destruct (stderr_loop_exit (t_rc t) (t_stderr t) false lg1 (Hlive eq_refl))
    as (_ & _ & _ & _ & Herr).
  destruct (stderr_loop _ _ _ _) as [[lg2 he] []]; try done. simpl in *.
  assert (outputs lg2
          = Some (default empty_dict
                    (last (omap (fun tl => json_loads tl.2) (logged (t_stdout t))))))
    as Hlg2.
  { rewrite Herr, Hout. by destruct (last _). }
  destruct he.
  - unfold flush_on_error. destruct (logfp lg2) as [fp|]; [|done].
    destruct (closed fp); [done|].
    destruct (exit_function _); [|done]. intros [= <- _]. by rewrite Hterm.
  - destruct (exit_function _); [|done]. intros [= <- _]. by rewrite Hterm.
Qed.

(** X4: standard error is never logged.  However the standard-error loop
    leaves, the log file, the time of the last flush and the parsed payload
    are as they were when it started. *)
Theorem stderr_is_not_logged final_rc reads has_error lg :
  logfp (stderr_loop final_rc reads has_error lg).1.1 = logfp lg
  /\ last_write (stderr_loop final_rc reads has_error lg).1.1 = last_write lg
  /\ outputs (stderr_loop final_rc reads has_error lg).1.1 = outputs lg.
Proof.
  revert has_error lg.
  induction reads as [|r rest IH]; intros has_error lg; simpl.
  - by destruct (should_terminate lg).
  - destruct (should_terminate lg || r_stop r); [done|].
    destruct (r_line r) as [c|]; [|done].
    destruct (PyStr.truthy (PyStr.rstrip c)); [apply IH|].
    destruct (r_poll r); [done|apply IH].
Qed.

Lemma flush_on_error_open lg :
  match flush_on_error lg with
  | Ok lg3 => log_open lg = true /\ exit_function lg3 = exit_function lg
  | Raise _ => log_open lg = false
  end.
Proof.
  unfold flush_on_error, log_open. destruct (logfp lg) as [fp|]; [|done].
  by destruct (closed fp).
Qed.

(** X5: when the exit callback fires.  Provided the inherited [terminate]
    leaves the callback in place, [run] invokes the exit callback exactly
    when no stop has been requested, both loops leave by [break], a
    callback is set, and, if an error keyword was seen, the log file is
    there and open.  In particular a failing run whose log file is missing
    or closed raises at the flush instead of reporting the failure. *)
Theorem exit_callback_fires_iff t lg :
  (forall l, exit_function (terminate l) = exit_function l) ->
  (exists lg' st, run t lg = (lg', Exited st))
  <-> should_terminate lg = false
      /\ drains (t_stdout t) = true
      /\ drains (t_stderr t) = true
      /\ exit_function lg = true
      /\ (existsb has_keyword (examined (t_stderr t)) = true -> log_open lg = true).
Proof.
  intros Hterm. unfold run.
  destruct (should_terminate lg) eqn:Hst.
  { rewrite (surjective_pairing (stdout_loop _ _ _)).
    rewrite stdout_loop_stopped by done. split.
    - by intros (? & ? & ?).
    - by intros (? & _). }
  destruct (stdout_loop_exit (t_rc t) (t_stdout t)
              (set_outputs (Some empty_dict) lg) Hst)
    as (Hbroke & Hlive & Hexit & Hopen).
  change (log_open (set_outputs (Some empty_dict) lg)) with (log_open lg) in Hopen.
  change (exit_function (set_outputs (Some empty_dict) lg))
    with (exit_function lg) in Hexit.
  destruct (stdout_loop _ _ _) as [lg1 ex1]. simpl in Hbroke, Hlive, Hexit, Hopen.
  destruct ex1;
    [|split; [by intros (? & ? & ?)|];
      intros (_ & Hd & _); by apply Hbroke in Hd..].
  destruct (stderr_loop_exit (t_rc t) (t_stderr t) false lg1 (Hlive eq_refl))
    as (Hbroke2 & Hexit2 & Hlog2 & _).
  pose proof (stderr_loop_has_error (t_rc t) (t_stderr t) false lg1) as Hhe.
  destruct (stderr_loop _ _ _ _) as [[lg2 he] ex2].
  simpl in Hbroke2, Hexit2, Hlog2.
  destruct ex2;
    [|split; [by intros (? & ? & ?)|];
      intros (_ & _ & Hd & _); by apply Hbroke2 in Hd..].
  specialize (Hhe lg2 he eq_refl). simpl in Hhe. subst he.
  assert (log_open lg2 = log_open lg) as Hopen2.
  { rewrite <- Hopen. unfold log_open. by rewrite Hlog2. }
  assert (exit_function lg2 = exit_function lg) as Hexit3 by congruence.
  assert (drains (t_stdout t) = true) as Hd1 by by apply Hbroke.
  assert (drains (t_stderr t) = true) as Hd2 by by apply Hbroke2.
  destruct (existsb has_keyword (examined (t_stderr t))).
  - pose proof (flush_on_error_open lg2) as Hflush.
    destruct (flush_on_error lg2) as [lg3|msg].
    + destruct Hflush as [Ho He]. rewrite Hterm, He, Hexit3.
      destruct (exit_function lg).
      * split; [|by eauto]. intros _. repeat split; try done. congruence.
      * split; [by intros (? & ? & ?)|]. by intros (_ & _ & _ & ? & _).
    + split; [by intros (? & ? & ?)|]. intros (_ & _ & _ & _ & Hl).
      specialize (Hl eq_refl). congruence.
  - rewrite Hterm, Hexit3. destruct (exit_function lg).
    + split; [|by eauto]. intros _. repeat split; done.
    + split; [by intros (? & ? & ?)|]. by intros (_ & _ & _ & ? & _).
Qed.

(** X6: from the watcher to the engine.  After the exit callback of a run
    has been handed to [task_did_exit], [poll_task] answers failed when a
    stderr line the watcher examined held an error keyword and completed
    otherwise, whatever the task record held before. *)
Theorem poll_after_exit t lg lg' st now (self : ShellState) identifier :
  run t lg = (lg', Exited st) ->
  poll_task (task_did_exit now self lg' st) identifier = st
  /\ st = (if existsb has_keyword (examined (t_stderr t))
           then TaskStatus.FAILED else TaskStatus.COMPLETED).
Proof.
  intros Hrun. split; [|by apply (run_exit_status t lg lg')].
  unfold poll_task, task_did_exit. simpl.
  rewrite lookup_insert_ne by done. rewrite lookup_insert_ne by done.
  by rewrite lookup_insert_eq.
Qed.

End Logger.

Arguments MStatus {Json} st.
Arguments MTime {Json} t.
Arguments MOutputs {Json} o.
Arguments MJobs {Json} ids.

(** *** Concrete runs of the watcher *)

(** A watcher for which no line parses as JSON, with an open, empty log
    file and an exit callback. *)
Definition no_json : string -> option unit := fun _ => None.

Definition watcher0 : ShellLogger unit :=
  mkLogger unit "task" false None None 0 (Some (mkLogFile false [] [])) true.

(** A process that has exited with code 1 after writing an empty line and
    then an error message to standard error. *)
Definition blank_then_error : Transcript :=
  mkTranscript []
    [ mkRead false (Some PyStr.newline) (Some 1%Z) 0;
      mkRead false (Some ("error: boom" +:+ PyStr.newline)) (Some 1%Z) 0 ]
    1.


(** A task record that the watcher has reported completed. *)
Definition completed_task : ShellState unit :=
  task_did_exit unit 7 (mkShell unit ∅) watcher0 TaskStatus.COMPLETED.

(** C3 at a failing input: standard error holds a line with the keyword
    "error" behind an empty line; the drain stops at the empty line and the
    exit callback receives completed. *)
Theorem stderr_blank_line_ends_drain :
  (run unit no_json tt (terminate_flag unit) blank_then_error watcher0).2 = Exited TaskStatus.COMPLETED
  /\ exists r line,
       r ∈ t_stderr blank_then_error
       /\ r_line r = Some line
       /\ has_keyword line = true.
Proof.
  split; [by vm_compute|].
  eexists _, _. split; [apply list_elem_of_further, list_elem_of_here|].
  by vm_compute.
Qed.

(** C5 at a concrete input: terminating a task whose stored status is
    completed does not hand back completed and does not leave the stored
    status alone. *)
Lemma terminate_task_regresses_completed :
  poll_task unit completed_task "task" = TaskStatus.COMPLETED
  /\ ~ ((terminate_task unit completed_task "task").2
         = poll_task unit completed_task "task"
       /\ poll_task unit (terminate_task unit completed_task "task").1 "task"
         = poll_task unit completed_task "task").
Proof.
  split; [by vm_compute|].
  intros [H _]. vm_compute in H. discriminate.
Qed.


(** *** Concrete runs, continued *)

(** A parser that takes a line for JSON when it starts with a brace, and
    keeps its text. *)
Definition braces_json (line : string) : option string :=
  if String.prefix "{" line then Some line else None.

(** A process that prints a payload, a progress line six seconds later,
    a second payload, and a warning on standard error, then exits with
    code 0. *)
Definition two_payloads : Transcript :=
  mkTranscript
    [ mkRead false (Some ("{first}" +:+ PyStr.newline)) None 1000000;
      mkRead false (Some ("progress" +:+ PyStr.newline)) None 7000000;
      mkRead false (Some ("{second}" +:+ PyStr.newline)) None 8000000 ]
    [ mkRead false (Some ("warning: slow disk" +:+ PyStr.newline)) (Some 0%Z) 9000000 ]
    0.

Definition watcher1 : ShellLogger string :=
  mkLogger string "task" false None None 0 (Some (mkLogFile false [] ["old"])) true.

(** U+00A0, the no-break space, in UTF-8. *)
Definition nbsp : string :=
  String (Ascii.ascii_of_nat 194) (String (Ascii.ascii_of_nat 160) "").

(** A process that prints [abc] followed by a no-break space, and has exited
    with code 1 after writing to standard error a line that holds a no-break
    space only and then an error message. *)
Definition nbsp_lines : Transcript :=
  mkTranscript
    [ mkRead false (Some ("abc" +:+ nbsp +:+ PyStr.newline)) None 1000000 ]
    [ mkRead false (Some (nbsp +:+ PyStr.newline)) (Some 1%Z) 2000000;
      mkRead false (Some ("error: boom" +:+ PyStr.newline)) (Some 1%Z) 2000000 ]
    1.

Lemma terminate_flush_frame {Json : Type} (l : ShellLogger Json) :
  outputs Json (terminate_flush Json l) = outputs Json l
  /\ exit_function Json (terminate_flush Json l) = exit_function Json l.
Proof.
  unfold terminate_flush. destruct (logfp Json l) as [fp|]; [|done].
  by destruct (closed fp).
Qed.

(** X1 on concrete runs: after the three lines of [two_payloads] the file
    holds them, newest first, on top of the line it held before; and of the
    line of [nbsp_lines] it holds [abc], the no-break space stripped. *)
Lemma log_keeps_every_line_witness :
  (exists fp',
      logfp string (stdout_loop string braces_json 0 (t_stdout two_payloads) watcher1).1
      = Some fp'
      /\ buffered fp' ++ durable fp'
         = [ "{second}" +:+ PyStr.newline; "progress" +:+ PyStr.newline;
             "{first}" +:+ PyStr.newline; "old" ])
  /\ exists fp',
      logfp string (stdout_loop string braces_json 1 (t_stdout nbsp_lines) watcher1).1
      = Some fp'
      /\ buffered fp' ++ durable fp' = [ "abc" +:+ PyStr.newline; "old" ].
Proof.
  split.
  - destruct (log_keeps_every_line string braces_json 0 (t_stdout two_payloads)
                watcher1 (mkLogFile false [] ["old"]) eq_refl eq_refl eq_refl)
      as (fp' & H1 & _ & H3 & _).
    exists fp'. split; [exact H1|]. rewrite H3. vm_compute. reflexivity.
  - destruct (log_keeps_every_line string braces_json 1 (t_stdout nbsp_lines)
                watcher1 (mkLogFile false [] ["old"]) eq_refl eq_refl eq_refl)
      as (fp' & H1 & _ & H3 & _).
    exists fp'. split; [exact H1|]. rewrite H3. vm_compute. reflexivity.
Defined.

(** X2 on the same run: the last line was read at second 8. *)
Lemma unflushed_lines_are_recent_witness :
  exists fp',
    logfp string (stdout_loop string braces_json 0 (t_stdout two_payloads) watcher1).1
    = Some fp'
    /\ (buffered fp' = []
        \/ (8000000
            - last_write string
                (stdout_loop string braces_json 0 (t_stdout two_payloads) watcher1).1
            <= 5000000)%Z).
Proof.
  exact (unflushed_lines_are_recent string braces_json 0 (t_stdout two_payloads)
           watcher1 (mkLogFile false [] ["old"]) 8000000 "{second}"
           eq_refl eq_refl eq_refl eq_refl).
Defined.

(** A process whose one payload is followed by a no-break space. *)
Definition padded_payload : Transcript :=
  mkTranscript
    [ mkRead false (Some ("{}" +:+ nbsp +:+ PyStr.newline)) None 1000000 ]
    [] 0.

(** A parser that takes the lines with a brace at either end for JSON. *)
Definition strict_json (line : string) : option string :=
  if String.prefix "{" line && PyStr.endswith line "}" then Some line else None.

(** X3 on concrete runs: of the two payloads of [two_payloads] the second
    is handed over; and the payload of [padded_payload] is parsed without
    the no-break space that follows it, which the parser would reject. *)
Lemma last_parse_wins_witness :
  outputs string
    (run string braces_json "{}" (terminate_flush string) two_payloads watcher1).1
  = Some "{second}"
  /\ strict_json ("{}" +:+ nbsp) = None
  /\ outputs string
       (run string strict_json "none" (terminate_flush string) padded_payload
          watcher1).1
     = Some "{}".
Proof.
  split; [|split; [reflexivity|]].
  - apply (last_parse_wins string braces_json "{}" (terminate_flush string)
             two_payloads watcher1 _ TaskStatus.COMPLETED eq_refl).
    + intros l. apply terminate_flush_frame.
    + vm_compute. reflexivity.
  - apply (last_parse_wins string strict_json "none" (terminate_flush string)
             padded_payload watcher1 _ TaskStatus.COMPLETED eq_refl).
    + intros l. apply terminate_flush_frame.
    + vm_compute. reflexivity.
Defined.

(** A process that has exited with code 0 after writing to standard error a
    line that holds a no-break space only; what follows it cannot be
    decoded. *)
Definition nbsp_then_garbage : Transcript :=
  mkTranscript []
    [ mkRead false (Some (nbsp +:+ PyStr.newline)) (Some 0%Z) 0;
      mkRead false None (Some 0%Z) 0 ]
    0.

(** X5 on concrete runs: the callback fires on [two_payloads], and on
    [nbsp_then_garbage] too, the drain ending at the blank line before the
    bytes that cannot be decoded are read. *)
Lemma exit_callback_fires_iff_witness :
  (exists lg' st,
      run string braces_json "{}" (terminate_flush string) two_payloads watcher1
      = (lg', Exited st))
  /\ exists lg' st,
      run string braces_json "{}" (terminate_flush string) nbsp_then_garbage
        watcher1
      = (lg', Exited st).
Proof.
  split.
  - apply (exit_callback_fires_iff string braces_json "{}" (terminate_flush string)
             two_payloads watcher1).
    + intros l. apply terminate_flush_frame.
    + repeat split; vm_compute; reflexivity.
  - apply (exit_callback_fires_iff string braces_json "{}" (terminate_flush string)
             nbsp_then_garbage watcher1).
    + intros l. apply terminate_flush_frame.
    + repeat split; vm_compute; reflexivity.
Defined.

(** X6 on concrete runs: after [two_payloads] the engine reports the task
    as completed; and after [nbsp_lines] too, the error message on standard
    error lying behind a line that is blank once stripped. *)
Lemma poll_after_exit_witness :
  poll_task string
    (task_did_exit string 9 (mkShell string ∅)
       (run string braces_json "{}" (terminate_flush string) two_payloads watcher1).1
       TaskStatus.COMPLETED)
    "task"
  = TaskStatus.COMPLETED
  /\ (run string braces_json "{}" (terminate_flush string) nbsp_lines watcher1).2
     = Exited TaskStatus.COMPLETED
  /\ poll_task string
       (task_did_exit string 9 (mkShell string ∅)
          (run string braces_json "{}" (terminate_flush string) nbsp_lines watcher1).1
          TaskStatus.COMPLETED)
       "task"
     = TaskStatus.COMPLETED.
Proof.
  split; [|split; [vm_compute; reflexivity|]].
  - refine (proj1 (poll_after_exit string braces_json "{}" (terminate_flush string)
                     two_payloads watcher1 _ TaskStatus.COMPLETED 9
                     (mkShell string ∅) "task" _)).
    vm_compute. reflexivity.
  - refine (proj1 (poll_after_exit string braces_json "{}" (terminate_flush string)
                     nbsp_lines watcher1 _ TaskStatus.COMPLETED 9
                     (mkShell string ∅) "task" _)).
    vm_compute. reflexivity.
Defined.

(** *** [Shell.outputs_task] and [Shell.process_potential_out] *)

(** What [json.loads] yields; numbers are taken to be integers. *)
Inductive JsonValue :=
| JNull
| JBool (b : bool)
| JNum (n : Z)
| JStr (s : string)
| JList (l : list JsonValue)
| JDict (items : list (string * JsonValue)).

(** [bool(j)] *)
Definition json_truthy (j : JsonValue) : bool :=
  match j with
  | JNull => false
  | JBool b => b
  | JNum n => negb (n =? 0)%Z
  | JStr s => PyStr.truthy s
  | JList l => match l with [] => false | _ => true end
  | JDict items => match items with [] => false | _ => true end
  end.

(** [type(j).__name__] *)
Definition json_type (j : JsonValue) : string :=
  match j with
  | JNull => "NoneType"
  | JBool _ => "bool"
  | JNum _ => "int"
  | JStr _ => "str"
  | JList _ => "list"
  | JDict _ => "dict"
  end.

(** [WorkflowOutputModel], with the fields that [process_potential_out]
    does not leave at [None]; its [timestamp], the clock when the model is
    made, is left out. *)
Record WorkflowOutputModel := mkOutputModel {
  wom_run_id : string;
  wom_id : string;
  wom_is_copyable : bool;
  wom_value : JsonValue
}.

(** A value of the dictionary [process_potential_out] returns: a model, or
    the list built by [ups[k].append(v)]. *)
Inductive OutputValue :=
| OutModel (m : WorkflowOutputModel)
| OutList (l : list OutputValue).

(** [if k not in ups: ups[k] = []] followed by [ups[k].append(v)] *)
Definition append_at (k : string) (v : OutputValue)
    (ups : gmap string (list OutputValue)) : gmap string (list OutputValue) :=
  <[k := default [] (ups !! k) ++ [v]]> ups.

(** [for k, v in o.items(): ...] *)
Definition merge_items (ups : gmap string (list OutputValue))
    (o : gmap string OutputValue) : gmap string (list OutputValue) :=
  foldl (fun ups kv => append_at kv.1 kv.2 ups) ups (map_to_list o).

(** [Shell.process_potential_out]. *)
Fixpoint process_potential_out (run_id key : string)
    (out : JsonValue) : gmap string OutputValue :=
  match out with
  | JList l =>
      let outs := map (process_potential_out run_id key) l in
      OutList <$> foldl merge_items ∅ outs
  | JNull => ∅
  | _ => {[ key := OutModel (mkOutputModel run_id key false out) ]}
  end.

(** [Shell.outputs_task]; [outs.items()] raises on a value that is not a
    dictionary, and [retval.update] lets later entries win. *)
Definition outputs_task (self : ShellState JsonValue)
    (identifier : string) : result (gmap string OutputValue) :=
  let outs := match taskmeta JsonValue self !! "outputs" with
              | Some (MOutputs o) => o
              | _ => None
              end in
  match outs with
  | None => Ok ∅
  | Some j =>
      if negb (json_truthy j) then Ok ∅
      else
        match j with
        | JDict items =>
            Ok (foldl (fun retval kv =>
                         process_potential_out identifier kv.1 kv.2 ∪ retval)
                  ∅ items)
        | _ => Raise ("'" +:+ json_type j +:+ "' object has no attribute 'items'")
        end
  end.

(** What is left of a value once every [None] in it is dropped: nothing
    for [None] and for a list with nothing left, a model for any other
    value. *)
Fixpoint collapse (run_id key : string) (out : JsonValue)
  : option OutputValue :=
  match out with
  | JList l =>
      match omap (collapse run_id key) l with
      | [] => None
      | vs => Some (OutList vs)
      end
  | JNull => None
  | _ => Some (OutModel (mkOutputModel run_id key false out))
  end.

(** Induction on JSON values, through the lists. *)
Lemma JsonValue_list_ind (P : JsonValue -> Prop) :
  P JNull ->
  (forall b, P (JBool b)) ->
  (forall n, P (JNum n)) ->
  (forall s, P (JStr s)) ->
  (forall l, Forall P l -> P (JList l)) ->
  (forall items, P (JDict items)) ->
  forall j, P j.
Proof.
  intros Hnull Hbool Hnum Hstr Hlist Hdict.
  fix IH 1. intros [|b|n|s|l|items].
  - exact Hnull.
  - apply Hbool.
  - apply Hnum.
  - apply Hstr.
  - apply Hlist. induction l as [|x l IHl]; constructor; [apply IH|apply IHl].
  - apply Hdict.
Qed.

(** The accumulator of the merge loop: empty until a value arrives. *)
Definition ups_of (key : string) (acc : list OutputValue)
  : gmap string (list OutputValue) :=
  match acc with
  | [] => ∅
  | _ => {[ key := acc ]}
  end.

Lemma merge_loop_collapse run_id key l acc :
  Forall (fun o => process_potential_out run_id key o
                   = match collapse run_id key o with
                     | Some v => {[ key := v ]}
                     | None => ∅
                     end) l ->
  foldl merge_items (ups_of key acc) (map (process_potential_out run_id key) l)
  = ups_of key (acc ++ omap (collapse run_id key) l).
Proof.
  intros Hall. revert acc.
  induction Hall as [|o l Ho _ IH]; intros acc; simpl.
  - by rewrite app_nil_r.
  - rewrite Ho. unfold omap. simpl.
    destruct (collapse run_id key o) as [v|].
    + unfold merge_items at 2. rewrite map_to_list_singleton. simpl.
      replace (append_at key v (ups_of key acc)) with (ups_of key (acc ++ [v])).
      * rewrite IH. by rewrite <- app_assoc.
      * unfold append_at, ups_of. destruct acc as [|a acc]; simpl.
        -- by rewrite lookup_empty, insert_empty.
        -- by rewrite lookup_singleton_eq, insert_singleton_eq.
    + unfold merge_items at 2. rewrite map_to_list_empty. simpl. apply IH.
Qed.

(** [process_potential_out] in closed form.  The dictionary it returns
    has no entry when the value is [None] or a list that holds nothing but
    such values, at any depth, and otherwise the one entry under [key]:
    a model for a plain value, and for a list the list of what its elements
    gave, those that gave nothing left out. *)
Lemma process_potential_out_entry run_id key out :
  process_potential_out run_id key out
  = match collapse run_id key out with
    | Some v => {[ key := v ]}
    | None => ∅
    end.
Proof.
  induction out as [|b|n|s|l IH|items] using JsonValue_list_ind; try done.
  simpl.
  pose proof (merge_loop_collapse run_id key l [] IH) as Hloop.
  simpl in Hloop. rewrite Hloop.
  destruct (omap (collapse run_id key) l) as [|v vs]; simpl.
  - by rewrite fmap_empty.
  - by rewrite map_fmap_singleton.
Qed.

Lemma process_potential_out_other run_id key out k :
  k <> key -> process_potential_out run_id key out !! k = None.
Proof.
  intros Hk. rewrite process_potential_out_entry.
  destruct (collapse run_id key out); [by rewrite lookup_singleton_ne|done].
Qed.

Lemma update_loop_lookup identifier items acc k :
  NoDup items.*1 ->
  foldl (fun retval kv => process_potential_out identifier kv.1 kv.2 ∪ retval)
    acc items !! k
  = match (list_to_map items : gmap string JsonValue) !! k with
    | Some j =>
        match collapse identifier k j with
        | Some v => Some v
        | None => acc !! k
        end
    | None => acc !! k
    end.
Proof.
  revert acc. induction items as [|[k0 j0] rest IH]; intros acc Hnd; simpl.
  - by rewrite lookup_empty.
  - apply NoDup_cons in Hnd as [Hfresh Hnd]. rewrite IH by done.
    destruct (decide (k = k0)) as [->|Hne].
    + rewrite lookup_insert_eq.
      rewrite (not_elem_of_list_to_map_1 _ k0) by done.
      rewrite lookup_union, process_potential_out_entry.
      destruct (collapse identifier k0 j0) as [v|].
      * rewrite lookup_singleton_eq. by destruct (acc !! k0).
      * rewrite lookup_empty. by destruct (acc !! k0).
    + rewrite lookup_insert_ne by done.
      rewrite lookup_union, process_potential_out_other by done.
      assert ((None ∪ acc !! k) = acc !! k) as -> by by destruct (acc !! k).
      done.
Qed.

(** X7: [process_potential_out] drops every [None].  The dictionary it
    returns binds nothing but [key]; and [key] is bound exactly when the
    value is neither [None] nor a list holding nothing but such values, at
    any depth: to a model for a plain value, and for a list to the list of
    what its elements gave, those that gave nothing left out (so later
    elements move up). *)
Theorem process_potential_out_drops_none run_id key out :
  (forall k, k <> key -> process_potential_out run_id key out !! k = None)
  /\ process_potential_out run_id key out !! key
     = collapse run_id key out.
Proof.
  split; [intros k Hk; by apply process_potential_out_other|].
  rewrite process_potential_out_entry.
  destruct (collapse run_id key out); [by rewrite lookup_singleton_eq|done].
Qed.

(** X8: the outputs the engine reports.  When the watcher's payload is a
    dictionary, [outputs_task], called after [task_did_exit], returns a
    dictionary in which an output name is bound exactly when the payload
    binds it to something other than [None] and lists of [None]; what it
    is bound to is the payload's value with every [None] dropped. *)
Theorem outputs_task_after_exit now (self : ShellState JsonValue)
    (logger : ShellLogger JsonValue) st identifier items :
  outputs JsonValue logger = Some (JDict items) ->
  NoDup items.*1 ->
  exists m,
    outputs_task (task_did_exit JsonValue now self logger st) identifier = Ok m
    /\ forall k,
        m !! k = (list_to_map items : gmap string JsonValue) !! k
                 ≫= collapse identifier k.
Proof.
  intros Hout Hnd. unfold outputs_task, task_did_exit. simpl.
  rewrite lookup_insert_eq, Hout.
  destruct items as [|kv rest].
  - exists ∅. split; [done|]. intros k. by rewrite !lookup_empty.
  - exists (foldl (fun retval kv =>
                     process_potential_out identifier kv.1 kv.2 ∪ retval)
              ∅ (kv :: rest)).
    split; [reflexivity|]. intros k.
    rewrite update_loop_lookup by done. rewrite lookup_empty.
    destruct (_ !! k) as [j|]; [|reflexivity].
    cbn [mbind option_bind]. by destruct (collapse identifier k j).
Qed.

(** X9: a payload that is not a dictionary.  After [task_did_exit],
    [outputs_task] returns (the empty dictionary, if the payload is
    [None], missing or falsy) unless the payload is a number other than 0,
    a non-empty string or list, or [True]: then [outs.items()] raises. *)
Theorem outputs_task_needs_a_dictionary now (self : ShellState JsonValue)
    (logger : ShellLogger JsonValue) st identifier :
  match outputs JsonValue logger with
  | None =>
      outputs_task (task_did_exit JsonValue now self logger st) identifier
      = Ok ∅
  | Some j =>
      (json_truthy j = false ->
       outputs_task (task_did_exit JsonValue now self logger st) identifier
       = Ok ∅)
      /\ (json_truthy j = true ->
          (exists m,
              outputs_task (task_did_exit JsonValue now self logger st)
                identifier = Ok m)
          <-> exists items, j = JDict items)
  end.
Proof.
  unfold outputs_task, task_did_exit. simpl. rewrite lookup_insert_eq.
  destruct (outputs JsonValue logger) as [j|]; [|done].
  split; [by intros ->|]. intros ->. simpl.
  destruct j; split; try (by intros [? ?]); eauto.
Qed.

(** A payload with a plain output, an output bound to [None], a sharded
    output with a hole, and one that holds nothing at all. *)
Definition payload_demo : JsonValue :=
  JDict [ ("out", JStr "/tmp/a");
          ("missing", JNull);
          ("shards", JList [JStr "a"; JNull; JStr "b"]);
          ("nothing", JList [JNull; JList []]) ].

Definition watcher_with (j : JsonValue) : ShellLogger JsonValue :=
  mkLogger JsonValue "task" true (Some 0%Z) (Some j) 0 None true.

(** X7 at a concrete value: the hole in the sharded output is closed. *)
Lemma process_potential_out_drops_none_witness :
  process_potential_out "task" "shards" (JList [JStr "a"; JNull; JStr "b"])
    !! "shards"
  = Some (OutList [ OutModel (mkOutputModel "task" "shards" false (JStr "a"));
                    OutModel (mkOutputModel "task" "shards" false (JStr "b")) ])
  /\ process_potential_out "task" "shards" (JList [JStr "a"; JNull; JStr "b"])
       !! "out"
     = None.
Proof.
  destruct (process_potential_out_drops_none "task" "shards"
              (JList [JStr "a"; JNull; JStr "b"])) as [Hother Hkey].
  split; [rewrite Hkey; reflexivity|].
  apply Hother. discriminate.
Defined.

(** X8 on [payload_demo]: the outputs bound to [None] and to lists of
    [None] are not reported. *)
Lemma outputs_task_after_exit_witness :
  exists m,
    outputs_task
      (task_did_exit JsonValue 5 (mkShell JsonValue ∅) (watcher_with payload_demo)
         TaskStatus.COMPLETED) "task"
    = Ok m
    /\ m !! "missing" = None
    /\ m !! "nothing" = None
    /\ m !! "out" = Some (OutModel (mkOutputModel "task" "out" false (JStr "/tmp/a"))).
Proof.
  destruct (outputs_task_after_exit 5 (mkShell JsonValue ∅)
              (watcher_with payload_demo) TaskStatus.COMPLETED "task"
              [ ("out", JStr "/tmp/a");
                ("missing", JNull);
                ("shards", JList [JStr "a"; JNull; JStr "b"]);
                ("nothing", JList [JNull; JList []]) ] eq_refl)
    as (m & Hm & Hlook).
  - apply (bool_decide_unpack _). vm_compute. exact I.
  - exists m. split; [exact Hm|].
    rewrite !Hlook. repeat split; vm_compute; reflexivity.
Defined.

(** X9 at a concrete payload: the number 42 makes [outputs_task] raise. *)
Lemma outputs_task_needs_a_dictionary_witness :
  ~ exists m,
      outputs_task
        (task_did_exit JsonValue 5 (mkShell JsonValue ∅) (watcher_with (JNum 42))
           TaskStatus.COMPLETED) "task"
      = Ok m.
Proof.
  pose proof (outputs_task_needs_a_dictionary 5 (mkShell JsonValue ∅)
                (watcher_with (JNum 42)) TaskStatus.COMPLETED "task") as H.
  simpl in H. destruct H as [_ H]. intros Hm.
  apply (H eq_refl) in Hm. destruct Hm as [items Hitems]. discriminate.
Defined.

End Shell.

(** ** Collaborators of the orchestrator *)

(** Values of the informational keys of the Progress Record. *)
Inductive InfoVal :=
| IStr (s : string)
| IBool (b : bool)
| IStatus (s : TaskStatus.t).

(** [bool(v)] for a value read back from the store ([None] when absent). *)
Definition info_truthy (v : option InfoVal) : bool :=
  match v with
  | None => false
  | Some (IStr s) => PyStr.truthy s
  | Some (IBool b) => b
  | Some (IStatus _) => true
  end.

Definition info_str (v : option InfoVal) : option string :=
  match v with
  | Some (IStr s) => Some s
  | _ => None
  end.

(** [bool(x)] for an optional string: [None] and [''] are false. *)
Definition opt_truthy (x : option string) : bool :=
  match x with
  | Some s => PyStr.truthy s
  | None => false
  end.

(** [f"{x}"] for an optional string. *)
Definition fmt_opt (x : option string) : string :=
  match x with
  | Some s => s
  | None => "None"
  end.

(** [TaskMetadata]: the aggregate status, and the attributes that
    [TaskManager.metadata] assigns. *)
Record TaskMetadata := mkMeta {
  meta_status : TaskStatus.t;
  meta_tid : option string;
  meta_outdir : string;
  meta_engine_name : string;
  meta_engine_url : string
}.

(** The result of running a method: it returns, it raises, or (for the
    polling loop of [wait_if_required]) it is still waiting when the
    observation ends. *)
Inductive outcome (A : Type) :=
| Returned (a : A)
| Raised (msg : string)
| Spinning.

Arguments Returned {A} a.
Arguments Raised {A} msg.
Arguments Spinning {A}.

Section Orchestrator.

(** The state of everything outside the orchestrator: engines, servers,
    file systems. *)
Variable E : Type.

(** [janis.Workflow], [ValidationRequirements] and the hints dictionary. *)
Variable Workflow : Type.
Variable ValidationRequirements : Type.
Variable Hints : Type.

(** The engine interface, as the orchestrator uses it. *)
Record Engine := mkEngine {
  engine_id : string;
  engine_is_Cromwell : bool;
  engine_engtype : string;
  engine_host : string;
  engine_start_from_paths : string -> string -> string -> E -> E * result string;
  engine_metadata : option string -> E -> E * result (option TaskMetadata);
  engine_raw_metadata : option string -> E -> E * result string;
  engine_outputs_task : option string -> E -> E * result (list (string * Value))
}.

Record FileScheme := mkFileScheme {
  cp_from : string -> string -> E -> E * result unit
}.

Record Environment := mkEnvironment {
  env_id : string;
  engine : Engine;
  filescheme : FileScheme
}.

(** The translator: [translate(workflow, ..., with_resource_overrides,
    merge_resources, hints, ..., export_path)] and the three file name
    helpers, which are handed whatever [prepare_and_output_...] returned. *)
Record Translator := mkTranslator {
  translate : Workflow -> bool -> bool -> Hints -> string -> E -> E * result unit;
  workflow_filename : option Workflow -> result string;
  inputs_filename : option Workflow -> result string;
  dependencies_filename : option Workflow -> result string
}.

(** [shepherd.utils.get_extension]. *)
Variable get_extension : string -> option string.

(** [generate_validation_workflow_from_janis]. *)
Variable generate_validation_workflow_from_janis :
  Workflow -> ValidationRequirements -> Workflow.

(** [janis.translations.get_translator(get_ideal_specification_for_engine(engine))]. *)
Variable get_translator : Engine -> Translator.

(** [Environment.get_predefined_environment_by_id]. *)
Variable get_predefined_environment_by_id :
  option InfoVal -> result (option Environment).

(** [with open(path, "w+") as fp: json.dump(meta, fp)]: writing a dump to a
    file of the local file system, which raises when the file cannot be
    opened or written. *)
Variable dump_json : string -> string -> E -> E * result unit.

(** Calls to collaborators, each with what it gave back. *)
Inductive Event :=
| EvEnsureDir (path : string)
| EvTranslate (wf : Workflow) (with_resource_overrides : bool)
    (export_path : string) (r : result unit)
| EvStart (fn_wf fn_inp fn_deps : string) (r : result string)
| EvMetadata (etid : option string) (r : result (option TaskMetadata))
| EvRawMetadata (etid : option string) (r : result string)
| EvWriteFile (path content : string) (r : result unit)
| EvOutputs (etid : option string) (r : result (list (string * Value)))
| EvCopy (op : CopyOp) (r : result unit).

(** The persisted Progress Record of one output root, the outside world and
    the history of calls, newest first. *)
Record World := mkWorld {
  progress : gset ProgressKeys.t;
  info : gmap InfoKeys.t InfoVal;
  outside : E;
  history : list Event
}.

(** A run of the orchestrator: the world, and the [_engine_tid] attribute of
    the [TaskManager] object, the one attribute assigned after
    construction. *)
Record State := mkState {
  world : World;
  _engine_tid : option string
}.

(** The attributes of a [TaskManager] fixed by its constructor. *)
Record TaskManager := mkTaskManager {
  tid : option string;
  path : string;
  environment : option Environment
}.

Definition M (A : Type) : Type := State -> State * outcome A.

Definition ret {A} (a : A) : M A := fun s => (s, Returned a).

Definition bind {A B} (m : M A) (f : A -> M B) : M B :=
  fun s =>
    match m s with
    | (s', Returned a) => f a s'
    | (s', Raised msg) => (s', Raised msg)
    | (s', Spinning) => (s', Spinning)
    end.

Definition raise {A} (msg : string) : M A := fun s => (s, Raised msg).

#[local] Notation "x <- m ;; k" := (bind m (fun x => k))
  (at level 100, m at next level, right associativity).
#[local] Notation "m ;;; k" := (bind m (fun _ => k))
  (at level 100, right associativity).

Definition with_world (f : World -> World) : M unit :=
  fun s => (mkState (f (world s)) (_engine_tid s), Returned tt).

Definition record (ev : Event) (w : World) : World :=
  mkWorld (progress w) (info w) (outside w) (ev :: history w).

(** Call a collaborator on the outside world and record the call. *)
Definition call {A} (f : E -> E * result A) (ev : result A -> Event) : M A :=
  fun s =>
    let w := world s in
    let '(e', r) := f (outside w) in
    let s' := mkState (mkWorld (progress w) (info w) e' (ev r :: history w))
                (_engine_tid s) in
    match r with
    | Ok a => (s', Returned a)
    | Raise msg => (s', Raised msg)
    end.

(** A pure helper that may raise. *)
Definition lift {A} (r : result A) : M A :=
  match r with
  | Ok a => ret a
  | Raise msg => raise msg
  end.

(** *** The Progress Store: [DatabaseManager] *)

(** Modelled from the spec: [DatabaseManager.progress_has_completed].  The
    Progress Store holds a mapping of step identifier to completed flag;
    this is its point lookup. *)
Definition progress_has_completed (key : ProgressKeys.t) : M bool :=
  fun s => (s, Returned (bool_decide (key ∈ progress (world s)))).

Definition mark (key : ProgressKeys.t) (w : World) : World :=
  mkWorld ({[key]} ∪ progress w) (info w) (outside w) (history w).

(** Modelled from the spec: [DatabaseManager.progress_mark_completed], the
    "mark step completed" operation, an idempotent set-true. *)
Definition progress_mark_completed (key : ProgressKeys.t) : M unit :=
  with_world (mark key).

(** Modelled from the spec: [DatabaseManager.get_meta_info], the point
    lookup of an informational key; [None] when the key is absent. *)
Definition get_meta_info (key : InfoKeys.t) : M (option InfoVal) :=
  fun s => (s, Returned (info (world s) !! key)).

Definition upsert (key : InfoKeys.t) (v : InfoVal) (w : World) : World :=
  mkWorld (progress w) (<[key := v]> (info w)) (outside w) (history w).

(** Modelled from the spec: [DatabaseManager.add_meta_info], the point
    upsert of an informational key. *)
Definition add_meta_info (key : InfoKeys.t) (v : InfoVal) : M unit :=
  with_world (upsert key v).

(** Modelled from the spec: [DatabaseManager.add_meta_infos], the upserts
    of a list of pairs, in order. *)
Definition add_meta_infos (kvs : list (InfoKeys.t * InfoVal)) : M unit :=
  with_world (fun w => foldl (fun w kv => upsert kv.1 kv.2 w) w kvs).

(** *** [TaskManager] *)

Definition get_task_path_for (outdir : string) : string :=
  let extraback := if PyStr.endswith outdir "/" then "" else "/" in
  outdir +:+ extraback.

Definition get_task_path (self : TaskManager) : string :=
  get_task_path_for (path self).

(** [os.makedirs(path)] unless the path exists.  The check is recorded as
    one that returned: the output root is taken to be a place where
    directories can be made, and an [os.makedirs] that raises is outside
    the model. *)
Definition _create_dir_if_needed (p : string) : M unit :=
  with_world (record (EvEnsureDir p)).

Definition get_task_path_safe (self : TaskManager) : M string :=
  let p := get_task_path self in
  _create_dir_if_needed p ;;; ret p.

(** A [for] loop over a list. *)
Fixpoint for_each {A} (l : list A) (body : A -> M unit) : M unit :=
  match l with
  | [] => ret tt
  | x :: rest => body x ;;; for_each rest body
  end.

Definition folders : list string :=
  ["workflow"; "metadata"; "validation"; "outputs"; "logs"].

Definition create_output_structure (self : TaskManager) : M unit :=
  outputdir <- get_task_path_safe self ;;
  for_each folders (fun f => _create_dir_if_needed (outputdir +:+ f)).

(** [self.outdir_workflow] *)
Definition outdir_workflow (self : TaskManager) : string :=
  get_task_path self +:+ "workflow/".

Definition set_engine_tid (v : option string) : M unit :=
  fun s => (mkState (world s) v, Returned tt).

(** What [get_engine_tid] answers in a state: the attribute if it is set,
    else the stored engine task id. *)
Definition engine_tid_of (s : State) : option string :=
  if opt_truthy (_engine_tid s) then _engine_tid s
  else info_str (info (world s) !! InfoKeys.engine_tid).

Definition get_engine_tid : M (option string) :=
  fun s => (mkState (world s) (engine_tid_of s), Returned (engine_tid_of s)).

(** [self.environment.<attr>]: an [AttributeError] when the environment is
    [None]. *)
Definition the_environment (self : TaskManager) : M Environment :=
  match environment self with
  | Some env => ret env
  | None => raise "'NoneType' object has no attribute 'engine'"
  end.

(** [TaskManager.__init__] *)
Definition TaskManager_init (outdir : string) (tid0 : option string)
    (env : option Environment) : M TaskManager :=
  set_engine_tid None ;;;
  let self0 := mkTaskManager tid0 outdir env in
  create_output_structure self0 ;;;
  _ <- get_task_path_safe self0 ;;
  tid1 <- (if opt_truthy tid0 then ret tid0 else get_engine_tid) ;;
  let self := mkTaskManager tid1 outdir env in
  match env with
  | Some _ => ret self
  | None =>
      e <- get_meta_info InfoKeys.environment ;;
      if info_truthy e then
        _ <- lift (get_predefined_environment_by_id e) ;;
        ret self
      else
        raise ("Couldn't get environment from DB for task id: '"
               +:+ fmt_opt tid1 +:+ "'")
  end.

Definition metadata (self : TaskManager) : M (option TaskMetadata) :=
  env <- the_environment self ;;
  etid <- get_engine_tid ;;
  meta <- call (engine_metadata (engine env) etid) (EvMetadata etid) ;;
  ret (match meta with
       | Some m =>
           Some (mkMeta (meta_status m) (tid self) (path self)
                   (engine_engtype (engine env))
                   (if engine_is_Cromwell (engine env)
                    then engine_host (engine env) else "N/A"))
       | None => None
       end).

(** [status not in TaskStatus.FINAL_STATES()], [status] starting as [None]. *)
Definition not_final (status : option TaskStatus.t) : bool :=
  match status with
  | Some st => negb (TaskStatus.is_final st)
  | None => true
  end.

(** The [while] loop of [wait_if_required]; [fuel] bounds the number of
    polls that are observed. *)
Fixpoint wait_loop (fuel : nat) (self : TaskManager)
    (status : option TaskStatus.t) : M unit :=
  if not_final status then
    match fuel with
    | O => fun s => (s, Spinning)
    | S fuel' =>
        meta <- metadata self ;;
        wait_loop fuel' self
          (match meta with
           | Some m => Some (meta_status m)
           | None => status
           end)
    end
  else ret tt.

Definition wait_if_required (fuel : nat) (self : TaskManager) : M unit :=
  done <- progress_has_completed ProgressKeys.workflowMovedToFinalState ;;
  if done then
    _ <- metadata self ;;
    ret tt
  else
    wait_loop fuel self None ;;;
    progress_mark_completed ProgressKeys.workflowMovedToFinalState.

Definition prepare_and_output_workflow_to_evaluate_if_required
    (self : TaskManager) (workflow : Workflow) (translator : Translator)
    (validation : option ValidationRequirements) (hints : Hints)
  : M (option Workflow) :=
  done <- progress_has_completed ProgressKeys.saveWorkflow ;;
  if done then ret None
  else
    call (translate translator workflow false false hints (outdir_workflow self))
         (EvTranslate workflow false (outdir_workflow self)) ;;;
    workflow_to_evaluate <-
      match validation with
      | Some v =>
          let wv := generate_validation_workflow_from_janis workflow v in
          call (translate translator wv true true hints (outdir_workflow self))
               (EvTranslate wv true (outdir_workflow self)) ;;;
          ret wv
      | None => ret workflow
      end ;;
    progress_mark_completed ProgressKeys.saveWorkflow ;;;
    ret (Some workflow_to_evaluate).

Definition submit_workflow_if_required (self : TaskManager)
    (wf : option Workflow) (translator : Translator) : M unit :=
  done <- progress_has_completed ProgressKeys.submitWorkflow ;;
  if done then ret tt
  else
    n_wf <- lift (workflow_filename translator wf) ;;
    n_inp <- lift (inputs_filename translator wf) ;;
    n_deps <- lift (dependencies_filename translator wf) ;;
    let fn_wf := outdir_workflow self +:+ n_wf in
    let fn_inp := outdir_workflow self +:+ n_inp in
    let fn_deps := outdir_workflow self +:+ n_deps in
    env <- the_environment self ;;
    etid <- call (engine_start_from_paths (engine env) fn_wf fn_inp fn_deps)
                 (EvStart fn_wf fn_inp fn_deps) ;;
    set_engine_tid (Some etid) ;;;
    add_meta_info InfoKeys.engine_tid (IStr etid) ;;;
    _ <- get_engine_tid ;;
    progress_mark_completed ProgressKeys.submitWorkflow.

Definition save_metadata_if_required (self : TaskManager) : M unit :=
  done <- progress_has_completed ProgressKeys.savedMetadata ;;
  if done then ret tt
  else
    env <- the_environment self ;;
    (if engine_is_Cromwell (engine env) then
       etid <- get_engine_tid ;;
       meta <- call (engine_raw_metadata (engine env) etid) (EvRawMetadata etid) ;;
       let file := get_task_path self +:+ "metadata/metadata.json" in
       call (dump_json file meta) (EvWriteFile file meta)
     else
       raise ("Don't know how to save metadata for engine '"
              +:+ engine_id (engine env) +:+ "'")) ;;;
    progress_mark_completed ProgressKeys.savedMetadata.

(** [is_validating and o.split(".")[-1].startswith("validated_")] *)
Definition output_is_validating (is_validating : bool) (o : string) : bool :=
  is_validating
  && PyStr.startswith (PyStr.last_item (PyStr.split "."%char o)) "validated_".

(** The [cp_from] calls of one staged output, in order. *)
Fixpoint do_copies (fs : FileScheme) (ops : list CopyOp) : M unit :=
  match ops with
  | [] => ret tt
  | op :: rest =>
      call (cp_from fs (cp_source op) (cp_dest op)) (EvCopy op) ;;;
      do_copies fs rest
  end.

(** The [cp_from] calls of a whole output mapping, in order, when every
    value has a shape the loop of [copy_outputs_if_required] accepts. *)
Definition planned_copies (is_validating : bool) (task_path : string)
    (outputs : list (string * Value)) : list CopyOp :=
  flat_map
    (fun kv =>
       copy_output get_extension
         (if output_is_validating is_validating kv.1
          then task_path +:+ "validation/" else task_path +:+ "outputs/")
         kv.1 kv.2)
    outputs.

(** The body of the loop of [copy_outputs_if_required]. *)
Definition stage_output (fs : FileScheme) (od outname : string) (o : Value)
  : M unit :=
  match o with
  | OList l => do_copies fs (copy_sharded_outputs get_extension od outname l)
  | OFile f => do_copies fs (copy_cromwell_output get_extension od outname f)
  | OStr src => do_copies fs (copy_output get_extension od outname (OStr src))
  | OOther ty =>
      raise ("Don't know how to handle output with type: <class '"
             +:+ ty +:+ "'>")
  end.

Definition copy_outputs_if_required (self : TaskManager) : M unit :=
  done <- progress_has_completed ProgressKeys.copiedOutputs ;;
  if done then ret tt
  else
    env <- the_environment self ;;
    etid <- get_engine_tid ;;
    outputs <- call (engine_outputs_task (engine env) etid) (EvOutputs etid) ;;
    match outputs with
    | [] => ret tt
    | _ =>
        v <- get_meta_info InfoKeys.validating ;;
        let is_validating := info_truthy v in
        let outdir := get_task_path self +:+ "outputs/" in
        let valdir := get_task_path self +:+ "validation/" in
        let fs := filescheme env in
        for_each outputs
          (fun kv =>
             let od := if output_is_validating is_validating kv.1
                       then valdir else outdir in
             stage_output fs od kv.1 kv.2) ;;;
        progress_mark_completed ProgressKeys.copiedOutputs
    end.

Definition resume_if_possible (fuel : nat) (self : TaskManager) : M unit :=
  done <- progress_has_completed ProgressKeys.submitWorkflow ;;
  if negb done then ret tt
  else
    wait_if_required fuel self ;;;
    save_metadata_if_required self ;;;
    copy_outputs_if_required self.

Definition copy_logs_if_required (self : TaskManager) : M unit :=
  done <- progress_has_completed ProgressKeys.savedLogs ;;
  if negb done then ret tt
  else
    _ <- metadata self ;;
    ret tt.

Definition from_janis (fuel : nat) (tid0 : string) (outdir : string)
    (wf : Workflow) (env : Environment) (hints : Hints)
    (validation_requirements : option ValidationRequirements) : M unit :=
  tm <- TaskManager_init outdir (Some tid0) (Some env) ;;
  add_meta_infos
    [ (InfoKeys.taskId, IStr tid0);
      (InfoKeys.status, IStatus TaskStatus.PROCESSING);
      (InfoKeys.validating,
        IBool (match validation_requirements with Some _ => true | None => false end));
      (InfoKeys.engineId, IStr (engine_id (engine env)));
      (InfoKeys.environment, IStr (env_id env)) ] ;;;
  let spec_translator := get_translator (engine env) in
  wf_evaluate <- prepare_and_output_workflow_to_evaluate_if_required
                   tm wf spec_translator validation_requirements hints ;;
  submit_workflow_if_required tm wf_evaluate spec_translator ;;;
  resume_if_possible fuel tm.

Definition from_path (path0 : string) : M TaskManager :=
  let path1 := get_task_path_for path0 in
  tid0 <- get_meta_info InfoKeys.taskId ;;
  envid <- get_meta_info InfoKeys.environment ;;
  env <- lift (get_predefined_environment_by_id envid) ;;
  TaskManager_init path1 (info_str tid0) env.

(** The second entry point: [from_path] followed by [resume_if_possible]. *)
Definition resume_from_path (fuel : nat) (path0 : string) : M unit :=
  tm <- from_path path0 ;;
  resume_if_possible fuel tm.

(** Run an entry point as a fresh process over a persisted world. *)
Definition run {A} (m : M A) (w : World) : World * outcome A :=
  let '(s, r) := m (mkState w None) in (world s, r).

(** ** Facts about the orchestrator *)

Ltac unfold_monad :=
  unfold bind, ret, raise, lift, call, with_world, progress_has_completed,
    progress_mark_completed, get_meta_info, add_meta_info, add_meta_infos,
    set_engine_tid, get_engine_tid, the_environment in *.

(** Run a method symbolically: open the monad and split on every test. *)
Ltac exec :=
  repeat (unfold_monad; simpl in *; case_match; simplify_eq); simpl in *.

(** Facts about strings. *)

Lemma string_app_cons (a : Ascii.ascii) (s t : string) :
  String a s +:+ t = String a (s +:+ t).
Proof. reflexivity. Qed.

Lemma string_app_nil_r (s : string) : s +:+ "" = s.
Proof. induction s as [|a s IH]; [done|]. by rewrite string_app_cons, IH. Qed.

Lemma string_app_assoc (s1 s2 s3 : string) :
  (s1 +:+ s2) +:+ s3 = s1 +:+ s2 +:+ s3.
Proof. induction s1 as [|a s1 IH]; [done|]. by rewrite !string_app_cons, IH. Qed.

Lemma rev_app_acc (s acc : string) :
  String.rev_app s acc = String.rev_app s "" +:+ acc.
Proof.
  revert acc. induction s as [|a s IH]; intros acc; simpl; [done|].
  rewrite (IH (String a acc)), (IH (String a "")).
  by rewrite string_app_assoc.
Qed.

Lemma rev_app_append (s t acc : string) :
  String.rev_app (s +:+ t) acc = String.rev_app t (String.rev_app s acc).
Proof.
  revert acc. induction s as [|a s IH]; intros acc; [done|].
  rewrite string_app_cons. simpl. apply IH.
Qed.

Lemma string_rev_append (s t : string) :
  String.rev (s +:+ t) = String.rev t +:+ String.rev s.
Proof. unfold String.rev. by rewrite rev_app_append, rev_app_acc. Qed.

Lemma prefix_append (p x : string) : String.prefix p (p +:+ x) = true.
Proof.
  induction p as [|a p IH]; [by destruct x|].
  rewrite string_app_cons. simpl. by destruct (Ascii.ascii_dec a a).
Qed.

Lemma endswith_append (s suf : string) : PyStr.endswith (s +:+ suf) suf = true.
Proof. unfold PyStr.endswith. rewrite string_rev_append. apply prefix_append. Qed.

(** [get_task_path_for] spelled out: the path itself when it ends with a
    slash, and the path with a slash appended when it does not. *)
Lemma get_task_path_for_cases (outdir : string) :
  get_task_path_for outdir
  = if PyStr.endswith outdir "/" then outdir else outdir +:+ "/".
Proof.
  unfold get_task_path_for.
  destruct (PyStr.endswith outdir "/"); [apply string_app_nil_r|done].
Qed.

Lemma metadata_frame self s :
  progress (world (metadata self s).1) = progress (world s)
  /\ info (world (metadata self s).1) = info (world s)
  /\ (history (world (metadata self s).1) = history (world s)
      \/ exists etid r,
          history (world (metadata self s).1)
          = EvMetadata etid r :: history (world s)).
Proof. unfold metadata. exec; eauto 10. Qed.

(** C10: [copy_logs_if_required] copies no log file and marks nothing.  The
    Progress Record is as it was; when logs-saved is not marked the method
    returns at once with the state untouched, and when it is marked the
    history gains at most the one engine metadata call, never a copy, a
    file write or a directory creation. *)
Theorem copy_logs_if_required_changes_nothing self s :
  let s' := (copy_logs_if_required self s).1 in
  progress (world s') = progress (world s)
  /\ info (world s') = info (world s)
  /\ if bool_decide (ProgressKeys.savedLogs ∈ progress (world s))
     then history (world s') = history (world s)
          \/ exists etid r,
              history (world s') = EvMetadata etid r :: history (world s)
     else s' = s /\ (copy_logs_if_required self s).2 = Returned tt.
Proof.
  unfold copy_logs_if_required, bind, progress_has_completed, ret. simpl.
  destruct (bool_decide _); simpl; [|done].
  destruct (metadata_frame self s) as (Hp & Hi & Hh).
  destruct (metadata self s) as [s' [a| |]]; simpl in *; done.
Qed.

(** C8: saving metadata.  With the step not yet marked, an engine that is
    not Cromwell makes [save_metadata_if_required] raise with a message that
    names the engine and leaves the world, the metadata-saved mark included,
    as it was.  For Cromwell the raw metadata dump is fetched and written to
    the file [metadata/metadata.json] in the task's directory, the output
    directory with a slash after it unless it ends with one; the step is
    marked when, and only when, both the fetch and the write have returned,
    so that a dump that could not be fetched or written leaves the step
    unmarked and the exception with the caller. *)
Theorem save_metadata_if_required_spec self env s :
  environment self = Some env ->
  ProgressKeys.savedMetadata ∉ progress (world s) ->
  let s' := (save_metadata_if_required self s).1 in
  let r := (save_metadata_if_required self s).2 in
  let dir := if PyStr.endswith (path self) "/" then path self
             else path self +:+ "/" in
  let file := dir +:+ "metadata/metadata.json" in
  if engine_is_Cromwell (engine env) then
    match engine_raw_metadata (engine env) (engine_tid_of s) (outside (world s)) with
    | (e1, Ok meta) =>
        match dump_json file meta e1 with
        | (_, Ok _) =>
            r = Returned tt
            /\ history (world s')
               = EvWriteFile file meta (Ok tt)
                 :: EvRawMetadata (engine_tid_of s) (Ok meta) :: history (world s)
            /\ progress (world s')
               = {[ProgressKeys.savedMetadata]} ∪ progress (world s)
        | (_, Raise msg) =>
            r = Raised msg
            /\ history (world s')
               = EvWriteFile file meta (Raise msg)
                 :: EvRawMetadata (engine_tid_of s) (Ok meta) :: history (world s)
            /\ progress (world s') = progress (world s)
        end
    | (_, Raise msg) =>
        r = Raised msg
        /\ history (world s')
           = EvRawMetadata (engine_tid_of s) (Raise msg) :: history (world s)
        /\ progress (world s') = progress (world s)
    end
  else
    r = Raised ("Don't know how to save metadata for engine '"
                +:+ engine_id (engine env) +:+ "'")
    /\ world s' = world s.
Proof.
  intros Henv Hnot. unfold save_metadata_if_required, get_task_path.
  rewrite get_task_path_for_cases.
  unfold_monad. rewrite Henv. simpl.
  rewrite bool_decide_eq_false_2 by done.
  destruct (engine_is_Cromwell (engine env)); simpl; [|done].
  destruct (engine_raw_metadata _ _ _) as [e1 [meta|msg]]; simpl; [|done].
  destruct (dump_json _ _ _) as [e2 [[]|msg]]; simpl; done.
Qed.

(** *** The staging loop *)

(** The shapes the loop of [copy_outputs_if_required] accepts. *)
Definition supported (o : Value) : bool :=
  match o with
  | OOther _ => false
  | _ => true
  end.

Definition ok_copy (op : CopyOp) : Event := EvCopy op (Ok tt).

(** The file scheme never raises. *)
Definition never_raises (fs : FileScheme) : Prop :=
  forall src dst e, (cp_from fs src dst e).2 = Ok tt.

(** The message of the [else] branch of the loop. *)
Definition unknown_type_message (ty : string) : string :=
  "Don't know how to handle output with type: <class '" +:+ ty +:+ "'>".

(** The loop, for given destination directories. *)
#[local] Abbreviation stage_loop fs v od vd outs :=
  (for_each outs
     (fun kv => stage_output fs (if output_is_validating v kv.1 then vd else od)
                  kv.1 kv.2)).

Lemma do_copies_frame fs ops s :
  progress (world (do_copies fs ops s).1) = progress (world s)
  /\ info (world (do_copies fs ops s).1) = info (world s)
  /\ (do_copies fs ops s).2 <> Spinning.
Proof.
  revert s. induction ops as [|op rest IH]; intros s; simpl; [done|].
  unfold bind, call.
  destruct (cp_from _ _ _ _) as [e' [[]|msg]]; simpl; [|done].
  match goal with |- context [do_copies fs rest ?s1] => specialize (IH s1) end.
  apply IH.
Qed.

Lemma do_copies_returned fs ops s :
  (do_copies fs ops s).2 = Returned tt ->
  history (world (do_copies fs ops s).1)
  = reverse (map ok_copy ops) ++ history (world s).
Proof.
  revert s. induction ops as [|op rest IH]; intros s; simpl; [done|].
  unfold bind, call.
  destruct (cp_from _ _ _ _) as [e' [[]|msg]]; simpl; [|done].
  intros H. rewrite (IH _ H). simpl.
  by rewrite reverse_cons, <- app_assoc.
Qed.

Lemma do_copies_total fs ops s :
  never_raises fs -> (do_copies fs ops s).2 = Returned tt.
Proof.
  intros Hfs. revert s.
  induction ops as [|op rest IH]; intros s; simpl; [done|].
  unfold bind, call.
  specialize (Hfs (cp_source op) (cp_dest op) (outside (world s))).
  destruct (cp_from _ _ _ _) as [e' [[]|msg]]; simpl in *; [apply IH|done].
Qed.

Lemma stage_output_plan fs od name o :
  supported o = true ->
  stage_output fs od name o
  = do_copies fs (copy_output get_extension od name o).
Proof.
  destruct o as [src|l|f|ty]; intros Hs; try done.
  unfold stage_output. by rewrite copy_output_list.
Qed.

Lemma stage_loop_frame fs v od vd outs s :
  progress (world (stage_loop fs v od vd outs s).1) = progress (world s)
  /\ info (world (stage_loop fs v od vd outs s).1) = info (world s)
  /\ (stage_loop fs v od vd outs s).2 <> Spinning.
Proof.
  revert s. induction outs as [|[name o] rest IH]; intros s; simpl; [done|].
  unfold bind.
  destruct (stage_output _ _ _ _ s) as [s1 r1] eqn:H1.
  assert (progress (world s1) = progress (world s)
          /\ info (world s1) = info (world s) /\ r1 <> Spinning) as (Hp & Hi & Hr).
  { destruct (supported o) eqn:Hs.
    - rewrite stage_output_plan in H1 by done.
      pose proof (do_copies_frame fs
        (copy_output get_extension
           (if output_is_validating v name then vd else od) name o) s) as HF.
      by rewrite H1 in HF.
    - destruct o; try done. simpl in H1. unfold raise in H1. by simplify_eq. }
  destruct r1 as [[]| |]; simpl; [|done..].
  rewrite <- Hp, <- Hi. apply IH.
Qed.

Lemma stage_loop_returned fs v od vd outs s :
  (stage_loop fs v od vd outs s).2 = Returned tt ->
  history (world (stage_loop fs v od vd outs s).1)
  = reverse
      (map ok_copy
         (flat_map
            (fun kv => copy_output get_extension
                         (if output_is_validating v kv.1 then vd else od)
                         kv.1 kv.2) outs))
    ++ history (world s)
  /\ forallb (fun kv => supported kv.2) outs = true.
Proof.
  revert s. induction outs as [|[name o] rest IH]; intros s; simpl; [done|].
  unfold bind.
  destruct (supported o) eqn:Hs.
  - rewrite stage_output_plan by done.
    pose proof (do_copies_returned fs
      (copy_output get_extension
         (if output_is_validating v name then vd else od) name o) s) as HR.
    destruct (do_copies _ _ s) as [s1 [[]| |]]; simpl in *; [|done..].
    intros H. destruct (IH _ H) as [-> ->]. split; [|done].
    rewrite HR by done.
    by rewrite map_app, reverse_app, <- app_assoc.
  - by destruct o.
Qed.

Lemma stage_loop_unsupported fs v od vd outs s :
  forallb (fun kv => supported kv.2) outs = false ->
  exists msg, (stage_loop fs v od vd outs s).2 = Raised msg.
Proof.
  intros Hs.
  pose proof (stage_loop_frame fs v od vd outs s) as (_ & _ & Hspin).
  pose proof (stage_loop_returned fs v od vd outs s) as Hret.
  destruct (stage_loop fs v od vd outs s).2 as [[]|msg|]; [|by eauto|done].
  destruct Hret as [_ Hret]; [done|]. congruence.
Qed.

Lemma stage_loop_message fs v od vd pre name ty post s :
  never_raises fs ->
  forallb (fun kv => supported kv.2) pre = true ->
  (stage_loop fs v od vd (pre ++ (name, OOther ty) :: post) s).2
  = Raised (unknown_type_message ty).
Proof.
  intros Hfs. revert s.
  induction pre as [|[n o] pre IH]; intros s Hpre; simpl; [done|].
  simpl in Hpre. apply andb_true_iff in Hpre as [Ho Hpre].
  unfold bind. rewrite stage_output_plan by done.
  pose proof (do_copies_total fs
    (copy_output get_extension
       (if output_is_validating v n then vd else od) n o) s Hfs) as HT.
  destruct (do_copies _ _ s) as [s1 r1]; simpl in HT; subst r1.
  by apply IH.
Qed.

(** Element [i] of a sharded output is staged under the name suffixed with
    [-shard-i]. *)
Lemma copy_shards_from_imap od name n outs :
  copy_shards_from get_extension od name n outs
  = concat (imap (fun i o => copy_output get_extension od
                               (name +:+ "-shard-" +:+ pretty (n + i)%nat) o)
              outs).
Proof.
  revert n. induction outs as [|o rest IH]; intros n; [done|].
  simpl. rewrite Nat.add_0_r. f_equal. rewrite IH. f_equal.
  apply imap_ext. intros i x _. simpl. by rewrite Nat.add_succ_r.
Qed.

(** The world right after [outputs_task] has returned [outs]. *)
Definition after_fetch (s : State) (e' : E) (outs : list (string * Value)) : State :=
  mkState
    (mkWorld (progress (world s)) (info (world s)) e'
       (EvOutputs (engine_tid_of s) (Ok outs) :: history (world s)))
    (engine_tid_of s).

Lemma copy_outputs_unfold self env s e' outs :
  environment self = Some env ->
  ProgressKeys.copiedOutputs ∉ progress (world s) ->
  engine_outputs_task (engine env) (engine_tid_of s) (outside (world s))
  = (e', Ok outs) ->
  copy_outputs_if_required self s
  = match outs with
    | [] => (after_fetch s e' outs, Returned tt)
    | _ =>
        bind (stage_loop (filescheme env)
                (info_truthy (info (world s) !! InfoKeys.validating))
                (get_task_path self +:+ "outputs/")
                (get_task_path self +:+ "validation/") outs)
          (fun _ => progress_mark_completed ProgressKeys.copiedOutputs)
          (after_fetch s e' outs)
    end.
Proof.
  intros Henv Hnot Hfetch. unfold copy_outputs_if_required.
  unfold bind at 1. unfold progress_has_completed.
  rewrite bool_decide_eq_false_2 by done.
  unfold bind at 1. unfold the_environment. rewrite Henv. unfold ret at 1.
  unfold bind at 1. unfold get_engine_tid.
  unfold bind at 1. unfold call. simpl. rewrite Hfetch.
  by destruct outs.
Qed.

(** C7, as the code has it: when [copy_outputs_if_required] runs with the
    step unmarked and returns, outputs-copied is marked exactly when the
    engine handed back a mapping that is not empty. *)
Theorem copy_outputs_marks_iff_nonempty self env s e' outs :
  environment self = Some env ->
  ProgressKeys.copiedOutputs ∉ progress (world s) ->
  engine_outputs_task (engine env) (engine_tid_of s) (outside (world s))
  = (e', Ok outs) ->
  (copy_outputs_if_required self s).2 = Returned tt ->
  ProgressKeys.copiedOutputs ∈ progress (world (copy_outputs_if_required self s).1)
  <-> outs <> [].
Proof.
  intros Henv Hnot Hfetch.
  rewrite (copy_outputs_unfold self env s e' outs) by done.
  destruct outs as [|kv rest]; [by simpl|].
  unfold bind.
  destruct (for_each _ _ _) as [s2 [[]| |]]; simpl; [|done..].
  intros _. split; [done|]. intros _. set_solver.
Qed.

(** C9, as the code has it: an output whose value, at the top level of the
    mapping, has none of the three shapes stops
    [copy_outputs_if_required] with an exception, and outputs-copied stays
    unmarked.  When the outputs before it have accepted shapes and the file
    scheme does not raise, the exception is the one that names the type of
    the value. *)
Theorem unsupported_output_is_fatal self env s e' pre name ty post :
  environment self = Some env ->
  ProgressKeys.copiedOutputs ∉ progress (world s) ->
  engine_outputs_task (engine env) (engine_tid_of s) (outside (world s))
  = (e', Ok (pre ++ (name, OOther ty) :: post)) ->
  (exists msg, (copy_outputs_if_required self s).2 = Raised msg)
  /\ (ProgressKeys.copiedOutputs
       ∉ progress (world (copy_outputs_if_required self s).1))
  /\ (never_raises (filescheme env) ->
      forallb (fun kv => supported kv.2) pre = true ->
      (copy_outputs_if_required self s).2 = Raised (unknown_type_message ty)).
Proof.
  intros Henv Hnot Hfetch.
  rewrite (copy_outputs_unfold self env s e' _) by done.
  assert (forallb (fun kv => supported kv.2) (pre ++ (name, OOther ty) :: post)
          = false) as Hun.
  { rewrite forallb_app. simpl. by rewrite andb_false_r. }
  assert (forall (X : Type) (a b : X),
             match pre ++ (name, OOther ty) :: post with [] => a | _ => b end = b)
    as -> by (intros; by destruct pre).
  pose proof (stage_loop_unsupported (filescheme env)
    (info_truthy (info (world s) !! InfoKeys.validating))
    (get_task_path self +:+ "outputs/") (get_task_path self +:+ "validation/")
    _ (after_fetch s e' (pre ++ (name, OOther ty) :: post)) Hun) as [msg Hmsg].
  pose proof (stage_loop_frame (filescheme env)
    (info_truthy (info (world s) !! InfoKeys.validating))
    (get_task_path self +:+ "outputs/") (get_task_path self +:+ "validation/")
    (pre ++ (name, OOther ty) :: post)
    (after_fetch s e' (pre ++ (name, OOther ty) :: post))) as (Hp & _ & _).
  pose proof (stage_loop_message (filescheme env)
    (info_truthy (info (world s) !! InfoKeys.validating))
    (get_task_path self +:+ "outputs/") (get_task_path self +:+ "validation/")
    pre name ty post
    (after_fetch s e' (pre ++ (name, OOther ty) :: post))) as HM.
  unfold bind.
  destruct (for_each _ _ _) as [s2 r2]. simpl in *. subst r2. simpl.
  split; [by eauto|]. split; [by rewrite Hp|].
  intros Hfs Hpre. by rewrite <- HM.
Qed.

(** C4: output staging routes each named output by shape.  A [str]
    location is copied into the destination directory under the output
    name, with a dot and the extension of the source appended when the
    source has one.  A list is copied element by element, element [i] under
    the name suffixed with [-shard-i], counting from 0.  The destination
    directory of an output is [validation/] when the task is validating and
    the part of the output name after its last dot starts with
    [validated_], and [outputs/] otherwise; a run of
    [copy_outputs_if_required] that returns has made exactly these copies,
    in order, after fetching the outputs. *)
Theorem output_staging_routes_by_shape :
  (forall od name src,
      copy_output get_extension od name (OStr src)
      = [mkCopy src
           (od +:+ name +:+
            match get_extension src with
            | Some ext => if PyStr.truthy ext then "." +:+ ext else ""
            | None => ""
            end)])
  /\ (forall od name outs,
        copy_output get_extension od name (OList outs)
        = concat (imap (fun i o => copy_output get_extension od
                                     (name +:+ "-shard-" +:+ pretty i) o)
                    outs))
  /\ (forall v task_path name o rest,
        planned_copies v task_path ((name, o) :: rest)
        = copy_output get_extension
            (if v && PyStr.startswith
                       (PyStr.last_item (PyStr.split "."%char name)) "validated_"
             then task_path +:+ "validation/" else task_path +:+ "outputs/")
            name o
          ++ planned_copies v task_path rest)
  /\ (forall self env s e' outs,
        environment self = Some env ->
        ProgressKeys.copiedOutputs ∉ progress (world s) ->
        engine_outputs_task (engine env) (engine_tid_of s) (outside (world s))
        = (e', Ok outs) ->
        outs <> [] ->
        (copy_outputs_if_required self s).2 = Returned tt ->
        history (world (copy_outputs_if_required self s).1)
        = reverse
            (map ok_copy
               (planned_copies
                  (info_truthy (info (world s) !! InfoKeys.validating))
                  (get_task_path self) outs))
          ++ EvOutputs (engine_tid_of s) (Ok outs) :: history (world s)).
Proof.
  split; [done|]. split.
  { intros od name outs. rewrite copy_output_list.
    unfold copy_sharded_outputs. apply copy_shards_from_imap. }
  split; [done|].
  intros self env s e' outs Henv Hnot Hfetch Hne.
  rewrite (copy_outputs_unfold self env s e' outs) by done.
  destruct outs as [|kv rest]; [done|].
  pose proof (stage_loop_returned (filescheme env)
    (info_truthy (info (world s) !! InfoKeys.validating))
    (get_task_path self +:+ "outputs/") (get_task_path self +:+ "validation/")
    (kv :: rest) (after_fetch s e' (kv :: rest))) as HR.
  unfold bind.
  destruct (for_each _ _ _) as [s2 [[]| |]]; simpl in *; [|done..].
  intros _. by destruct HR as [-> _].
Qed.

(** *** Calls to the engine's start operation *)

(** The number of [start_from_paths] calls in a history. *)
Fixpoint count_start (h : list Event) : nat :=
  match h with
  | [] => 0
  | EvStart _ _ _ _ :: rest => S (count_start rest)
  | _ :: rest => count_start rest
  end.

(** A computation that neither starts a workflow nor touches the
    workflow-submitted mark, and that only ever adds marks. *)
Definition submit_free {A} (m : M A) : Prop :=
  forall s,
    count_start (history (world (m s).1)) = count_start (history (world s))
    /\ progress (world s) ⊆ progress (world (m s).1)
    /\ (ProgressKeys.submitWorkflow ∈ progress (world (m s).1) ->
        ProgressKeys.submitWorkflow ∈ progress (world s)).

Lemma submit_free_bind {A B} (m : M A) (f : A -> M B) :
  submit_free m -> (forall a, submit_free (f a)) -> submit_free (bind m f).
Proof.
  intros Hm Hf s. unfold bind.
  destruct (Hm s) as (Hc & Hp & Hs).
  destruct (m s) as [s1 [a| |]]; simpl in *; [|done..].
  destruct (Hf a s1) as (Hc' & Hp' & Hs').
  split; [congruence|]. split; [set_solver|]. auto.
Qed.

Ltac submit_free_exec :=
  intros ?; exec; (split; [done|]); (split; [set_solver|]); try done; set_solver.

Lemma submit_free_metadata self : submit_free (metadata self).
Proof. unfold metadata. submit_free_exec. Qed.

Lemma submit_free_init outdir tid0 env :
  submit_free (TaskManager_init outdir tid0 env).
Proof.
  unfold TaskManager_init, create_output_structure, get_task_path_safe,
    _create_dir_if_needed.
  submit_free_exec.
Qed.

Lemma submit_free_add_meta_infos kvs : submit_free (add_meta_infos kvs).
Proof.
  intros s. unfold add_meta_infos, with_world. simpl.
  assert (forall w,
             progress (foldl (fun w kv => upsert kv.1 kv.2 w) w kvs) = progress w
             /\ history (foldl (fun w kv => upsert kv.1 kv.2 w) w kvs) = history w)
    as Hfold.
  { induction kvs as [|kv rest IH]; intros w; simpl; [done|].
    destruct (IH (upsert kv.1 kv.2 w)) as [-> ->]. done. }
  destruct (Hfold (world s)) as [-> ->]. done.
Qed.

Lemma submit_free_prepare self wf tr v hints :
  submit_free
    (prepare_and_output_workflow_to_evaluate_if_required self wf tr v hints).
Proof.
  unfold prepare_and_output_workflow_to_evaluate_if_required.
  submit_free_exec.
Qed.

Lemma submit_free_wait_loop fuel self st : submit_free (wait_loop fuel self st).
Proof.
  revert st. induction fuel as [|fuel IH]; intros st; simpl.
  - destruct (not_final st); by intros s.
  - destruct (not_final st); [|by intros s].
    apply submit_free_bind; [apply submit_free_metadata|]. intros meta. apply IH.
Qed.

Lemma submit_free_mark k :
  k <> ProgressKeys.submitWorkflow -> submit_free (progress_mark_completed k).
Proof. intros Hk s. simpl. split; [done|]. split; set_solver. Qed.

Lemma submit_free_wait fuel self : submit_free (wait_if_required fuel self).
Proof.
  unfold wait_if_required. apply submit_free_bind; [by intros s|].
  intros [].
  - apply submit_free_bind; [apply submit_free_metadata|]. by intros _ s.
  - apply submit_free_bind; [apply submit_free_wait_loop|].
    intros _. by apply submit_free_mark.
Qed.

Lemma submit_free_save_metadata self : submit_free (save_metadata_if_required self).
Proof. unfold save_metadata_if_required. submit_free_exec. Qed.

Lemma submit_free_do_copies fs ops : submit_free (do_copies fs ops).
Proof.
  induction ops as [|op rest IH]; simpl; [by intros s|].
  apply submit_free_bind; [|by intros _]. submit_free_exec.
Qed.

Lemma submit_free_stage_output fs od name o : submit_free (stage_output fs od name o).
Proof.
  destruct o as [src|l|f|ty]; unfold stage_output;
    try apply submit_free_do_copies.
  intros s. unfold raise. simpl. split; [done|]. split; [set_solver|done].
Qed.

Lemma submit_free_for_each {A} (l : list A) (body : A -> M unit) :
  (forall x, submit_free (body x)) -> submit_free (for_each l body).
Proof.
  intros Hbody. induction l as [|x rest IH]; simpl; [by intros s|].
  apply submit_free_bind; [apply Hbody|by intros _].
Qed.

Lemma submit_free_copy_outputs self : submit_free (copy_outputs_if_required self).
Proof.
  unfold copy_outputs_if_required. apply submit_free_bind; [by intros s|].
  intros []; [by intros s|].
  apply submit_free_bind; [submit_free_exec|]. intros env.
  apply submit_free_bind; [by intros s|]. intros etid.
  apply submit_free_bind; [submit_free_exec|]. intros [|kv rest]; [by intros s|].
  apply submit_free_bind; [by intros s|]. intros v.
  apply submit_free_bind; [|intros _; by apply submit_free_mark].
  apply submit_free_for_each. intros x. apply submit_free_stage_output.
Qed.

Lemma submit_free_resume fuel self : submit_free (resume_if_possible fuel self).
Proof.
  unfold resume_if_possible. apply submit_free_bind; [by intros s|].
  intros []; simpl; [|by intros s].
  apply submit_free_bind; [apply submit_free_wait|]. intros _.
  apply submit_free_bind; [apply submit_free_save_metadata|]. intros _.
  apply submit_free_copy_outputs.
Qed.

(** What [submit_workflow_if_required] does to the start count and to the
    workflow-submitted mark: nothing at all when the step is marked;
    otherwise either it raises before reaching the engine, or it calls
    [start_from_paths] once and marks the step when, and only when, that
    call returns. *)
Definition submits_once (m : M unit) : Prop :=
  forall s,
    if bool_decide (ProgressKeys.submitWorkflow ∈ progress (world s))
    then (m s).1 = s /\ (m s).2 = Returned tt
    else
      (count_start (history (world (m s).1)) = count_start (history (world s))
       /\ progress (world (m s).1) = progress (world s)
       /\ exists msg, (m s).2 = Raised msg)
      \/ (count_start (history (world (m s).1))
          = S (count_start (history (world s)))
          /\ ((exists fn_wf fn_inp fn_deps etid,
                  head (history (world (m s).1))
                  = Some (EvStart fn_wf fn_inp fn_deps (Ok etid))
                  /\ (m s).2 = Returned tt
                  /\ progress (world (m s).1)
                     = {[ProgressKeys.submitWorkflow]} ∪ progress (world s))
              \/ (exists fn_wf fn_inp fn_deps msg,
                     head (history (world (m s).1))
                     = Some (EvStart fn_wf fn_inp fn_deps (Raise msg))
                     /\ (m s).2 = Raised msg
                     /\ progress (world (m s).1) = progress (world s)))).

Lemma submit_workflow_submits_once self wf tr :
  submits_once (submit_workflow_if_required self wf tr).
Proof.
  intros s. unfold submit_workflow_if_required. unfold_monad. simpl.
  destruct (bool_decide _) eqn:Hd; simpl; [done|].
  destruct (workflow_filename tr wf) as [n_wf|msg]; simpl; [|by eauto 10].
  destruct (inputs_filename tr wf) as [n_inp|msg]; simpl; [|by eauto 10].
  destruct (dependencies_filename tr wf) as [n_deps|msg]; simpl; [|by eauto 10].
  destruct (environment self) as [env|]; simpl; [|by eauto 10].
  destruct (engine_start_from_paths _ _ _ _ _) as [e' [etid|msg]]; simpl;
    right; (split; [done|]); [left|right]; eauto 10.
Qed.

(** One run of a pipeline "preparation, submission, follow-up". *)
Definition starts_at_most_once (m : M unit) : Prop :=
  forall s,
    progress (world s) ⊆ progress (world (m s).1)
    /\ (ProgressKeys.submitWorkflow ∈ progress (world s) ->
        count_start (history (world (m s).1)) = count_start (history (world s)))
    /\ (ProgressKeys.submitWorkflow ∉ progress (world s) ->
        (count_start (history (world (m s).1)) <= S (count_start (history (world s))))%nat
        /\ (ProgressKeys.submitWorkflow ∈ progress (world (m s).1) ->
            count_start (history (world (m s).1))
            = S (count_start (history (world s))))).

Lemma pipeline_starts_at_most_once {A} (pre : M A) (sub post : A -> M unit) :
  submit_free pre ->
  (forall a, submits_once (sub a)) ->
  (forall a, submit_free (post a)) ->
  starts_at_most_once (bind pre (fun a => bind (sub a) (fun _ => post a))).
Proof.
  intros Hpre Hsub Hpost s. unfold bind.
  destruct (Hpre s) as (C1 & P1 & S1).
  destruct (pre s) as [s1 [a| |]]; simpl in *;
    [|split; [done|]; split; [congruence|]; intros Hn; split; [lia|tauto]..].
  specialize (Hsub a s1). specialize (Hpost a).
  destruct (bool_decide_reflect (ProgressKeys.submitWorkflow ∈ progress (world s1)))
    as [Hin|Hnin].
  - destruct Hsub as [Hs Hr]. destruct (sub a s1) as [s2 r2]; simpl in *.
    subst s2 r2. destruct (Hpost s1) as (C3 & P3 & S3).
    split; [set_solver|]. split; [congruence|]. intros Hn. tauto.
  - assert (ProgressKeys.submitWorkflow ∉ progress (world s)) as Hn0 by set_solver.
    destruct Hsub as [(C2 & P2 & msg & R2)|(C2 & Hcase)];
      destruct (sub a s1) as [s2 r2]; simpl in *.
    + subst r2. simpl. rewrite P2. split; [done|]. split; [done|].
      intros _. split; [lia|]. intros Hin. tauto.
    + destruct Hcase as [(? & ? & ? & ? & _ & -> & P2)|(? & ? & ? & ? & _ & -> & P2)];
        simpl.
      * destruct (Hpost s2) as (C3 & P3 & S3).
        split; [set_solver|]. split; [done|]. intros _. split; lia.
      * split; [set_solver|]. split; [done|]. intros _. split; lia.
Qed.

(** [from_janis] up to the submission. *)
Definition from_janis_prepare (tid0 outdir : string) (wf : Workflow)
    (env : Environment) (hints : Hints)
    (validation_requirements : option ValidationRequirements)
  : M (TaskManager * option Workflow) :=
  bind (TaskManager_init outdir (Some tid0) (Some env)) (fun tm =>
  bind (add_meta_infos
          [ (InfoKeys.taskId, IStr tid0);
            (InfoKeys.status, IStatus TaskStatus.PROCESSING);
            (InfoKeys.validating,
              IBool (match validation_requirements with
                     | Some _ => true | None => false end));
            (InfoKeys.engineId, IStr (engine_id (engine env)));
            (InfoKeys.environment, IStr (env_id env)) ]) (fun _ =>
  bind (prepare_and_output_workflow_to_evaluate_if_required tm wf
          (get_translator (engine env)) validation_requirements hints)
       (fun wf_evaluate => ret (tm, wf_evaluate)))).

Lemma from_janis_split fuel tid0 outdir wf env hints v s :
  from_janis fuel tid0 outdir wf env hints v s
  = bind (from_janis_prepare tid0 outdir wf env hints v)
      (fun p => bind (submit_workflow_if_required p.1 p.2
                        (get_translator (engine env)))
                  (fun _ => resume_if_possible fuel p.1)) s.
Proof.
  unfold from_janis, from_janis_prepare, bind, ret.
  destruct (TaskManager_init _ _ _ s) as [s1 [tm| |]]; [|done..].
  destruct (add_meta_infos _ s1) as [s2 [[]| |]]; [|done..].
  by destruct (prepare_and_output_workflow_to_evaluate_if_required _ _ _ _ _ s2)
    as [s3 [wfe| |]].
Qed.

Lemma from_janis_starts_at_most_once fuel tid0 outdir wf env hints v :
  starts_at_most_once (from_janis fuel tid0 outdir wf env hints v).
Proof.
  intros s. rewrite from_janis_split.
  apply pipeline_starts_at_most_once.
  - unfold from_janis_prepare.
    apply submit_free_bind; [apply submit_free_init|]. intros tm.
    apply submit_free_bind; [apply submit_free_add_meta_infos|]. intros _.
    apply submit_free_bind; [apply submit_free_prepare|]. by intros wfe s'.
  - intros p. apply submit_workflow_submits_once.
  - intros p. apply submit_free_resume.
Qed.

Lemma run_world {A} (m : M A) w : (run m w).1 = world (m (mkState w None)).1.
Proof. unfold run. by destruct (m _). Qed.

Lemma run_outcome {A} (m : M A) w : (run m w).2 = (m (mkState w None)).2.
Proof. unfold run. by destruct (m _). Qed.

(** A pipeline that returns has its submission behind it. *)
Lemma pipeline_returned_submitted {A} (pre : M A) (sub post : A -> M unit) s :
  submit_free pre ->
  (forall a, submits_once (sub a)) ->
  (forall a, submit_free (post a)) ->
  (bind pre (fun a => bind (sub a) (fun _ => post a)) s).2 = Returned tt ->
  ProgressKeys.submitWorkflow
  ∈ progress (world (bind pre (fun a => bind (sub a) (fun _ => post a)) s).1).
Proof.
  intros Hpre Hsub Hpost. unfold bind.
  destruct (pre s) as [s1 [a| |]]; simpl; [|done..].
  specialize (Hsub a s1). specialize (Hpost a).
  destruct (bool_decide_reflect (ProgressKeys.submitWorkflow ∈ progress (world s1)))
    as [Hin|Hnin].
  - destruct Hsub as [Hs Hr]. destruct (sub a s1) as [s2 r2]; simpl in *.
    subst s2 r2. intros _. destruct (Hpost s1) as (_ & Hmono & _). set_solver.
  - destruct Hsub as [(_ & _ & msg & R2)|(_ & Hcase)];
      destruct (sub a s1) as [s2 r2]; simpl in *; [by subst r2|].
    destruct Hcase as [(? & ? & ? & ? & _ & -> & P2)|(? & ? & ? & ? & _ & -> & P2)];
      [|done].
    intros _. destruct (Hpost s2) as (_ & Hmono & _). set_solver.
Qed.

(** C1: idempotent resume.  [submit_workflow_if_required] calls the
    engine's start operation only when workflow-submitted is not marked,
    and marks it once that call has returned.  A run of [from_janis] that
    returns has the step marked.  So when [from_janis] is run twice over
    the same world, the first run over an unsubmitted Progress Record and
    getting its submission through, the start operation has been invoked
    exactly once after the first run and still exactly once after the
    second, however each run ends (returning, raising, or still polling). *)
Theorem resume_invokes_start_once :
  (forall self wf tr, submits_once (submit_workflow_if_required self wf tr))
  /\ (forall fuel tid0 outdir wf env hints v w0,
        (run (from_janis fuel tid0 outdir wf env hints v) w0).2 = Returned tt ->
        ProgressKeys.submitWorkflow
        ∈ progress (run (from_janis fuel tid0 outdir wf env hints v) w0).1)
  /\ (forall fuel1 fuel2 tid0 outdir wf env hints v w0,
        let w1 := (run (from_janis fuel1 tid0 outdir wf env hints v) w0).1 in
        let w2 := (run (from_janis fuel2 tid0 outdir wf env hints v) w1).1 in
        ProgressKeys.submitWorkflow ∉ progress w0 ->
        ProgressKeys.submitWorkflow ∈ progress w1 ->
        count_start (history w1) = S (count_start (history w0))
        /\ count_start (history w2) = S (count_start (history w0))
        /\ ProgressKeys.submitWorkflow ∈ progress w2).
Proof.
  split; [apply submit_workflow_submits_once|]. split.
  { intros fuel tid0 outdir wf env hints v w0.
    rewrite run_world, run_outcome, !from_janis_split.
    apply pipeline_returned_submitted.
    - unfold from_janis_prepare.
      apply submit_free_bind; [apply submit_free_init|]. intros tm.
      apply submit_free_bind; [apply submit_free_add_meta_infos|]. intros _.
      apply submit_free_bind; [apply submit_free_prepare|]. by intros wfe s'.
    - intros p. apply submit_workflow_submits_once.
    - intros p. apply submit_free_resume. }
  intros fuel1 fuel2 tid0 outdir wf env hints v w0 w1 w2 Hfresh Hsub.
  subst w1 w2. rewrite !run_world in *.
  destruct (from_janis_starts_at_most_once fuel1 tid0 outdir wf env hints v
              (mkState w0 None)) as (_ & _ & H1).
  destruct (H1 Hfresh) as [_ Hone]. specialize (Hone Hsub). simpl in Hone.
  split; [done|].
  set (w1 := world (from_janis fuel1 tid0 outdir wf env hints v (mkState w0 None)).1)
    in *.
  destruct (from_janis_starts_at_most_once fuel2 tid0 outdir wf env hints v
              (mkState w1 None)) as (Hmono & Hsame & _).
  simpl in *. split; [|set_solver].
  rewrite Hsame by done. done.
Qed.

(** *** The step ordering invariant *)

(** The marks respect the order of the steps; logs-saved is never set. *)
Definition ordered (P : gset ProgressKeys.t) : Prop :=
  (ProgressKeys.savedLogs ∉ P)
  /\ (ProgressKeys.copiedOutputs ∈ P -> ProgressKeys.savedMetadata ∈ P)
  /\ (ProgressKeys.savedMetadata ∈ P -> ProgressKeys.workflowMovedToFinalState ∈ P)
  /\ (ProgressKeys.workflowMovedToFinalState ∈ P -> ProgressKeys.submitWorkflow ∈ P)
  /\ (ProgressKeys.submitWorkflow ∈ P -> ProgressKeys.saveWorkflow ∈ P).

(** What a history still shows of the side effect of a step, whenever it
    happened: the translation of the workflow as it is, which returned; a
    start that returned an engine id; a metadata poll that returned a
    terminal status; a raw metadata dump that was fetched and a write of
    the metadata file that returned; a fetch of a non-empty output mapping
    all of whose planned copies returned. *)
Definition effect_done (k : ProgressKeys.t) (h : list Event) : Prop :=
  match k with
  | ProgressKeys.saveWorkflow =>
      exists wf p, EvTranslate wf false p (Ok tt) ∈ h
  | ProgressKeys.submitWorkflow =>
      exists fn_wf fn_inp fn_deps etid,
        EvStart fn_wf fn_inp fn_deps (Ok etid) ∈ h
  | ProgressKeys.workflowMovedToFinalState =>
      exists etid m,
        EvMetadata etid (Ok (Some m)) ∈ h
        /\ TaskStatus.is_final (meta_status m) = true
  | ProgressKeys.savedMetadata =>
      exists dir content etid,
        EvWriteFile (dir +:+ "metadata/metadata.json") content (Ok tt) ∈ h
        /\ EvRawMetadata etid (Ok content) ∈ h
  | ProgressKeys.copiedOutputs =>
      exists etid outs v dir,
        outs <> []
        /\ EvOutputs etid (Ok outs) ∈ h
        /\ forall op, op ∈ planned_copies v dir outs -> EvCopy op (Ok tt) ∈ h
  | ProgressKeys.savedLogs => False
  end.

Definition Inv (w : World) : Prop :=
  ordered (progress w)
  /\ forall k, k ∈ progress w -> effect_done k (history w).

Lemma effect_done_mono k h h' :
  h ⊆ h' -> effect_done k h -> effect_done k h'.
Proof.
  intros Hsub. destruct k; simpl; try done.
  - intros (wf & p & H). eauto 10.
  - intros (a & b & c & etid & H). eauto 10.
  - intros (etid & m & H & Hf). eauto 10.
  - intros (dir & c & etid & H & H'). eauto 10.
  - intros (etid & outs & v & dir & Hne & H & Hall).
    exists etid, outs, v, dir. split; [done|]. split; [auto|]. auto.
Qed.

(** Steps that leave the marks alone keep the invariant. *)
Lemma Inv_neutral w P i e h :
  Inv w -> P = progress w -> history w ⊆ h -> Inv (mkWorld P i e h).
Proof.
  intros [Hord Heff] -> Hsub. split; [done|]. simpl.
  intros k Hk. eapply effect_done_mono; eauto.
Qed.

(** Marking a step keeps the invariant when the mark before it is set and
    the effect of the step is in the history. *)
Lemma Inv_mark w k i e h :
  Inv w ->
  history w ⊆ h ->
  effect_done k h ->
  match k with
  | ProgressKeys.saveWorkflow => True
  | ProgressKeys.submitWorkflow => ProgressKeys.saveWorkflow ∈ progress w
  | ProgressKeys.workflowMovedToFinalState =>
      ProgressKeys.submitWorkflow ∈ progress w
  | ProgressKeys.savedMetadata =>
      ProgressKeys.workflowMovedToFinalState ∈ progress w
  | ProgressKeys.copiedOutputs => ProgressKeys.savedMetadata ∈ progress w
  | ProgressKeys.savedLogs => False
  end ->
  Inv (mkWorld ({[k]} ∪ progress w) i e h).
Proof.
  intros [Hord Heff] Hsub Hdone Hpre. split; simpl.
  - destruct Hord as (H0 & H1 & H2 & H3 & H4).
    destruct k; try done; repeat split; set_solver.
  - intros k' [->%elem_of_singleton|Hk']%elem_of_union; [done|].
    eapply effect_done_mono; eauto.
Qed.

(** A Hoare triple over the invariant: from a state that satisfies [Inv]
    and [P], the method ends in a state that satisfies [Inv], and [Q] too
    when it returns. *)
Definition keeps {A} (P : State -> Prop) (m : M A) (Q : State -> Prop) : Prop :=
  forall s,
    Inv (world s) -> P s ->
    Inv (world (m s).1) /\ forall a, (m s).2 = Returned a -> Q (m s).1.

Lemma keeps_bind {A B} P Q R (m : M A) (f : A -> M B) :
  keeps P m Q -> (forall a, keeps Q (f a) R) -> keeps P (bind m f) R.
Proof.
  intros Hm Hf s HI HP. unfold bind.
  destruct (Hm s HI HP) as [HI1 HQ].
  destruct (m s) as [s1 [a| |]]; simpl in *; [|done..].
  apply (Hf a s1 HI1). by apply (HQ a).
Qed.

Lemma keeps_weaken {A} (P P' Q Q' : State -> Prop) (m : M A) :
  keeps P m Q -> (forall s, P' s -> P s) -> (forall s, Q s -> Q' s) ->
  keeps P' m Q'.
Proof.
  intros Hm HP HQ s HI HP'. destruct (Hm s HI (HP s HP')) as [HI1 H].
  split; [done|]. intros a Ha. apply HQ. by apply (H a).
Qed.

Definition marked (k : ProgressKeys.t) (s : State) : Prop :=
  k ∈ progress (world s).

Definition any (s : State) : Prop := True.

(** A computation that leaves the marks alone and only adds to the
    history. *)
Definition neutral {A} (m : M A) : Prop :=
  forall s,
    progress (world (m s).1) = progress (world s)
    /\ history (world s) ⊆ history (world (m s).1).

Definition stable (P : State -> Prop) : Prop :=
  forall s s', progress (world s') = progress (world s) -> P s -> P s'.

Lemma stable_marked k : stable (marked k).
Proof. intros s s' Hp. unfold marked. by rewrite Hp. Qed.

Lemma stable_any : stable any.
Proof. done. Qed.

Lemma keeps_neutral {A} P (m : M A) : neutral m -> stable P -> keeps P m P.
Proof.
  intros Hn HP s HI HPs. destruct (Hn s) as [Hp Hh]. split.
  - destruct (world (m s).1) as [P' i e h]. simpl in *.
    by apply (Inv_neutral (world s)).
  - intros _ _. by apply (HP s).
Qed.

Lemma neutral_bind {A B} (m : M A) (f : A -> M B) :
  neutral m -> (forall a, neutral (f a)) -> neutral (bind m f).
Proof.
  intros Hm Hf s. unfold bind. destruct (Hm s) as [Hp Hh].
  destruct (m s) as [s1 [a| |]]; simpl in *; [|done..].
  destruct (Hf a s1) as [Hp' Hh']. split; [congruence|set_solver].
Qed.

Ltac neutral_exec := intros ?; exec; (split; [done|set_solver]).

Ltac exec_inv :=
  exec; unfold mark, record, upsert, marked in *; simpl in *;
  repeat match goal with x : unit |- _ => destruct x end;
  repeat match goal with
         | H : bool_decide _ = true |- _ => apply bool_decide_eq_true in H
         | H : bool_decide _ = false |- _ => apply bool_decide_eq_false in H
         end.

Ltac inv_leaf :=
  split;
  [ first [ eassumption
          | eapply Inv_neutral; [eassumption|reflexivity|set_solver]
          | eapply Inv_mark;
            [ eassumption | set_solver
            | simpl; eauto 10 using list_elem_of_here, list_elem_of_further
            | simpl; try done ] ]
  | intros; simpl; try done; try set_solver ].

Lemma neutral_metadata self : neutral (metadata self).
Proof. unfold metadata. neutral_exec. Qed.

Lemma neutral_init outdir tid0 env : neutral (TaskManager_init outdir tid0 env).
Proof.
  unfold TaskManager_init, create_output_structure, get_task_path_safe,
    _create_dir_if_needed.
  neutral_exec.
Qed.

Lemma neutral_add_meta_infos kvs : neutral (add_meta_infos kvs).
Proof.
  intros s. unfold add_meta_infos, with_world. simpl.
  assert (forall w,
             progress (foldl (fun w kv => upsert kv.1 kv.2 w) w kvs) = progress w
             /\ history (foldl (fun w kv => upsert kv.1 kv.2 w) w kvs) = history w)
    as Hfold.
  { induction kvs as [|kv rest IH]; intros w; simpl; [done|].
    destruct (IH (upsert kv.1 kv.2 w)) as [-> ->]. done. }
  destruct (Hfold (world s)) as [-> ->]. done.
Qed.

Lemma neutral_do_copies fs ops : neutral (do_copies fs ops).
Proof.
  induction ops as [|op rest IH]; simpl; [by intros s|].
  apply neutral_bind; [neutral_exec|by intros _].
Qed.

Lemma neutral_stage_loop fs v od vd outs : neutral (stage_loop fs v od vd outs).
Proof.
  induction outs as [|[name o] rest IH]; simpl; [by intros s|].
  apply neutral_bind; [|by intros _].
  destruct o as [src|l|f|ty]; unfold stage_output; try apply neutral_do_copies.
  by intros s.
Qed.

Lemma keeps_prepare self wf tr v hints :
  keeps any (prepare_and_output_workflow_to_evaluate_if_required self wf tr v hints)
    (marked ProgressKeys.saveWorkflow).
Proof.
  intros s HI _. unfold prepare_and_output_workflow_to_evaluate_if_required.
  exec_inv; inv_leaf.
Qed.

Lemma keeps_submit self wf tr :
  keeps (marked ProgressKeys.saveWorkflow)
    (submit_workflow_if_required self wf tr)
    (marked ProgressKeys.submitWorkflow).
Proof.
  intros s HI HP. unfold submit_workflow_if_required.
  exec_inv; inv_leaf.
Qed.

Lemma keeps_save_metadata self :
  keeps (marked ProgressKeys.workflowMovedToFinalState)
    (save_metadata_if_required self)
    (marked ProgressKeys.savedMetadata).
Proof.
  intros s HI HP. unfold save_metadata_if_required.
  exec_inv; inv_leaf.
Qed.

Lemma metadata_returned self s m :
  (metadata self s).2 = Returned (Some m) ->
  exists etid raw,
    EvMetadata etid (Ok (Some raw)) ∈ history (world (metadata self s).1)
    /\ meta_status m = meta_status raw.
Proof.
  unfold metadata. exec; intros [= <-]; eexists _, _; split;
    first [apply list_elem_of_here|done].
Qed.

Lemma wait_loop_spec fuel self st s :
  (not_final st = false ->
   effect_done ProgressKeys.workflowMovedToFinalState (history (world s))) ->
  progress (world (wait_loop fuel self st s).1) = progress (world s)
  /\ history (world s) ⊆ history (world (wait_loop fuel self st s).1)
  /\ (forall a, (wait_loop fuel self st s).2 = Returned a ->
      effect_done ProgressKeys.workflowMovedToFinalState
        (history (world (wait_loop fuel self st s).1))).
Proof.
  revert st s. induction fuel as [|fuel IH]; intros st s Hst; simpl.
  - destruct (not_final st); simpl; [done|].
    split; [done|]. split; [done|]. intros _ _. by apply Hst.
  - destruct (not_final st) eqn:Hnf; simpl;
      [|split; [done|]; split; [done|]; intros _ _; by apply Hst].
    unfold bind.
    destruct (neutral_metadata self s) as [Hp Hh].
    pose proof (metadata_returned self s) as Hret.
    destruct (metadata self s) as [s1 [meta| |]]; simpl in *; [|done..].
    match goal with |- context [wait_loop fuel self ?st1 s1] =>
      destruct (IH st1 s1) as (Hp' & Hh' & Hdone) end.
    { destruct meta as [m|]; simpl; [|by rewrite Hnf].
      intros Hfin. destruct (Hret m eq_refl) as (etid & raw & Hin & Hstat).
      exists etid, raw. split; [done|]. rewrite <- Hstat.
      by apply negb_false_iff. }
    split; [congruence|]. split; [set_solver|done].
Qed.

Lemma Inv_grow w w' :
  Inv w -> progress w' = progress w -> history w ⊆ history w' -> Inv w'.
Proof.
  intros HI Hp Hh. destruct w' as [P i e h]. simpl in *.
  by apply (Inv_neutral w).
Qed.

Lemma keeps_wait fuel self :
  keeps (marked ProgressKeys.submitWorkflow) (wait_if_required fuel self)
    (marked ProgressKeys.workflowMovedToFinalState).
Proof.
  intros s HI HP.
  assert (wait_if_required fuel self s
          = if bool_decide (ProgressKeys.workflowMovedToFinalState
                              ∈ progress (world s))
            then bind (metadata self) (fun _ => ret tt) s
            else bind (wait_loop fuel self None)
                   (fun _ => progress_mark_completed
                               ProgressKeys.workflowMovedToFinalState) s)
    as ->.
  { unfold wait_if_required. unfold bind at 1. unfold progress_has_completed.
    by destruct (bool_decide _). }
  destruct (bool_decide_reflect
              (ProgressKeys.workflowMovedToFinalState ∈ progress (world s)))
    as [Hin|Hnin].
  - refine (keeps_bind (marked ProgressKeys.workflowMovedToFinalState)
              (marked ProgressKeys.workflowMovedToFinalState) _ _ _ _ _ s HI Hin).
    + apply keeps_neutral; [apply neutral_metadata|apply stable_marked].
    + intros _ s1 HI1 H1. by split.
  - unfold bind.
    destruct (wait_loop_spec fuel self None s) as (Hp & Hh & Hdone); [done|].
    destruct (wait_loop fuel self None s) as [s1 [[]| |]]; simpl in *.
    + assert (Inv (world s1)) as HI1 by by apply (Inv_grow (world s)).
      split.
      * apply (Inv_mark (world s1)); try done; [by apply (Hdone tt)|].
        unfold marked in HP. by rewrite Hp.
      * intros _ _. unfold marked. simpl. set_solver.
    + split; [|done]. by apply (Inv_grow (world s)).
    + split; [|done]. by apply (Inv_grow (world s)).
Qed.

Lemma keeps_copy_outputs self :
  keeps (marked ProgressKeys.savedMetadata) (copy_outputs_if_required self) any.
Proof.
  intros s HI HP. split; [|done].
  destruct (decide (ProgressKeys.copiedOutputs ∈ progress (world s))) as [Hin|Hnin].
  { unfold copy_outputs_if_required. unfold_monad.
    by rewrite bool_decide_eq_true_2. }
  destruct (environment self) as [env|] eqn:Henv.
  2: { unfold copy_outputs_if_required. unfold_monad.
       rewrite bool_decide_eq_false_2, Henv by done. done. }
  destruct (engine_outputs_task (engine env) (engine_tid_of s) (outside (world s)))
    as [e' [outs|msg]] eqn:Hfetch.
  2: { unfold copy_outputs_if_required. unfold_monad.
       rewrite bool_decide_eq_false_2, Henv by done. simpl. rewrite Hfetch.
       simpl. apply (Inv_neutral (world s)); [done..|set_solver]. }
  rewrite (copy_outputs_unfold self env s e' outs) by done.
  assert (Inv (world (after_fetch s e' outs))) as HI1.
  { apply (Inv_neutral (world s)); [done..|set_solver]. }
  destruct outs as [|kv rest] eqn:Houts; [done|]. rewrite <- Houts in *.
  assert (outs <> []) as Hne by (by rewrite Houts).
  clear Houts.
  set (v := info_truthy (info (world s) !! InfoKeys.validating)).
  pose proof (neutral_stage_loop (filescheme env) v
    (get_task_path self +:+ "outputs/") (get_task_path self +:+ "validation/")
    outs (after_fetch s e' outs)) as [Hp Hh].
  pose proof (stage_loop_returned (filescheme env) v
    (get_task_path self +:+ "outputs/") (get_task_path self +:+ "validation/")
    outs (after_fetch s e' outs)) as Hret.
  unfold bind.
  destruct (for_each outs _ (after_fetch s e' outs)) as [s2 [[]| |]];
    simpl in *; [|by apply (Inv_grow (world (after_fetch s e' outs)))..].
  assert (Inv (world s2)) as HI2
    by by apply (Inv_grow (world (after_fetch s e' outs))).
  destruct Hret as [Hhist _]; [done|].
  apply (Inv_mark (world s2)); [done|done| |unfold marked in HP; by rewrite Hp].
  exists (engine_tid_of s), outs, v, (get_task_path self).
  split; [done|]. split.
  - apply Hh. apply list_elem_of_here.
  - intros op Hop. rewrite Hhist. apply elem_of_app. left.
    apply elem_of_reverse. change (EvCopy op (Ok tt)) with (ok_copy op).
    apply list_elem_of_In, in_map. by apply list_elem_of_In.
Qed.

Lemma keeps_resume fuel self : keeps any (resume_if_possible fuel self) any.
Proof.
  intros s HI _. split; [|done].
  assert (resume_if_possible fuel self s
          = if bool_decide (ProgressKeys.submitWorkflow ∈ progress (world s))
            then bind (wait_if_required fuel self)
                   (fun _ => bind (save_metadata_if_required self)
                               (fun _ => copy_outputs_if_required self)) s
            else (s, Returned tt)) as ->.
  { unfold resume_if_possible. unfold bind at 1. unfold progress_has_completed.
    by destruct (bool_decide _). }
  destruct (bool_decide_reflect (ProgressKeys.submitWorkflow ∈ progress (world s)))
    as [Hin|Hnin]; [|done].
  refine (proj1 (keeps_bind _ _ any _ _ (keeps_wait fuel self) _ s HI Hin)).
  intros _. eapply keeps_bind; [apply keeps_save_metadata|].
  intros _. apply keeps_copy_outputs.
Qed.

Lemma keeps_from_janis fuel tid0 outdir wf env hints v :
  keeps any (from_janis fuel tid0 outdir wf env hints v) any.
Proof.
  unfold from_janis.
  eapply keeps_bind;
    [apply (keeps_neutral any); [apply neutral_init|apply stable_any]|].
  intros tm. eapply keeps_bind;
    [apply (keeps_neutral any); [apply neutral_add_meta_infos|apply stable_any]|].
  intros _. eapply keeps_bind; [apply keeps_prepare|].
  intros wfe. eapply keeps_bind; [apply keeps_submit|].
  intros _. eapply keeps_weaken; [apply keeps_resume|done..].
Qed.

Lemma neutral_from_path path0 : neutral (from_path path0).
Proof.
  unfold from_path.
  apply neutral_bind; [by intros s|]. intros tid0.
  apply neutral_bind; [by intros s|]. intros envid.
  apply neutral_bind; [neutral_exec|]. intros env.
  apply neutral_init.
Qed.

Lemma keeps_resume_from_path fuel path0 :
  keeps any (resume_from_path fuel path0) any.
Proof.
  unfold resume_from_path.
  eapply keeps_bind;
    [apply (keeps_neutral any); [apply neutral_from_path|apply stable_any]|].
  intros tm. apply keeps_resume.
Qed.

(** *** A step is marked last *)

(** Open the monad in the goal. *)
Ltac open_monad :=
  unfold bind, ret, raise, lift, call, with_world, progress_has_completed,
    progress_mark_completed, get_meta_info, add_meta_info, add_meta_infos,
    set_engine_tid, get_engine_tid, the_environment.

(** One poll of [metadata] that returns: the history gains the engine call
    with what the engine answered, and the status handed on is the status
    the engine reported. *)
Lemma metadata_poll self s s1 meta :
  metadata self s = (s1, Returned meta) ->
  exists etid raw,
    history (world s1) = EvMetadata etid (Ok raw) :: history (world s)
    /\ progress (world s1) = progress (world s)
    /\ info (world s1) = info (world s)
    /\ meta_status <$> meta = meta_status <$> raw.
Proof.
  unfold metadata. exec; intros [= <- <-]; eexists _, _; done.
Qed.

(** A poll that does not end the wait: the engine answered without raising,
    and either reported nothing or reported a status that is not final. *)
Definition pending_poll (ev : Event) : Prop :=
  exists etid r,
    ev = EvMetadata etid (Ok r)
    /\ forall m, r = Some m -> TaskStatus.is_final (meta_status m) = false.

Lemma wait_loop_polls fuel self st s :
  not_final st = true ->
  (wait_loop fuel self st s).2 = Returned tt ->
  exists etid m earlier,
    history (world (wait_loop fuel self st s).1)
    = EvMetadata etid (Ok (Some m)) :: earlier ++ history (world s)
    /\ TaskStatus.is_final (meta_status m) = true
    /\ Forall pending_poll earlier
    /\ (length earlier < fuel)%nat
    /\ progress (world (wait_loop fuel self st s).1) = progress (world s).
Proof.
  revert st s. induction fuel as [|fuel IH]; intros st s Hst; simpl;
    rewrite Hst; [done|].
  unfold bind.
  pose proof (metadata_poll self s) as Hpoll.
  destruct (metadata self s) as [s1 [meta| |]]; simpl; [|done..].
  destruct (Hpoll s1 meta eq_refl) as (etid & raw & Hh & Hp & _ & Hstat).
  set (st1 := match meta with Some m => Some (meta_status m) | None => st end).
  destruct (not_final st1) eqn:Hnf.
  - intros Hret. destruct (IH st1 s1 Hnf Hret)
      as (etid' & m & earlier & Hh' & Hfin & Hall & Hlen & Hp').
    exists etid', m, (earlier ++ [EvMetadata etid (Ok raw)]).
    split; [by rewrite Hh', Hh, <- app_assoc|].
    split; [done|]. split.
    + apply Forall_app. split; [done|]. apply Forall_singleton.
      exists etid, raw. split; [done|]. intros m' ->.
      destruct meta as [m0|]; [|done]. simpl in Hstat. simplify_eq.
      subst st1. simpl in Hnf. rewrite <- Hstat.
      by apply negb_true_iff in Hnf.
    + split; [rewrite length_app; simpl; lia|congruence].
  - intros _.
    assert (wait_loop fuel self st1 s1 = (s1, Returned tt)) as ->.
    { destruct fuel; simpl; by rewrite Hnf. }
    simpl. destruct meta as [m0|]; [|subst st1; congruence].
    destruct raw as [m|]; [|done]. simpl in Hstat. simplify_eq.
    exists etid, m, []. simpl. split; [done|].
    split; [subst st1; simpl in Hnf; rewrite <- Hstat;
            by apply negb_false_iff in Hnf|].
    split; [done|]. split; [lia|done].
Qed.

Lemma wait_loop_progress fuel self st s :
  progress (world (wait_loop fuel self st s).1) = progress (world s).
Proof using Type.
  revert st s. induction fuel as [|fuel IH]; intros st s; simpl;
    destruct (not_final st); try done.
  unfold bind. destruct (metadata_frame self s) as (Hp & _).
  destruct (metadata self s) as [s1 [meta| |]]; simpl in *; [|done..].
  by rewrite IH.
Qed.

(** A step marks its flag only after its side effects: from a state in
    which [k] is not marked, if [k] is marked when the method is over, then
    the method has returned, [k] is the one mark it added, and what the
    history gained is [effects], the calls of the step, each of which
    returned without raising.  So a call of the step that raises, or a wait
    that is still going on, leaves [k] unmarked. *)
Definition marks_only_after {A} (k : ProgressKeys.t) (m : M A)
    (effects : State -> list Event -> Prop) : Prop :=
  forall s,
    k ∉ progress (world s) ->
    k ∈ progress (world (m s).1) ->
    (exists a, (m s).2 = Returned a)
    /\ progress (world (m s).1) = {[k]} ∪ progress (world s)
    /\ exists evs,
        history (world (m s).1) = evs ++ history (world s) /\ effects s evs.

Lemma prepare_marks_last self wf tr v hints :
  marks_only_after ProgressKeys.saveWorkflow
    (prepare_and_output_workflow_to_evaluate_if_required self wf tr v hints)
    (fun _ evs =>
       evs = match v with
             | Some v' =>
                 [EvTranslate (generate_validation_workflow_from_janis wf v')
                    true (outdir_workflow self) (Ok tt)]
             | None => []
             end
             ++ [EvTranslate wf false (outdir_workflow self) (Ok tt)]).
Proof using Type.
  intros s Hnot. unfold prepare_and_output_workflow_to_evaluate_if_required.
  open_monad. simpl. rewrite bool_decide_eq_false_2 by done.
  destruct (translate tr wf false false hints _ _) as [e1 [[]|msg]]; simpl;
    [|by intros ?].
  destruct v as [v'|]; simpl.
  - destruct (translate tr _ true true hints _ _) as [e2 [[]|msg]]; simpl;
      [|by intros ?].
    intros _. split; [by eauto|]. split; [done|].
    eexists. (split; [|reflexivity]); reflexivity.
  - intros _. split; [by eauto|]. split; [done|].
    eexists. (split; [|reflexivity]); reflexivity.
Qed.

Lemma submit_marks_last self wf tr :
  marks_only_after ProgressKeys.submitWorkflow
    (submit_workflow_if_required self wf tr)
    (fun _ evs =>
       exists n_wf n_inp n_deps etid,
         workflow_filename tr wf = Ok n_wf
         /\ inputs_filename tr wf = Ok n_inp
         /\ dependencies_filename tr wf = Ok n_deps
         /\ evs = [EvStart (outdir_workflow self +:+ n_wf)
                     (outdir_workflow self +:+ n_inp)
                     (outdir_workflow self +:+ n_deps) (Ok etid)]).
Proof using Type.
  intros s Hnot. unfold submit_workflow_if_required.
  open_monad. simpl. rewrite bool_decide_eq_false_2 by done.
  destruct (workflow_filename tr wf) as [n_wf|]; simpl; [|by intros ?].
  destruct (inputs_filename tr wf) as [n_inp|]; simpl; [|by intros ?].
  destruct (dependencies_filename tr wf) as [n_deps|]; simpl; [|by intros ?].
  destruct (environment self) as [env|]; simpl; [|by intros ?].
  destruct (engine_start_from_paths _ _ _ _ _) as [e' [etid|msg]]; simpl;
    [|by intros ?].
  intros _. split; [by eauto|]. split; [done|].
  eexists. (split; [|by eexists _, _, _, _]); reflexivity.
Qed.

Lemma wait_marks_last fuel self :
  marks_only_after ProgressKeys.workflowMovedToFinalState
    (wait_if_required fuel self)
    (fun _ evs =>
       exists etid m earlier,
         evs = EvMetadata etid (Ok (Some m)) :: earlier
         /\ TaskStatus.is_final (meta_status m) = true
         /\ Forall pending_poll earlier).
Proof using Type.
  intros s Hnot.
  assert (wait_if_required fuel self s
          = bind (wait_loop fuel self None)
              (fun _ => progress_mark_completed
                          ProgressKeys.workflowMovedToFinalState) s) as ->.
  { unfold wait_if_required. unfold bind at 1. unfold progress_has_completed.
    by rewrite bool_decide_eq_false_2. }
  unfold bind.
  pose proof (wait_loop_polls fuel self None s eq_refl) as Hloop.
  pose proof (wait_loop_progress fuel self None s) as Hp.
  destruct (wait_loop fuel self None s) as [s1 [[]| |]]; simpl in *;
    [|intros Hin; by rewrite Hp in Hin..].
  intros _.
  destruct (Hloop eq_refl) as (etid & m & earlier & Hh & Hfin & Hall & _ & _).
  split; [by eauto|]. split; [by rewrite Hp|].
  exists (EvMetadata etid (Ok (Some m)) :: earlier).
  split; [done|]. by exists etid, m, earlier.
Qed.

Lemma save_metadata_marks_last self :
  marks_only_after ProgressKeys.savedMetadata
    (save_metadata_if_required self)
    (fun _ evs =>
       exists etid meta,
         evs = [ EvWriteFile (get_task_path self +:+ "metadata/metadata.json")
                   meta (Ok tt);
                 EvRawMetadata etid (Ok meta) ]).
Proof using Type.
  intros s Hnot. unfold save_metadata_if_required.
  open_monad. simpl. rewrite bool_decide_eq_false_2 by done.
  destruct (environment self) as [env|]; simpl; [|by intros ?].
  destruct (engine_is_Cromwell (engine env)); simpl; [|by intros ?].
  destruct (engine_raw_metadata _ _ _) as [e1 [meta|msg]]; simpl; [|by intros ?].
  destruct (dump_json _ _ _) as [e2 [[]|msg]]; simpl; [|by intros ?].
  intros _. split; [by eauto|]. split; [done|].
  eexists. (split; [|by eexists _, _]); reflexivity.
Qed.

Lemma copy_outputs_marks_last self :
  marks_only_after ProgressKeys.copiedOutputs
    (copy_outputs_if_required self)
    (fun s evs =>
       exists etid outs,
         outs <> []
         /\ evs = reverse
                    (map ok_copy
                       (planned_copies
                          (info_truthy (info (world s) !! InfoKeys.validating))
                          (get_task_path self) outs))
                  ++ [EvOutputs etid (Ok outs)]).
Proof using Type.
  intros s Hnot.
  destruct (environment self) as [env|] eqn:Henv.
  2: { unfold copy_outputs_if_required. open_monad.
       rewrite bool_decide_eq_false_2, Henv by done. by intros ?. }
  destruct (engine_outputs_task (engine env) (engine_tid_of s) (outside (world s)))
    as [e' [outs|msg]] eqn:Hfetch.
  2: { unfold copy_outputs_if_required. open_monad.
       rewrite bool_decide_eq_false_2, Henv by done. simpl. rewrite Hfetch.
       simpl. by intros ?. }
  rewrite (copy_outputs_unfold self env s e' outs) by done.
  destruct outs as [|kv rest] eqn:Houts; [by intros ?|]. rewrite <- Houts in *.
  assert (outs <> []) as Hne by (by rewrite Houts).
  clear Houts.
  set (v := info_truthy (info (world s) !! InfoKeys.validating)).
  pose proof (stage_loop_frame (filescheme env) v
    (get_task_path self +:+ "outputs/") (get_task_path self +:+ "validation/")
    outs (after_fetch s e' outs)) as (Hp & _ & _).
  pose proof (stage_loop_returned (filescheme env) v
    (get_task_path self +:+ "outputs/") (get_task_path self +:+ "validation/")
    outs (after_fetch s e' outs)) as Hret.
  unfold bind.
  destruct (for_each outs _ (after_fetch s e' outs)) as [s2 [[]| |]];
    simpl in *; [|intros Hin; by rewrite Hp in Hin..].
  intros _. destruct Hret as [Hhist _]; [done|].
  split; [by eauto|]. split; [by rewrite Hp|].
  eexists. split; [|exists (engine_tid_of s), outs; split; [done|reflexivity]].
  rewrite Hhist. by rewrite <- app_assoc.
Qed.

(** The worlds the orchestrator can bring about: starting from an empty
    Progress Record and an empty history, any number of runs of
    [from_janis] and of [from_path] followed by [resume_if_possible], with
    any arguments, each run ending as it may. *)
Inductive reachable : World -> Prop :=
| reach_empty e : reachable (mkWorld ∅ ∅ e [])
| reach_from_janis w fuel tid0 outdir wf env hints v :
    reachable w ->
    reachable (run (from_janis fuel tid0 outdir wf env hints v) w).1
| reach_resume w fuel path0 :
    reachable w ->
    reachable (run (resume_from_path fuel path0) w).1.

Lemma reachable_Inv w : reachable w -> Inv w.
Proof.
  induction 1 as [e|w fuel tid0 outdir wf env hints v _ IH|w fuel path0 _ IH].
  - split; simpl; [|set_solver]. repeat split; set_solver.
  - rewrite run_world.
    by apply (keeps_from_janis fuel tid0 outdir wf env hints v (mkState w None)).
  - rewrite run_world.
    by apply (keeps_resume_from_path fuel path0 (mkState w None)).
Qed.

(** C2: the step ordering invariant.  In every reachable world,
    outputs-copied marked implies workflow-submitted and
    reached-final-state marked; more, the marks are closed downwards along
    workflow-saved, workflow-submitted, reached-final-state, metadata-saved,
    outputs-copied, and every marked step has left its returned side effect
    in the history.  And each of the five steps sets its flag last: when a
    step that was not marked is marked afterwards, the method has returned,
    and between the state before and the mark lie exactly the calls of the
    step, every one of which returned without raising: the translations
    (two when validating), the start, the polls up to the first final
    status, the fetch and the write of the metadata dump, the fetch of the
    outputs and their copies. *)
Theorem step_ordering_invariant :
  (forall w,
      reachable w ->
      (ProgressKeys.copiedOutputs ∈ progress w ->
       ProgressKeys.submitWorkflow ∈ progress w
       /\ ProgressKeys.workflowMovedToFinalState ∈ progress w)
      /\ ordered (progress w)
      /\ (forall k, k ∈ progress w -> effect_done k (history w)))
  /\ (forall self wf tr v hints,
        marks_only_after ProgressKeys.saveWorkflow
          (prepare_and_output_workflow_to_evaluate_if_required self wf tr v hints)
          (fun _ evs =>
             evs = match v with
                   | Some v' =>
                       [EvTranslate
                          (generate_validation_workflow_from_janis wf v')
                          true (outdir_workflow self) (Ok tt)]
                   | None => []
                   end
                   ++ [EvTranslate wf false (outdir_workflow self) (Ok tt)]))
  /\ (forall self wf tr,
        marks_only_after ProgressKeys.submitWorkflow
          (submit_workflow_if_required self wf tr)
          (fun _ evs =>
             exists n_wf n_inp n_deps etid,
               workflow_filename tr wf = Ok n_wf
               /\ inputs_filename tr wf = Ok n_inp
               /\ dependencies_filename tr wf = Ok n_deps
               /\ evs = [EvStart (outdir_workflow self +:+ n_wf)
                           (outdir_workflow self +:+ n_inp)
                           (outdir_workflow self +:+ n_deps) (Ok etid)]))
  /\ (forall fuel self,
        marks_only_after ProgressKeys.workflowMovedToFinalState
          (wait_if_required fuel self)
          (fun _ evs =>
             exists etid m earlier,
               evs = EvMetadata etid (Ok (Some m)) :: earlier
               /\ TaskStatus.is_final (meta_status m) = true
               /\ Forall pending_poll earlier))
  /\ (forall self,
        marks_only_after ProgressKeys.savedMetadata
          (save_metadata_if_required self)
          (fun _ evs =>
             exists etid meta,
               evs = [ EvWriteFile
                         (get_task_path self +:+ "metadata/metadata.json")
                         meta (Ok tt);
                       EvRawMetadata etid (Ok meta) ]))
  /\ (forall self,
        marks_only_after ProgressKeys.copiedOutputs
          (copy_outputs_if_required self)
          (fun s evs =>
             exists etid outs,
               outs <> []
               /\ evs = reverse
                          (map ok_copy
                             (planned_copies
                                (info_truthy
                                   (info (world s) !! InfoKeys.validating))
                                (get_task_path self) outs))
                        ++ [EvOutputs etid (Ok outs)])).
Proof.
  split.
  { intros w Hr. destruct (reachable_Inv w Hr) as [Hord Heff].
    split; [|done].
    destruct Hord as (_ & H1 & H2 & H3 & _). auto. }
  split; [apply prepare_marks_last|].
  split; [apply submit_marks_last|].
  split; [apply wait_marks_last|].
  split; [apply save_metadata_marks_last|apply copy_outputs_marks_last].
Qed.

(** ** Further facts about the orchestrator *)

(** *** Task paths *)

(** X10: [get_task_path_for] normalises a path to end with a slash.  Its
    result always ends with ["/"]; applying it a second time changes
    nothing; and it hands the path back as it is exactly when the path
    already ends with ["/"], so a slash is never doubled. *)
Theorem get_task_path_for_normalises (outdir : string) :
  PyStr.endswith (get_task_path_for outdir) "/" = true
  /\ get_task_path_for (get_task_path_for outdir) = get_task_path_for outdir
  /\ (get_task_path_for outdir = outdir <-> PyStr.endswith outdir "/" = true).
Proof using Type.
  unfold get_task_path_for.
  destruct (PyStr.endswith outdir "/") eqn:He.
  - rewrite !string_app_nil_r, ?He, ?string_app_nil_r. done.
  - rewrite endswith_append, ?string_app_nil_r.
    split; [done|]. split; [done|]. split; [|done].
    intros H. rewrite <- H in He. by rewrite endswith_append in He.
Qed.

(** *** The constructor *)

(** X11: a [TaskManager] built without an environment.  The constructor
    touches neither the marks nor the stored informational keys.  It raises
    the [Couldn't get environment] exception, naming the task id, when no
    truthy environment id is stored; it raises what the environment lookup
    raises; and otherwise it returns.  The environment that was looked up is
    dropped: the object it returns has none, so resuming a submitted task
    with it stops with an [AttributeError] at the first use of the engine and
    leaves the state as it was. *)
Theorem init_without_environment_drops_it outdir tid0 s :
  let r := TaskManager_init outdir tid0 None s in
  let tid1 := if opt_truthy tid0 then tid0
              else info_str (info (world s) !! InfoKeys.engine_tid) in
  progress (world r.1) = progress (world s)
  /\ info (world r.1) = info (world s)
  /\ r.2 = (if info_truthy (info (world s) !! InfoKeys.environment) then
              match get_predefined_environment_by_id
                      (info (world s) !! InfoKeys.environment) with
              | Ok _ => Returned (mkTaskManager tid1 outdir None)
              | Raise msg => Raised msg
              end
            else Raised ("Couldn't get environment from DB for task id: '"
                         +:+ fmt_opt tid1 +:+ "'"))
  /\ forall tm fuel s',
      r.2 = Returned tm ->
      ProgressKeys.submitWorkflow ∈ progress (world s') ->
      resume_if_possible (S fuel) tm s'
      = (s', Raised "'NoneType' object has no attribute 'engine'").
Proof using Type.
  intros r tid1. subst r tid1.
  unfold TaskManager_init, create_output_structure, get_task_path_safe,
    _create_dir_if_needed, engine_tid_of.
  open_monad. simpl.
  destruct (opt_truthy tid0) eqn:Ht; simpl;
    (destruct (info_truthy _) eqn:Hi; simpl;
     [destruct (get_predefined_environment_by_id _) as [o|msg]; simpl|]);
    (split; [done|]; split; [done|]; split; [done|]);
    intros tm fuel s' Htm Hsub; simplify_eq;
    unfold resume_if_possible, wait_if_required, metadata;
    open_monad; simpl;
    rewrite (bool_decide_eq_true_2 _ Hsub); simpl;
    destruct (bool_decide _); simpl; done.
Qed.

(** X12: a [TaskManager] built with an environment.  When the constructor
    returns, the object carries the environment and the output directory it
    was given, and the task id it was given or, when that is empty, the
    stored engine task id; the marks and informational keys are as they
    were, and the history has gained the seven directory checks only: the
    task path, the five folders under it, and the task path again. *)
Theorem init_with_environment outdir tid0 env s tm :
  let r := TaskManager_init outdir tid0 (Some env) s in
  let p := get_task_path_for outdir in
  r.2 = Returned tm ->
  tm = mkTaskManager
         (if opt_truthy tid0 then tid0
          else info_str (info (world s) !! InfoKeys.engine_tid))
         outdir (Some env)
  /\ progress (world r.1) = progress (world s)
  /\ info (world r.1) = info (world s)
  /\ history (world r.1)
     = EvEnsureDir p
       :: reverse (map (fun f => EvEnsureDir (p +:+ f)) folders)
       ++ EvEnsureDir p :: history (world s).
Proof using Type.
  intros r p. subst r p.
  unfold TaskManager_init, create_output_structure, get_task_path_safe,
    _create_dir_if_needed, engine_tid_of.
  open_monad. simpl.
  destruct (opt_truthy tid0) eqn:Ht; simpl; by intros [= <-].
Qed.

(** *** Resuming *)

(** X13: resuming a task whose four steps are all marked.  The engine is
    still asked for the task's metadata, once, with the stored engine task
    id, and nothing else happens: no start, no raw metadata dump, no outputs
    fetch, no copy, no mark.  The run returns when that one call answers and
    raises what the call raises. *)
Theorem resume_of_finished_task fuel self env s :
  environment self = Some env ->
  ProgressKeys.submitWorkflow ∈ progress (world s) ->
  ProgressKeys.workflowMovedToFinalState ∈ progress (world s) ->
  ProgressKeys.savedMetadata ∈ progress (world s) ->
  ProgressKeys.copiedOutputs ∈ progress (world s) ->
  let r := resume_if_possible fuel self s in
  let poll := engine_metadata (engine env) (engine_tid_of s) (outside (world s)) in
  history (world r.1)
  = EvMetadata (engine_tid_of s) poll.2 :: history (world s)
  /\ progress (world r.1) = progress (world s)
  /\ info (world r.1) = info (world s)
  /\ outside (world r.1) = poll.1
  /\ r.2 = match poll.2 with
           | Ok _ => Returned tt
           | Raise msg => Raised msg
           end.
Proof using Type.
  intros Henv H1 H2 H3 H4 r poll. subst r poll.
  unfold resume_if_possible, wait_if_required, save_metadata_if_required,
    copy_outputs_if_required, metadata, the_environment.
  rewrite Henv. open_monad. simpl.
  rewrite (bool_decide_eq_true_2 _ H1). simpl.
  rewrite (bool_decide_eq_true_2 _ H2). simpl.
  destruct (engine_metadata _ _ _) as [e' [meta|msg]]; simpl; [|done].
  rewrite (bool_decide_eq_true_2 _ H3). simpl.
  rewrite (bool_decide_eq_true_2 _ H4). done.
Qed.

(** X14: waiting, for a task not yet marked as finished.  When
    [wait_if_required] returns, the last engine call it made is a metadata
    poll that reported a final status, every poll before it answered
    without a final status, and there were fewer polls before it than the
    bound on the loop; so the loop stops at the first final status it sees.
    The finished mark is then the one mark added. *)
Theorem wait_stops_at_first_final_status fuel self s :
  ProgressKeys.workflowMovedToFinalState ∉ progress (world s) ->
  (wait_if_required fuel self s).2 = Returned tt ->
  exists etid m earlier,
    history (world (wait_if_required fuel self s).1)
    = EvMetadata etid (Ok (Some m)) :: earlier ++ history (world s)
    /\ TaskStatus.is_final (meta_status m) = true
    /\ Forall pending_poll earlier
    /\ (length earlier < fuel)%nat
    /\ progress (world (wait_if_required fuel self s).1)
       = {[ProgressKeys.workflowMovedToFinalState]} ∪ progress (world s).
Proof using Type.
  intros Hnot.
  assert (wait_if_required fuel self s
          = bind (wait_loop fuel self None)
              (fun _ => progress_mark_completed
                          ProgressKeys.workflowMovedToFinalState) s) as ->.
  { unfold wait_if_required. unfold bind at 1. unfold progress_has_completed.
    by rewrite bool_decide_eq_false_2. }
  unfold bind.
  pose proof (wait_loop_polls fuel self None s eq_refl) as Hloop.
  destruct (wait_loop fuel self None s) as [s1 [[]| |]]; simpl in *; [|done..].
  intros _. destruct (Hloop eq_refl) as (etid & m & earlier & Hh & Hfin & Hall & Hlen & Hp).
  exists etid, m, earlier. by rewrite Hp.
Qed.

(** X15: the engine task id outlives the process.  When
    [submit_workflow_if_required] runs with the step unmarked and returns,
    the id that [start_from_paths] returned is what [get_engine_tid] answers
    from then on, in the same process and, through the Progress Store, in a
    later one that starts with the attribute unset; the step is marked, and
    the next metadata poll of a later process is made with that id. *)
Theorem engine_tid_survives_restart self wf tr s :
  ProgressKeys.submitWorkflow ∉ progress (world s) ->
  (submit_workflow_if_required self wf tr s).2 = Returned tt ->
  let s' := (submit_workflow_if_required self wf tr s).1 in
  let later := mkState (world s') None in
  exists fn_wf fn_inp fn_deps etid,
    history (world s') = EvStart fn_wf fn_inp fn_deps (Ok etid) :: history (world s)
    /\ engine_tid_of s' = Some etid
    /\ engine_tid_of later = Some etid
    /\ ProgressKeys.submitWorkflow ∈ progress (world s')
    /\ forall self' env',
        environment self' = Some env' ->
        exists r,
          history (world (metadata self' later).1)
          = EvMetadata (Some etid) r :: history (world s').
Proof using Type.
  intros Hnot. unfold submit_workflow_if_required.
  open_monad. simpl. rewrite bool_decide_eq_false_2 by done.
  destruct (workflow_filename tr wf) as [n_wf|]; simpl; [|done].
  destruct (inputs_filename tr wf) as [n_inp|]; simpl; [|done].
  destruct (dependencies_filename tr wf) as [n_deps|]; simpl; [|done].
  destruct (environment self) as [env|]; simpl; [|done].
  destruct (engine_start_from_paths _ _ _ _ _) as [e' [etid|msg]]; simpl; [|done].
  intros _. eexists _, _, _, etid. split; [done|].
  unfold engine_tid_of. simpl. rewrite lookup_insert_eq. simpl.
  split; [by destruct (PyStr.truthy etid) eqn:Ht; simpl; rewrite ?Ht|].
  split; [done|]. split; [by apply elem_of_union_l, elem_of_singleton|].
  intros self' env' Henv'. unfold metadata, the_environment.
  rewrite Henv'. open_monad. simpl. unfold engine_tid_of. simpl.
  rewrite lookup_insert_eq. simpl.
  destruct (engine_metadata _ _ _) as [e2 [meta|msg]]; simpl; eauto.
Qed.

(** X16: a record saved but not submitted cannot be resubmitted by
    [from_janis].  When save-workflow is marked and submit-workflow is not,
    the preparation step hands [None] on, and the submission step passes
    that [None] to the translator's file name helper; when the helper
    raises on it, the whole run raises the same exception, the engine is
    never started and the marks are as they were. *)
Theorem from_janis_saved_not_submitted fuel tid0 outdir wf env hints v w msg :
  ProgressKeys.saveWorkflow ∈ progress w ->
  ProgressKeys.submitWorkflow ∉ progress w ->
  workflow_filename (get_translator (engine env)) None = Raise msg ->
  let r := run (from_janis fuel tid0 outdir wf env hints v) w in
  r.2 = Raised msg
  /\ progress r.1 = progress w
  /\ count_start (history r.1) = count_start (history w)
  /\ outside r.1 = outside w.
Proof using Type.
  intros Hsaved Hnot Hname r. subst r.
  unfold run, from_janis, TaskManager_init, create_output_structure,
    get_task_path_safe, _create_dir_if_needed,
    prepare_and_output_workflow_to_evaluate_if_required,
    submit_workflow_if_required.
  open_monad. unfold opt_truthy, upsert. simpl.
  destruct (PyStr.truthy tid0); simpl;
    rewrite (bool_decide_eq_true_2 _ Hsaved); simpl;
    rewrite (bool_decide_eq_false_2 _ Hnot); simpl;
    rewrite Hname; simpl; done.
Qed.

(** *** Staging *)

(** Induction over output values, through the lists they nest. *)
Lemma Value_nested_ind (P : Value -> Prop) :
  (forall s, P (OStr s)) ->
  (forall l, Forall P l -> P (OList l)) ->
  (forall f, P (OFile f)) ->
  (forall ty, P (OOther ty)) ->
  forall v, P v.
Proof.
  intros HS HL HF HO.
  fix IH 1. intros [s|l|f|ty].
  - apply HS.
  - apply HL. induction l as [|v rest IHl].
    + apply Forall_nil_2.
    + apply Forall_cons_2; [apply IH|apply IHl].
  - apply HF.
  - apply HO.
Qed.

(** The file locations an output value holds, in order: a [str] is one
    location, a list holds those of its elements, and a [CromwellFile] its
    own location and those of its secondary files. *)
Fixpoint locations (v : Value) : list string :=
  match v with
  | OStr s => [s]
  | OList l => flat_map locations l
  | OFile f => location f :: map location (secondary_files f)
  | OOther _ => []
  end.

(** The destination is the directory, then the output name, then something
    more. *)
Definition lands_under (output_dir filename : string) (op : CopyOp) : Prop :=
  exists suffix, cp_dest op = output_dir +:+ filename +:+ suffix.

Lemma copy_str_spec od name src :
  copy_str get_extension od name src
  = [mkCopy src (od +:+ name +:+ extwdot get_extension src)].
Proof. reflexivity. Qed.

Lemma lands_under_shard od name (i : nat) op :
  lands_under od (name +:+ "-shard-" +:+ pretty i) op -> lands_under od name op.
Proof.
  intros [suffix H]. exists ("-shard-" +:+ pretty i +:+ suffix).
  by rewrite H, !string_app_assoc.
Qed.

(** X17: what [copy_output] copies.  The sources of its copies are the
    locations the value holds, each once and in order, however deeply lists
    are nested; a value of any other type contributes none.  Every
    destination is the output directory followed by the output name and a
    suffix. *)
Theorem copy_output_copies_every_location od name v :
  map cp_source (copy_output get_extension od name v) = locations v
  /\ Forall (lands_under od name) (copy_output get_extension od name v).
Proof using Type.
  revert name. induction v as [s|l IHl|f|ty] using Value_nested_ind; intros name.
  - split; [done|]. apply Forall_singleton. by eexists.
  - rewrite copy_output_list. unfold copy_sharded_outputs. simpl locations.
    generalize 0%nat.
    induction IHl as [|v rest Hv _ IHrest]; intros n; simpl; [done|].
    destruct (Hv (name +:+ "-shard-" +:+ pretty n)) as [Hsrc Hdst].
    destruct (IHrest (S n)) as [Hsrc' Hdst'].
    split; [by rewrite map_app, Hsrc, Hsrc'|].
    apply Forall_app. split; [|done].
    eapply Forall_impl; [exact Hdst|]. intros op. apply lands_under_shard.
  - destruct f as [loc secs]. simpl. split.
    + f_equal. induction secs as [|sec rest IH]; simpl; [done|by f_equal].
    + apply Forall_cons_2; [by eexists|].
      induction secs as [|sec rest IH]; simpl; [done|].
      apply Forall_cons_2; [by eexists|done].
  - done.
Qed.

(** Every copy of a [CromwellFile] goes to the output name followed by the
    extension of its own source. *)
Lemma copy_cromwell_output_dest od name f op :
  op ∈ copy_cromwell_output get_extension od name f ->
  cp_dest op = od +:+ name +:+ extwdot get_extension (cp_source op).
Proof.
  destruct f as [loc secs]. unfold copy_cromwell_output. simpl.
  intros [->|Hin]%elem_of_cons; [done|].
  induction secs as [|sec rest IH]; simpl in Hin; [by apply elem_of_nil in Hin|].
  apply elem_of_cons in Hin as [->|Hin]; [done|by apply IH].
Qed.

(** X18: the files of one [CromwellFile] are told apart by extension only.
    Any two of its copies whose sources have the same extension are written
    to the same destination, so of a primary file and a secondary file with
    one extension, the one copied later replaces the other. *)
Theorem cromwell_files_collide_on_extension od name f op1 op2 :
  op1 ∈ copy_cromwell_output get_extension od name f ->
  op2 ∈ copy_cromwell_output get_extension od name f ->
  get_extension (cp_source op1) = get_extension (cp_source op2) ->
  cp_dest op1 = cp_dest op2.
Proof using Type.
  intros H1 H2 Hext.
  rewrite (copy_cromwell_output_dest od name f op1 H1),
    (copy_cromwell_output_dest od name f op2 H2).
  unfold extwdot. by rewrite Hext.
Qed.

Lemma stage_loop_prefix fs v od vd pre name ty post s :
  never_raises fs ->
  forallb (fun kv => supported kv.2) pre = true ->
  history (world (stage_loop fs v od vd (pre ++ (name, OOther ty) :: post) s).1)
  = reverse
      (map ok_copy
         (flat_map
            (fun kv => copy_output get_extension
                         (if output_is_validating v kv.1 then vd else od)
                         kv.1 kv.2) pre))
    ++ history (world s).
Proof.
  intros Hfs. revert s.
  induction pre as [|[n o] pre IH]; intros s Hpre; simpl; [done|].
  simpl in Hpre. apply andb_true_iff in Hpre as [Ho Hpre].
  unfold bind. rewrite stage_output_plan by done.
  pose proof (do_copies_total fs
    (copy_output get_extension
       (if output_is_validating v n then vd else od) n o) s Hfs) as HT.
  pose proof (do_copies_returned fs
    (copy_output get_extension
       (if output_is_validating v n then vd else od) n o) s HT) as HR.
  destruct (do_copies _ _ s) as [s1 r1]; simpl in HT, HR; subst r1.
  rewrite (IH s1 Hpre), HR.
  by rewrite map_app, reverse_app, <- app_assoc.
Qed.

(** X19: staging is not rolled back.  When the output mapping holds a value
    of an unsupported type, the outputs before it have already been copied
    when the exception is raised: with a file scheme that does not raise,
    the history is the outputs fetch followed by exactly the copies of the
    outputs that precede the offending one, none of those after it, and the
    step stays unmarked, so a later resume copies the earlier outputs
    again. *)
Theorem staging_stops_without_rollback self env s e' pre name ty post :
  environment self = Some env ->
  ProgressKeys.copiedOutputs ∉ progress (world s) ->
  engine_outputs_task (engine env) (engine_tid_of s) (outside (world s))
  = (e', Ok (pre ++ (name, OOther ty) :: post)) ->
  never_raises (filescheme env) ->
  forallb (fun kv => supported kv.2) pre = true ->
  let s' := (copy_outputs_if_required self s).1 in
  history (world s')
  = reverse
      (map ok_copy
         (planned_copies (info_truthy (info (world s) !! InfoKeys.validating))
            (get_task_path self) pre))
    ++ EvOutputs (engine_tid_of s) (Ok (pre ++ (name, OOther ty) :: post))
    :: history (world s)
  /\ progress (world s') = progress (world s).
Proof using Type.
  intros Henv Hnot Hfetch Hfs Hpre.
  rewrite (copy_outputs_unfold self env s e' _) by done.
  assert (forall (X : Type) (a b : X),
             match pre ++ (name, OOther ty) :: post with [] => a | _ => b end = b)
    as -> by (intros; by destruct pre).
  pose proof (stage_loop_prefix (filescheme env)
    (info_truthy (info (world s) !! InfoKeys.validating))
    (get_task_path self +:+ "outputs/") (get_task_path self +:+ "validation/")
    pre name ty post
    (after_fetch s e' (pre ++ (name, OOther ty) :: post)) Hfs Hpre) as HH.
  pose proof (stage_loop_message (filescheme env)
    (info_truthy (info (world s) !! InfoKeys.validating))
    (get_task_path self +:+ "outputs/") (get_task_path self +:+ "validation/")
    pre name ty post
    (after_fetch s e' (pre ++ (name, OOther ty) :: post)) Hfs Hpre) as HM.
  pose proof (stage_loop_frame (filescheme env)
    (info_truthy (info (world s) !! InfoKeys.validating))
    (get_task_path self +:+ "outputs/") (get_task_path self +:+ "validation/")
    (pre ++ (name, OOther ty) :: post)
    (after_fetch s e' (pre ++ (name, OOther ty) :: post))) as (Hp & _ & _).
  unfold bind.
  destruct (for_each _ _ _) as [s2 r2]. simpl in *. subst r2. simpl.
  split; [|done]. rewrite HH. unfold planned_copies. done.
Qed.

(** *** Watching *)

(** The [while] loop of [watch]: poll, take the status when the engine
    reported one, and go round again unless it is final. *)
Fixpoint watch_loop (fuel : nat) (self : TaskManager)
    (status : option TaskStatus.t) : M unit :=
  if not_final status then
    match fuel with
    | O => fun s => (s, Spinning)
    | S fuel' =>
        meta <- metadata self ;;
        watch_loop fuel' self
          (match meta with
           | Some m => Some (meta_status m)
           | None => status
           end)
    end
  else ret tt.

(** [watch] *)
Definition watch (fuel : nat) (self : TaskManager) : M unit :=
  watch_loop fuel self None.

Lemma watch_loop_wait_loop fuel self st s :
  watch_loop fuel self st s = wait_loop fuel self st s.
Proof.
  revert st s. induction fuel as [|fuel IH]; intros st s; simpl; [done|].
  destruct (not_final st); [|done].
  unfold bind. destruct (metadata self s) as [s1 [meta| |]]; [apply IH|done..].
Qed.

(** X26: [watch] only watches.  Whatever it does, the marks are as they
    were: unlike [wait_if_required], it does not mark the task as finished
    even when it has seen the final status.  When it returns, the last call
    it made is a metadata poll that reported a final status, and every poll
    before it answered without one. *)
Theorem watch_marks_nothing fuel self s :
  progress (world (watch fuel self s).1) = progress (world s)
  /\ ((watch fuel self s).2 = Returned tt ->
      exists etid m earlier,
        history (world (watch fuel self s).1)
        = EvMetadata etid (Ok (Some m)) :: earlier ++ history (world s)
        /\ TaskStatus.is_final (meta_status m) = true
        /\ Forall pending_poll earlier
        /\ (length earlier < fuel)%nat).
Proof using Type.
  unfold watch. rewrite watch_loop_wait_loop. split.
  - apply wait_loop_progress.
  - intros Hret.
    destruct (wait_loop_polls fuel self None s eq_refl Hret)
      as (etid & m & earlier & Hh & Hfin & Hall & Hlen & _).
    by exists etid, m, earlier.
Qed.

End Orchestrator.

Arguments progress {E Workflow} w.
Arguments info {E Workflow} w.
Arguments outside {E Workflow} w.
Arguments history {E Workflow} w.
Arguments world {E Workflow} s.
Arguments _engine_tid {E Workflow} s.
Arguments run {E Workflow A} m w.
Arguments count_start {Workflow} h.
Arguments EvEnsureDir {Workflow} path.
Arguments EvTranslate {Workflow} wf with_resource_overrides export_path r.
Arguments EvStart {Workflow} fn_wf fn_inp fn_deps r.
Arguments EvMetadata {Workflow} etid r.
Arguments EvRawMetadata {Workflow} etid r.
Arguments EvWriteFile {Workflow} path content r.
Arguments EvOutputs {Workflow} etid r.
Arguments EvCopy {Workflow} op r.
Arguments copy_outputs_if_required {E Workflow} get_extension self s.
Arguments save_metadata_if_required {E Workflow} dump_json self s.

(** ** A test double

    An engine that counts its start calls, reports every task completed and
    hands back a fixed output mapping, with a translator and a file scheme
    that never raise.  The outside world is the number of start calls made
    so far; workflows are named by strings. *)

Module Double.

(** A stand-in for [get_extension]: what follows the last dot of the path,
    [None] when the path has no dot. *)
Definition get_extension (s : string) : option string :=
  match PyStr.split "."%char s with
  | [_] => None
  | parts => Some (PyStr.last_item parts)
  end.

Definition completed : TaskMetadata :=
  mkMeta TaskStatus.COMPLETED None "" "" "".

Definition engine_double (cromwell : bool) (outs : list (string * Value))
  : Engine nat :=
  mkEngine nat "double" cromwell "double" "localhost"
    (fun _ _ _ n => (S n, Ok ("run-" +:+ pretty n)))
    (fun _ n => (n, Ok (Some completed)))
    (fun _ n => (n, Ok "{}"))
    (fun _ n => (n, Ok outs)).

Definition filescheme_double : FileScheme nat :=
  mkFileScheme nat (fun _ _ n => (n, Ok tt)).

Definition env_double (cromwell : bool) (outs : list (string * Value))
  : Environment nat :=
  mkEnvironment nat "double-env" (engine_double cromwell outs) filescheme_double.

Definition filename_double (suffix : string) (wf : option string) : result string :=
  match wf with
  | Some name => Ok (name +:+ suffix)
  | None => Raise "'NoneType' object has no attribute 'id'"
  end.

Definition translator_double : Translator nat string unit :=
  mkTranslator nat string unit
    (fun _ _ _ _ _ n => (n, Ok tt))
    (filename_double ".wdl") (filename_double "-inp.json")
    (filename_double "-deps.zip").

Definition registry_double (cromwell : bool) (outs : list (string * Value))
  : option InfoVal -> result (option (Environment nat)) :=
  fun _ => Ok (Some (env_double cromwell outs)).

(** A file system on which every dump can be written, *)
Definition dump_double (file content : string) (n : nat) : nat * result unit :=
  (n, Ok tt).

(** and one that is full. *)
Definition dump_full (file content : string) (n : nat) : nat * result unit :=
  (n, Raise "[Errno 28] No space left on device").

(** An empty Progress Record, no start call made yet. *)
Definition fresh : World nat string := mkWorld nat string ∅ ∅ 0%nat [].

(** One run of [from_janis] for the workflow ["wf"] over [/out]. *)
Definition from_janis_double (cromwell : bool) (outs : list (string * Value))
    (fuel : nat) : M nat string unit :=
  from_janis nat string unit unit get_extension (fun wf _ => wf)
    (fun _ => translator_double) (registry_double cromwell outs) dump_double
    fuel "task" "/out" "wf" (env_double cromwell outs) tt None.

(** The three outputs of the routing examples. *)
Definition example_outputs : list (string * Value) :=
  [ ("x", OStr "/tmp/a.vcf");
    ("y", OList [OStr "/tmp/a.txt"; OStr "/tmp/b.txt"]);
    ("wf.validated_x", OStr "/tmp/report.csv") ].

(** A [TaskManager] over [/out] and a state in which the task is
    validating and nothing is marked. *)
Definition manager (cromwell : bool) (outs : list (string * Value))
  : TaskManager nat :=
  mkTaskManager nat (Some "task") "/out" (Some (env_double cromwell outs)).

Definition validating_state : State nat string :=
  mkState nat string
    (mkWorld nat string ∅ {[InfoKeys.validating := IBool true]} 0%nat [])
    (Some "run-0").

End Double.

(** Decide a closed membership statement by evaluation. *)
Ltac by_evaluation :=
  match goal with
  | |- ?P => apply (bool_decide_unpack P); vm_compute; exact I
  end.

(** C1 on the test double: two full runs of [from_janis] over a fresh
    world, against a Cromwell-like engine with three outputs.  Both runs
    return; the history holds one start call and the engine has counted
    one. *)
Lemma resume_invokes_start_once_witness :
  let m := Double.from_janis_double true Double.example_outputs 3 in
  let w1 := (run m Double.fresh).1 in
  let w2 := (run m w1).1 in
  (run m Double.fresh).2 = Returned tt
  /\ (run m w1).2 = Returned tt
  /\ count_start (history w2) = 1%nat
  /\ outside w2 = 1%nat.
Proof.
  intros m w1 w2.
  assert ((run m Double.fresh).2 = Returned tt) as Hret by (vm_compute; reflexivity).
  destruct (resume_invokes_start_once nat string unit unit
              Double.get_extension (fun wf _ => wf)
              (fun _ => Double.translator_double)
              (Double.registry_double true Double.example_outputs)
              Double.dump_double)
    as (_ & Hsubmitted & Honce).
  destruct (Honce 3%nat 3%nat "task" "/out" "wf"
              (Double.env_double true Double.example_outputs) tt None
              Double.fresh)
    as (_ & H2 & _).
  - by_evaluation.
  - exact (Hsubmitted 3%nat "task" "/out" "wf"
             (Double.env_double true Double.example_outputs) tt None
             Double.fresh Hret).
  - split; [exact Hret|]. split; [vm_compute; reflexivity|].
    split; [exact H2|]. vm_compute. reflexivity.
Defined.

(** C2 on the test double: the world after one run against a Cromwell-like
    engine is reachable, has every step up to outputs-copied marked, and
    satisfies the invariant; and the run of the save-metadata step that
    marks it has returned, with the fetch of the dump and its write to
    [/out/metadata/metadata.json] lying before the mark. *)
Lemma step_ordering_invariant_witness :
  let w := (run (Double.from_janis_double true Double.example_outputs 3)
              Double.fresh).1 in
  let r := save_metadata_if_required Double.dump_double (Double.manager true [])
             Double.validating_state in
  ProgressKeys.copiedOutputs ∈ progress w
  /\ ProgressKeys.submitWorkflow ∈ progress w
  /\ ProgressKeys.workflowMovedToFinalState ∈ progress w
  /\ ordered (progress w)
  /\ (exists a, r.2 = Returned a)
  /\ exists evs,
      history (world r.1) = evs ++ []
      /\ exists etid meta,
          evs = [ EvWriteFile "/out/metadata/metadata.json" meta (Ok tt);
                  EvRawMetadata etid (Ok meta) ].
Proof.
  intros w r.
  destruct (step_ordering_invariant nat string unit unit
              Double.get_extension (fun wf _ => wf)
              (fun _ => Double.translator_double)
              (Double.registry_double true Double.example_outputs)
              Double.dump_double)
    as (Hreach & _ & _ & _ & Hsave & _).
  destruct (Hreach w) as (H1 & H2 & _).
  { apply (reach_from_janis nat string unit unit Double.get_extension
             (fun wf _ => wf) (fun _ => Double.translator_double)
             (Double.registry_double true Double.example_outputs)
             Double.dump_double
             Double.fresh 3%nat "task" "/out" "wf"
             (Double.env_double true Double.example_outputs) tt None).
    apply reach_empty. }
  assert (ProgressKeys.copiedOutputs ∈ progress w) as Hc by by_evaluation.
  destruct (H1 Hc) as [Hs Hf].
  split; [exact Hc|]. split; [exact Hs|]. split; [exact Hf|].
  split; [exact H2|].
  destruct (Hsave (Double.manager true []) Double.validating_state)
    as (Hret & _ & Hevs).
  - by_evaluation.
  - by_evaluation.
  - split; [exact Hret|exact Hevs].
Defined.

(** C4 on the test double: the routing examples.  The scalar output [x]
    with source [/tmp/a.vcf] lands at [outputs/x.vcf]; the two shards land
    at [x-shard-0.txt] and [x-shard-1.txt]; and in a validating task the
    output [wf.validated_x] goes to [validation/] while [x] and [y] go to
    [outputs/]. *)
Lemma output_staging_routes_by_shape_witness :
  copy_output Double.get_extension "/out/outputs/" "x" (OStr "/tmp/a.vcf")
  = [mkCopy "/tmp/a.vcf" "/out/outputs/x.vcf"]
  /\ copy_output Double.get_extension "/out/outputs/" "x"
       (OList [OStr "/tmp/a.txt"; OStr "/tmp/b.txt"])
     = [ mkCopy "/tmp/a.txt" "/out/outputs/x-shard-0.txt";
         mkCopy "/tmp/b.txt" "/out/outputs/x-shard-1.txt" ]
  /\ history
       (world (copy_outputs_if_required Double.get_extension
                 (Double.manager true Double.example_outputs)
                 Double.validating_state).1)
     = [ EvCopy (mkCopy "/tmp/report.csv" "/out/validation/wf.validated_x.csv")
           (Ok tt);
         EvCopy (mkCopy "/tmp/b.txt" "/out/outputs/y-shard-1.txt") (Ok tt);
         EvCopy (mkCopy "/tmp/a.txt" "/out/outputs/y-shard-0.txt") (Ok tt);
         EvCopy (mkCopy "/tmp/a.vcf" "/out/outputs/x.vcf") (Ok tt);
         EvOutputs (Some "run-0") (Ok Double.example_outputs) ].
Proof.
  destruct (output_staging_routes_by_shape nat string Double.get_extension)
    as (H1 & H2 & _ & H4).
  split; [rewrite H1; reflexivity|]. split; [rewrite H2; reflexivity|].
  rewrite (H4 (Double.manager true Double.example_outputs)
              (Double.env_double true Double.example_outputs)
              Double.validating_state 0%nat Double.example_outputs).
  - vm_compute. reflexivity.
  - reflexivity.
  - by_evaluation.
  - reflexivity.
  - discriminate.
  - vm_compute. reflexivity.
Defined.

(** C7 on the test double: with three outputs to stage, the step is marked
    when the method returns. *)
Lemma copy_outputs_marks_iff_nonempty_witness :
  ProgressKeys.copiedOutputs
  ∈ progress
      (world (copy_outputs_if_required Double.get_extension
                (Double.manager true Double.example_outputs)
                Double.validating_state).1).
Proof.
  apply (proj2 (copy_outputs_marks_iff_nonempty nat string Double.get_extension
                  (Double.manager true Double.example_outputs)
                  (Double.env_double true Double.example_outputs)
                  Double.validating_state 0%nat Double.example_outputs
                  eq_refl ltac:(by_evaluation) eq_refl
                  ltac:(vm_compute; reflexivity))).
  discriminate.
Defined.

(** C7 at a concrete input: the engine hands back an empty mapping; the
    method returns without raising, the step was not marked before, and it
    is not marked afterwards. *)
Lemma copy_outputs_empty_mapping_not_marked :
  let r := copy_outputs_if_required Double.get_extension
             (Double.manager true []) Double.validating_state in
  (ProgressKeys.copiedOutputs ∉ progress (world Double.validating_state))
  /\ r.2 = Returned tt
  /\ (ProgressKeys.copiedOutputs ∉ progress (world r.1)).
Proof.
  intros r. split; [by_evaluation|]. split; [by vm_compute|by_evaluation].
Qed.

(** C8 on the test double.  When the engine is not Cromwell the step
    raises, naming the engine, and the world is as it was.  When it is, the
    dump is written to [/out/metadata/metadata.json] and the step is marked;
    and on a file system that is full the write raises and the step stays
    unmarked. *)
Lemma save_metadata_if_required_spec_witness :
  let other := save_metadata_if_required Double.dump_double
                 (Double.manager false []) Double.validating_state in
  let saved := save_metadata_if_required Double.dump_double
                 (Double.manager true []) Double.validating_state in
  let full := save_metadata_if_required Double.dump_full
                (Double.manager true []) Double.validating_state in
  (other.2 = Raised "Don't know how to save metadata for engine 'double'"
   /\ world other.1 = world Double.validating_state)
  /\ (saved.2 = Returned tt
      /\ history (world saved.1)
         = [ EvWriteFile "/out/metadata/metadata.json" "{}" (Ok tt);
             EvRawMetadata (Some "run-0") (Ok "{}") ]
      /\ progress (world saved.1) = {[ProgressKeys.savedMetadata]} ∪ ∅)
  /\ (full.2 = Raised "[Errno 28] No space left on device"
      /\ history (world full.1)
         = [ EvWriteFile "/out/metadata/metadata.json" "{}"
               (Raise "[Errno 28] No space left on device");
             EvRawMetadata (Some "run-0") (Ok "{}") ]
      /\ progress (world full.1) = ∅).
Proof.
  split; [|split].
  - exact (save_metadata_if_required_spec nat string Double.dump_double
             (Double.manager false []) (Double.env_double false [])
             Double.validating_state eq_refl ltac:(by_evaluation)).
  - exact (save_metadata_if_required_spec nat string Double.dump_double
             (Double.manager true []) (Double.env_double true [])
             Double.validating_state eq_refl ltac:(by_evaluation)).
  - exact (save_metadata_if_required_spec nat string Double.dump_full
             (Double.manager true []) (Double.env_double true [])
             Double.validating_state eq_refl ltac:(by_evaluation)).
Defined.

(** Outputs with a value of an unknown shape in second place. *)
Definition outputs_with_int : list (string * Value) :=
  [ ("x", OStr "/tmp/a.vcf"); ("bam", OOther "int"); ("z", OStr "/tmp/z.txt") ].

(** C9 on the test double: the integer bound to [bam] stops the staging
    with the exception that names its type, and the step stays unmarked. *)
Lemma unsupported_output_is_fatal_witness :
  (copy_outputs_if_required Double.get_extension
     (Double.manager true outputs_with_int) Double.validating_state).2
  = Raised "Don't know how to handle output with type: <class 'int'>"
  /\ ProgressKeys.copiedOutputs
     ∉ progress
         (world (copy_outputs_if_required Double.get_extension
                   (Double.manager true outputs_with_int)
                   Double.validating_state).1).
Proof.
  destruct (unsupported_output_is_fatal nat string Double.get_extension
              (Double.manager true outputs_with_int)
              (Double.env_double true outputs_with_int)
              Double.validating_state 0%nat
              [("x", OStr "/tmp/a.vcf")] "bam" "int" [("z", OStr "/tmp/z.txt")]
              eq_refl ltac:(by_evaluation) eq_refl)
    as (_ & Hnot & Hmsg).
  split; [|exact Hnot].
  apply Hmsg; [intros src dst e; reflexivity|reflexivity].
Defined.

(** C9 at concrete inputs.  An integer inside a sharded output is skipped
    without any error, and outputs-copied is marked; and the exception
    raised for an integer bound to [bam] at the top level does not contain
    the name [bam]. *)
Lemma unsupported_output_nested_or_unnamed :
  let nested := copy_outputs_if_required Double.get_extension
                  (Double.manager true [("bam", OList [OOther "int"])])
                  Double.validating_state in
  let top := copy_outputs_if_required Double.get_extension
               (Double.manager true [("bam", OOther "int")])
               Double.validating_state in
  nested.2 = Returned tt
  /\ ProgressKeys.copiedOutputs ∈ progress (world nested.1)
  /\ top.2 = Raised (unknown_type_message "int")
  /\ PyStr.contains "bam" (unknown_type_message "int") = false.
Proof.
  intros nested top.
  split; [by vm_compute|]. split; [by_evaluation|].
  split; by vm_compute.
Qed.

(** ** The further facts on the test double *)

(** A Progress Record with all four steps of a resume marked. *)
Definition finished_state : State nat string :=
  mkState nat string
    (mkWorld nat string
       (list_to_set [ ProgressKeys.saveWorkflow; ProgressKeys.submitWorkflow;
                      ProgressKeys.workflowMovedToFinalState;
                      ProgressKeys.savedMetadata; ProgressKeys.copiedOutputs ])
       {[InfoKeys.engine_tid := IStr "run-0"]} 1%nat [])
    None.

(** X11 on the test double: the record names an environment and the lookup
    finds it, yet the object the constructor returns has none, and resuming
    the finished task with it raises the [AttributeError]. *)
Lemma init_without_environment_drops_it_witness :
  let s := mkState nat string
             (mkWorld nat string (progress (world finished_state))
                {[InfoKeys.environment := IStr "double-env"]} 0%nat [])
             None in
  let r := TaskManager_init nat string (Double.registry_double true [])
             "/out" (Some "task") None s in
  r.2 = Returned (mkTaskManager nat (Some "task") "/out" None)
  /\ resume_if_possible nat string Double.get_extension Double.dump_double 1
       (mkTaskManager nat (Some "task") "/out" None) finished_state
     = (finished_state, Raised "'NoneType' object has no attribute 'engine'").
Proof.
  intros s r.
  destruct (init_without_environment_drops_it nat string Double.get_extension
              (Double.registry_double true []) Double.dump_double
              "/out" (Some "task") s)
    as (_ & _ & Hr & Hresume).
  split; [exact Hr|].
  apply (Hresume _ 0%nat finished_state Hr). by_evaluation.
Defined.

(** X12 on the test double: the constructor returns over the finished
    record, with the stored engine task id when it is given no task id, and
    the directories it has checked are those of [/out/]. *)
Lemma init_with_environment_witness :
  let r := TaskManager_init nat string (Double.registry_double true [])
             "/out" None (Some (Double.env_double true [])) finished_state in
  r.2 = Returned (mkTaskManager nat (Some "run-0") "/out"
                    (Some (Double.env_double true [])))
  /\ history (world r.1)
     = [ EvEnsureDir "/out/"; EvEnsureDir "/out/logs";
         EvEnsureDir "/out/outputs"; EvEnsureDir "/out/validation";
         EvEnsureDir "/out/metadata"; EvEnsureDir "/out/workflow";
         EvEnsureDir "/out/" ].
Proof.
  intros r.
  assert (r.2 = Returned (mkTaskManager nat (Some "run-0") "/out"
                            (Some (Double.env_double true []))))
    as Hret by (vm_compute; reflexivity).
  split; [exact Hret|].
  destruct (init_with_environment nat string (Double.registry_double true [])
              "/out" None (Double.env_double true []) finished_state _ Hret)
    as (_ & _ & _ & Hh).
  exact Hh.
Defined.

(** X13 on the test double: resuming the finished record polls the engine
    once with the stored id and does nothing else. *)
Lemma resume_of_finished_task_witness :
  let r := resume_if_possible nat string Double.get_extension
             Double.dump_double 3
             (Double.manager true Double.example_outputs) finished_state in
  history (world r.1) = [EvMetadata (Some "run-0") (Ok (Some Double.completed))]
  /\ progress (world r.1) = progress (world finished_state)
  /\ r.2 = Returned tt.
Proof.
  destruct (resume_of_finished_task nat string Double.get_extension
              Double.dump_double 3
              (Double.manager true Double.example_outputs)
              (Double.env_double true Double.example_outputs)
              finished_state eq_refl
              ltac:(by_evaluation) ltac:(by_evaluation)
              ltac:(by_evaluation) ltac:(by_evaluation))
    as (Hh & Hp & _ & _ & Hr).
  split; [exact Hh|]. split; [exact Hp|exact Hr].
Defined.

(** An engine that reports the task as processing on its first two polls
    and as completed from the third on; the outside world counts the
    polls. *)
Definition slow_engine : Engine nat :=
  mkEngine nat "slow" true "slow" "localhost"
    (fun _ _ _ n => (n, Ok "run-0"))
    (fun _ n =>
       (S n, Ok (Some (mkMeta (if (n <? 2)%nat then TaskStatus.PROCESSING
                               else TaskStatus.COMPLETED) None "" "" ""))))
    (fun _ n => (n, Ok "{}"))
    (fun _ n => (n, Ok [])).

Definition slow_manager : TaskManager nat :=
  mkTaskManager nat (Some "task") "/out"
    (Some (mkEnvironment nat "slow-env" slow_engine Double.filescheme_double)).

(** X14 on the slow engine: the wait returns after three polls, the third
    being the first that reports a final status. *)
Lemma wait_stops_at_first_final_status_witness :
  let r := wait_if_required nat string 5 slow_manager Double.validating_state in
  outside (world r.1) = 3%nat
  /\ exists etid m earlier,
      history (world r.1) = EvMetadata etid (Ok (Some m)) :: earlier ++ []
      /\ TaskStatus.is_final (meta_status m) = true
      /\ Forall (pending_poll string) earlier
      /\ (length earlier < 5)%nat
      /\ progress (world r.1)
         = {[ProgressKeys.workflowMovedToFinalState]} ∪ ∅.
Proof.
  split; [vm_compute; reflexivity|].
  apply (wait_stops_at_first_final_status nat string 5 slow_manager
           Double.validating_state).
  - by_evaluation.
  - vm_compute. reflexivity.
Defined.

(** X26 on the slow engine: [watch] returns after the same three polls and
    leaves the record unmarked. *)
Lemma watch_marks_nothing_witness :
  let r := watch nat string 5 slow_manager Double.validating_state in
  progress (world r.1) = ∅
  /\ outside (world r.1) = 3%nat
  /\ exists etid m earlier,
      history (world r.1) = EvMetadata etid (Ok (Some m)) :: earlier ++ []
      /\ TaskStatus.is_final (meta_status m) = true
      /\ Forall (pending_poll string) earlier
      /\ (length earlier < 5)%nat.
Proof.
  destruct (watch_marks_nothing nat string 5 slow_manager
              Double.validating_state) as [Hp Hret].
  split; [exact Hp|]. split; [vm_compute; reflexivity|].
  apply Hret. vm_compute. reflexivity.
Defined.

(** X15 on the test double: the id returned by the start call is the stored
    engine task id of a later process. *)
Lemma engine_tid_survives_restart_witness :
  let s' := (submit_workflow_if_required nat string unit
               (Double.manager true []) (Some "wf") Double.translator_double
               Double.validating_state).1 in
  exists fn_wf fn_inp fn_deps etid,
    history (world s') = [EvStart fn_wf fn_inp fn_deps (Ok etid)]
    /\ engine_tid_of nat string (mkState nat string (world s') None) = Some etid.
Proof.
  destruct (engine_tid_survives_restart nat string unit
              (Double.manager true []) (Some "wf") Double.translator_double
              Double.validating_state)
    as (fn_wf & fn_inp & fn_deps & etid & Hh & _ & Hlater & _).
  - by_evaluation.
  - vm_compute. reflexivity.
  - exists fn_wf, fn_inp, fn_deps, etid. split; [exact Hh|exact Hlater].
Defined.

(** X16 on the test double: over a record with save-workflow marked only,
    [from_janis] raises what the file name helper raises on [None], and the
    engine has counted no start. *)
Lemma from_janis_saved_not_submitted_witness :
  let w := mkWorld nat string {[ProgressKeys.saveWorkflow]} ∅ 0%nat [] in
  let r := run (Double.from_janis_double true Double.example_outputs 3) w in
  r.2 = Raised "'NoneType' object has no attribute 'id'"
  /\ progress r.1 = {[ProgressKeys.saveWorkflow]}
  /\ count_start (history r.1) = 0%nat
  /\ outside r.1 = 0%nat.
Proof.
  intros w.
  apply (from_janis_saved_not_submitted nat string unit unit
           Double.get_extension (fun wf _ => wf)
           (fun _ => Double.translator_double)
           (Double.registry_double true Double.example_outputs)
           Double.dump_double
           3 "task" "/out" "wf" (Double.env_double true Double.example_outputs)
           tt None w "'NoneType' object has no attribute 'id'").
  - by_evaluation.
  - by_evaluation.
  - reflexivity.
Defined.

(** A file with a secondary file of the same extension. *)
Definition bam_with_copy : CromwellFile :=
  CFile "/tmp/a.bam" [CFile "/tmp/a.sorted.bam" []; CFile "/tmp/a.bam.bai" []].

(** X18 on the test double: the primary file and its first secondary file
    are both copied to [x.bam]. *)
Lemma cromwell_files_collide_on_extension_witness :
  copy_cromwell_output Double.get_extension "/out/outputs/" "x" bam_with_copy
  = [ mkCopy "/tmp/a.bam" "/out/outputs/x.bam";
      mkCopy "/tmp/a.sorted.bam" "/out/outputs/x.bam";
      mkCopy "/tmp/a.bam.bai" "/out/outputs/x.bai" ]
  /\ cp_dest (mkCopy "/tmp/a.bam" "/out/outputs/x.bam")
     = cp_dest (mkCopy "/tmp/a.sorted.bam" "/out/outputs/x.bam").
Proof.
  split; [reflexivity|].
  apply (cromwell_files_collide_on_extension Double.get_extension
           "/out/outputs/" "x" bam_with_copy).
  - by_evaluation.
  - by_evaluation.
  - reflexivity.
Defined.

(** X19 on the test double: the output before the integer has been copied,
    the one after it has not. *)
Lemma staging_stops_without_rollback_witness :
  history
    (world (copy_outputs_if_required Double.get_extension
              (Double.manager true outputs_with_int)
              Double.validating_state).1)
  = [ EvCopy (mkCopy "/tmp/a.vcf" "/out/outputs/x.vcf") (Ok tt);
      EvOutputs (Some "run-0") (Ok outputs_with_int) ].
Proof.
  destruct (staging_stops_without_rollback nat string Double.get_extension
              (Double.manager true outputs_with_int)
              (Double.env_double true outputs_with_int)
              Double.validating_state 0%nat
              [("x", OStr "/tmp/a.vcf")] "bam" "int" [("z", OStr "/tmp/z.txt")]
              eq_refl ltac:(by_evaluation) eq_refl
              ltac:(intros src dst e; reflexivity) eq_refl)
    as [Hh _].
  exact Hh.
Defined.

(** * Container registries

    [janis_assistant/data/container/registries.py]: the choice of a registry
    from the host part of a container name, and the lookup of the digest of
    a container from the registry's manifest endpoint. *)

Module Registries.

(** [urllib.request.Request(url=..., headers=...)]: the URL and the header
    dictionary the request was built with. *)
Record Request := mkRequest {
  full_url : string;
  headers : gmap string string
}.

#[global] Instance Request_eq_dec : EqDecision Request.
Proof. solve_decision. Defined.

Definition DIGEST_HEADER_NAME : string := "Docker-Content-Digest".

Definition MANIFEST_V2_MEDIA_TYPE : string :=
  "application/vnd.docker.distribution.manifest.v2+json".

(** The enumeration [ContainerRegistry]. *)
Inductive ContainerRegistry := dockerhub | quay | gcr.

(** [ContainerRegistry.from_host]; a host that passes none of the three
    tests falls off the end of the function, which then returns [None]. *)
Definition from_host (host : option string) : option ContainerRegistry :=
  match host with
  | None => Some dockerhub
  | Some h =>
      if negb (PyStr.truthy h) then Some dockerhub
      else if PyStr.contains "quay.io" h then Some quay
      else if PyStr.contains "gcr" h then Some gcr
      else None
  end.

(** [token[: n]] *)
Fixpoint take (n : nat) (s : string) : string :=
  match n, s with
  | S n', String c r => String c (take n' r)
  | _, _ => ""
  end.

(** [token[: min(5, len(token) - 1)]], for a token that is not empty. *)
Definition preview (token : string) : string :=
  take (Nat.min 5 (String.length token - 1)) token.

Section Registry.

(** [ContainerInfo], of which the module uses [without_version(empty_repo=
    "library")], the tag as an f-string prints it, and [str(info)]. *)
Variable ContainerInfo : Type.
Variable without_version : ContainerInfo -> string.
Variable tag : ContainerInfo -> string.
Variable str_info : ContainerInfo -> string.

(** The network and [urllib.request.urlopen]; of a response the module
    reads a header by name, and the [token] member of its JSON body, which
    raises when the body does not parse. *)
Variable Net : Type.
Variable Response : Type.
Variable urlopen : Request -> Net -> Net * result Response.
Variable header : Response -> string -> option string.
Variable token_of : Response -> result (option string).

(** The interface [ContainerRegistryBase]: the abstract [host_name] and the
    overridable [build_token_request]. *)
Record ContainerRegistryBase := mkRegistry {
  host_name : string;
  build_token_request : ContainerInfo -> option Request
}.

(** A registry that keeps the inherited [build_token_request], which
    returns [None]. *)
Definition plain_registry (host : string) : ContainerRegistryBase :=
  mkRegistry host (fun _ => None).

Definition DockerHubRegistry : ContainerRegistryBase :=
  mkRegistry "registry.hub.docker.com"
    (fun info =>
       Some (mkRequest
               ("https://auth.docker.io/token?service=registry.docker.io&scope=repository:"
                +:+ without_version info +:+ ":pull")
               ∅)).

(** [ContainerRegistry.to_registry] *)
Definition to_registry (self : ContainerRegistry) : result ContainerRegistryBase :=
  match self with
  | dockerhub => Ok DockerHubRegistry
  | quay => Raise "NotImplementedError: Come back soon!"
  | gcr => Raise "NotImplementedError: Come back soon!"
  end.

(** [build_request] *)
Definition build_request (self : ContainerRegistryBase) (info : ContainerInfo)
    (token : option string) : Request :=
  let url := "https://" +:+ host_name self +:+ "/v2/" +:+ without_version info
             +:+ "/manifests/" +:+ tag info in
  let headers : gmap string string := {["accept" := MANIFEST_V2_MEDIA_TYPE]} in
  mkRequest url
    (match token with
     | Some t =>
         if PyStr.truthy t then <["authorization" := "Bearer " +:+ t]> headers
         else headers
     | None => headers
     end).

(** What the module writes out: a printed line, the critical log entry,
    and the line that prints the manifest request with its header items. *)
Inductive Output :=
| Line (text : string)
| Critical (text : string)
| RequestLine (url : string) (header_items : gmap string string).

(** The network, the requests opened so far and the output so far, both
    newest first. *)
Record Session := mkSession {
  net : Net;
  opened : list Request;
  written : list Output
}.

Definition print (o : Output) (s : Session) : Session :=
  mkSession (net s) (opened s) (o :: written s).

Definition open (req : Request) (s : Session) : Session * result Response :=
  let '(n', r) := urlopen req (net s) in
  (mkSession n' (req :: opened s) (written s), r).

(** [get_token] *)
Definition get_token (self : ContainerRegistryBase) (info : ContainerInfo)
    (s : Session) : Session * result (option string) :=
  match build_token_request self info with
  | None => (s, Ok None)
  | Some req =>
      let s1 := print (Line ("Requesting token with: " +:+ full_url req)) s in
      match open req s1 with
      | (s2, Ok response) => (s2, token_of response)
      | (s2, Raise e) => (s2, Raise e)
      end
  end.

(** [get_digest] *)
Definition get_digest (self : ContainerRegistryBase) (info : ContainerInfo)
    (s : Session) : Session * result (option string) :=
  match get_token self info s with
  | (s1, Raise e) =>
      (print (Critical ("Couldn't get digest for container '" +:+ str_info info
                        +:+ "': " +:+ e)) s1,
       Ok None)
  | (s1, Ok token) =>
      let s2 :=
        match token with
        | Some t =>
            if PyStr.truthy t then
              print (Line ("Got token for '" +:+ str_info info +:+ "': "
                           +:+ preview t +:+ "...")) s1
            else s1
        | None => s1
        end in
      let req := build_request self info token in
      let s3 := print (RequestLine (full_url req) (headers req)) s2 in
      match open req s3 with
      | (s4, Ok response) =>
          (s4, Ok (match header response "etag" with
                   | Some digest => Some digest
                   | None => header response DIGEST_HEADER_NAME
                   end))
      | (s4, Raise e) => (s4, Raise e)
      end
  end.

(** ** Facts about the registries *)

(** [from_host] answers Docker Hub for the absent and the empty host
    only. *)
Lemma from_host_dockerhub (host : option string) :
  from_host host = Some dockerhub <-> host = None \/ host = Some "".
Proof.
  destruct host as [h|]; [|split; [by left|done]].
  destruct h as [|c r]; [split; [by right|done]|].
  unfold from_host. cbn [PyStr.truthy negb].
  split; [|by intros [|]].
  destruct (PyStr.contains "quay.io" _); [done|].
  by destruct (PyStr.contains "gcr" _).
Qed.

(** X20: which hosts [from_host] knows.  It answers Docker Hub exactly for
    the absent and the empty host; a host that contains [quay.io] is Quay
    even when it also contains [gcr]; and it gives no registry at all,
    returning [None], exactly for a host that is not empty and contains
    neither [quay.io] nor [gcr]. *)
Theorem from_host_known_hosts (host : option string) :
  (from_host host = Some dockerhub <-> host = None \/ host = Some "")
  /\ (forall h, host = Some h -> PyStr.contains "quay.io" h = true ->
      from_host host = Some quay)
  /\ (from_host host = None
      <-> exists h, host = Some h /\ h <> ""
                    /\ PyStr.contains "quay.io" h = false
                    /\ PyStr.contains "gcr" h = false).
Proof.
  split; [apply from_host_dockerhub|].
  destruct host as [h|]; simpl.
  - destruct h as [|c r] eqn:Hh; simpl PyStr.truthy; simpl negb; cbv iota.
    + split; [by intros h' [= <-]|].
      split; [done|]. by intros (h' & [= <-] & Hne & _).
    + rewrite <- Hh.
      destruct (PyStr.contains "quay.io" h) eqn:Hq;
        [|destruct (PyStr.contains "gcr" h) eqn:Hg].
      * split; [done|]. split; [done|].
        intros (h' & [= <-] & _ & Hq' & _). congruence.
      * split; [intros h' [= <-]; congruence|]. split; [done|].
        intros (h' & [= <-] & _ & _ & Hg'). congruence.
      * split; [intros h' [= <-]; congruence|]. split; [|done].
        intros _. exists h. by subst.
  - split; [done|]. split; [done|]. by intros (h' & [=] & _).
Qed.

(** X21: from a host to a registry object.  Composing [from_host] with
    [to_registry] yields a registry object only for the absent and the empty
    host, and then it is the Docker Hub registry; for every other host
    either [to_registry] raises [NotImplementedError] or [from_host] has
    returned [None]. *)
Theorem only_the_default_host_has_a_registry (host : option string) :
  (forall reg,
      (exists k, from_host host = Some k /\ to_registry k = Ok reg)
      <-> (host = None \/ host = Some "") /\ reg = DockerHubRegistry)
  /\ (host <> None -> host <> Some "" ->
      from_host host = None
      \/ exists k, from_host host = Some k
                   /\ to_registry k = Raise "NotImplementedError: Come back soon!").
Proof using Type.
  pose proof (from_host_dockerhub host) as Hd.
  split.
  - intros reg. split.
    + intros (k & Hk & Hreg). destruct k; simpl in Hreg; [|done..].
      split; [by apply Hd|congruence].
    + intros [Hhost ->]. exists dockerhub. split; [by apply Hd|done].
  - intros Hn He. destruct (from_host host) as [k|] eqn:Hk; [|by left].
    right. exists k. split; [done|].
    destruct k; [|done..]. destruct (proj1 Hd eq_refl); done.
Qed.

Lemma take_length (n : nat) (s : string) :
  String.length (take n s) = Nat.min n (String.length s).
Proof.
  revert s. induction n as [|n IH]; intros [|c r]; simpl; try done.
  by rewrite IH.
Qed.

Lemma take_prefix (n : nat) (s : string) : String.prefix (take n s) s = true.
Proof.
  revert s. induction n as [|n IH]; intros [|c r]; simpl; try done.
  destruct (Ascii.ascii_dec c c); [apply IH|done].
Qed.

(** X22: the token preview and the line after it.  For a token that is not
    empty the preview is a prefix of the token of at most five characters
    and always shorter than the token, so the [Got token] line never shows
    a whole token.  The line printed next shows the request with its header
    items, and among them the [authorization] header, which holds the whole
    token. *)
Theorem token_preview_then_whole_token self info s s1 token :
  get_token self info s = (s1, Ok (Some token)) ->
  token <> "" ->
  let s' := (get_digest self info s).1 in
  let req := build_request self info (Some token) in
  String.prefix (preview token) token = true
  /\ (String.length (preview token) <= 5)%nat
  /\ (String.length (preview token) < String.length token)%nat
  /\ headers req !! "authorization" = Some ("Bearer " +:+ token)
  /\ exists rest,
      written s'
      = RequestLine (full_url req) (headers req)
        :: Line ("Got token for '" +:+ str_info info +:+ "': "
                 +:+ preview token +:+ "...")
        :: rest.
Proof using Type.
  intros Htok Hne s' req. subst s' req.
  split; [apply take_prefix|].
  unfold preview. rewrite take_length.
  split; [lia|].
  split; [destruct token as [|c r]; [done|];
          change (String.length (String c r)) with (S (String.length r)); lia|].
  unfold get_digest, build_request. rewrite Htok.
  destruct token as [|c r]; [done|]. cbn [PyStr.truthy headers full_url].
  split; [by rewrite lookup_insert_eq|].
  unfold open, print. cbn [net opened written].
  destruct (urlopen _ _) as [n' [response|e]]; cbn [fst written]; by eexists.
Qed.

(** X23: how [get_digest] fails and what it answers.  When obtaining the
    token raises, the exception is swallowed: the result is [None], a
    critical entry is logged and no manifest request is opened.  When the
    token was obtained, exactly one more request is opened, the manifest
    request; an exception of that request is not caught; and when it
    answers, the digest is the [etag] header if the response has one and the
    [Docker-Content-Digest] header otherwise. *)
Theorem get_digest_outcomes self info s :
  let r := get_digest self info s in
  match get_token self info s with
  | (s1, Raise e) =>
      r.2 = Ok None
      /\ opened r.1 = opened s1
      /\ exists text, written r.1 = Critical text :: written s1
  | (s1, Ok token) =>
      let req := build_request self info token in
      opened r.1 = req :: opened s1
      /\ match urlopen req (net s1) with
         | (_, Raise e) => r.2 = Raise e
         | (_, Ok response) =>
             r.2 = Ok (match header response "etag" with
                       | Some digest => Some digest
                       | None => header response "Docker-Content-Digest"
                       end)
         end
  end.
Proof using Type.
  intros r. subst r. unfold get_digest.
  destruct (get_token self info s) as [s1 [token|e]]; simpl.
  - unfold open, print.
    destruct token as [t|]; [destruct (PyStr.truthy t)|]; simpl;
      destruct (urlopen _ _) as [n' [response|e]]; simpl; done.
  - split; [done|]. split; [done|]. by eexists.
Qed.

(** X24: the requests of a Docker Hub lookup.  [get_digest] on the Docker
    Hub registry first asks [auth.docker.io] for a pull token for the
    repository; when that answers with a token that is not empty, it then
    asks [registry.hub.docker.com] for the manifest of the repository at the
    tag, with the token as bearer; these two are the only requests it
    opens. *)
Theorem dockerhub_lookup_requests info s n1 response token :
  let token_request :=
    mkRequest
      ("https://auth.docker.io/token?service=registry.docker.io&scope=repository:"
       +:+ without_version info +:+ ":pull") ∅ in
  urlopen token_request (net s) = (n1, Ok response) ->
  token_of response = Ok (Some token) ->
  token <> "" ->
  opened (get_digest DockerHubRegistry info s).1
  = [ mkRequest
        ("https://registry.hub.docker.com/v2/" +:+ without_version info
         +:+ "/manifests/" +:+ tag info)
        (<["authorization" := "Bearer " +:+ token]>
           {["accept" := MANIFEST_V2_MEDIA_TYPE]});
      token_request ]
    ++ opened s.
Proof using Type.
  intros token_request Hopen Htok Hne. subst token_request.
  unfold get_digest, get_token, DockerHubRegistry, build_request, open, print.
  simpl. rewrite Hopen. simpl. rewrite Htok.
  destruct token as [|c r]; [done|]. simpl.
  destruct (urlopen _ n1) as [n' [resp|e]]; simpl; done.
Qed.

(** X25: a registry that keeps the inherited [build_token_request].  Its
    lookup is anonymous: [get_digest] opens one request only, the manifest
    request at the registry's own host, whose one header is [accept]; no
    token line is printed, the one output being the request line. *)
Theorem inherited_token_request_is_anonymous host info s :
  let r := get_digest (plain_registry host) info s in
  let req := mkRequest
               ("https://" +:+ host +:+ "/v2/" +:+ without_version info
                +:+ "/manifests/" +:+ tag info)
               {["accept" := MANIFEST_V2_MEDIA_TYPE]} in
  opened r.1 = req :: opened s
  /\ headers req !! "authorization" = None
  /\ written r.1 = RequestLine (full_url req) (headers req) :: written s
  /\ net r.1 = (urlopen req (net s)).1.
Proof using Type.
  intros r req. subst r req.
  unfold get_digest, get_token, plain_registry, build_request, open, print.
  cbn [build_token_request host_name net opened written headers full_url].
  destruct (urlopen _ _) as [n' [response|e]]; cbn [fst net opened written];
    (split; [done|]; split; [by apply lookup_singleton_ne|done]).
Qed.

End Registry.

Arguments net {Net} s.
Arguments opened {Net} s.
Arguments written {Net} s.

(** ** A registry double *)

(** A network that counts the requests it has seen; the auth server hands
    out the token [abcdefgh], and the registry answers with both digest
    headers. *)
Definition urlopen_double (req : Request) (n : nat) : nat * result string :=
  (S n, Ok (if PyStr.contains "auth.docker.io" (full_url req) then "auth"
            else "manifest")).

Definition header_double (response name : string) : option string :=
  if String.eqb name "etag" then Some "sha256:from-etag"
  else if String.eqb name "Docker-Content-Digest" then Some "sha256:from-digest"
  else None.

Definition token_of_double (response : string) : result (option string) :=
  Ok (Some "abcdefgh").

Definition session0 : Session nat := mkSession nat 0%nat [] [].

Definition info_double : string := "ubuntu".

Definition get_digest_double : Session nat * result (option string) :=
  get_digest string (fun i => "library/" +:+ i) (fun _ => "latest") (fun i => i)
    nat string urlopen_double header_double token_of_double
    (DockerHubRegistry string (fun i => "library/" +:+ i)) info_double session0.

(** X21 on a concrete host: [quay.io/biocontainers] has no registry
    object. *)
Lemma only_the_default_host_has_a_registry_witness :
  from_host (Some "quay.io/biocontainers") = None
  \/ exists k, from_host (Some "quay.io/biocontainers") = Some k
               /\ to_registry string (fun i => i) k
                  = Raise "NotImplementedError: Come back soon!".
Proof.
  apply (proj2 (only_the_default_host_has_a_registry string (fun i => i)
                  (Some "quay.io/biocontainers"))); discriminate.
Defined.

(** X20 on a concrete host: [quay.io/gcr-mirror] is Quay. *)
Lemma from_host_known_hosts_witness :
  from_host (Some "quay.io/gcr-mirror") = Some quay.
Proof.
  apply (proj1 (proj2 (from_host_known_hosts (Some "quay.io/gcr-mirror")))
           "quay.io/gcr-mirror"); reflexivity.
Defined.

(** X22 on the double: of the token [abcdefgh] the preview is [abcde], and
    the request line carries the whole token. *)
Lemma token_preview_then_whole_token_witness :
  preview "abcdefgh" = "abcde"
  /\ exists rest,
      written get_digest_double.1
      = RequestLine
          "https://registry.hub.docker.com/v2/library/ubuntu/manifests/latest"
          (<["authorization" := "Bearer abcdefgh"]>
             {["accept" := MANIFEST_V2_MEDIA_TYPE]})
        :: Line "Got token for 'ubuntu': abcde..."
        :: rest.
Proof.
  split; [reflexivity|].
  destruct (token_preview_then_whole_token string (fun i => "library/" +:+ i)
              (fun _ => "latest") (fun i => i) nat string urlopen_double
              header_double token_of_double
              (DockerHubRegistry string (fun i => "library/" +:+ i))
              info_double session0
              (mkSession nat 1%nat
                 [mkRequest "https://auth.docker.io/token?service=registry.docker.io&scope=repository:library/ubuntu:pull" ∅]
                 [Line "Requesting token with: https://auth.docker.io/token?service=registry.docker.io&scope=repository:library/ubuntu:pull"])
              "abcdefgh" eq_refl ltac:(discriminate))
    as (_ & _ & _ & _ & Hw).
  exact Hw.
Defined.

(** X24 on the double: the two requests of the lookup of [ubuntu:latest]. *)
Lemma dockerhub_lookup_requests_witness :
  opened get_digest_double.1
  = [ mkRequest
        "https://registry.hub.docker.com/v2/library/ubuntu/manifests/latest"
        (<["authorization" := "Bearer abcdefgh"]>
           {["accept" := MANIFEST_V2_MEDIA_TYPE]});
      mkRequest
        "https://auth.docker.io/token?service=registry.docker.io&scope=repository:library/ubuntu:pull"
        ∅ ]
  /\ get_digest_double.2 = Ok (Some "sha256:from-etag").
Proof.
  split; [|reflexivity].
  exact (dockerhub_lookup_requests string (fun i => "library/" +:+ i)
           (fun _ => "latest") (fun i => i) nat string urlopen_double
           header_double token_of_double info_double session0
           1%nat "auth" "abcdefgh" eq_refl eq_refl ltac:(discriminate)).
Defined.

End Registries.
